(** * Tail elision in [head] (coreutils 5.2.1, src/head.c)

    A shallow embedding of the functions that print all but the last N
    bytes or lines of an input ([copy_fd], [elide_tail_bytes_pipe],
    [elide_tail_bytes_file], [elide_tail_lines_pipe],
    [elide_tail_lines_seekable], [elide_tail_lines_file]) and of the two
    that print the first N ([head_bytes], [head_lines]) over an explicit
    model of the file descriptor they read, of standard output, and of the
    buffers they allocate, followed by the properties of these functions. *)

From Stdlib Require Import ZArith Lia Bool List.
From Stdlib Require Import Strings.String Strings.Byte.
From stdpp Require Import base list.
Import ListNotations.

#[local] Open Scope Z_scope.

(** ** Byte sequences with C-style (integer) offsets *)

Definition zlen {A} (l : list A) : Z := Z.of_nat (length l).

(** [slice l off n]: the [n] elements of [l] starting at offset [off]
    (fewer when [l] ends before). *)
Definition slice {A} (l : list A) (off n : Z) : list A :=
  take (Z.to_nat n) (drop (Z.to_nat off) l).

(** [store buf off data]: the array [buf] after [data] has been copied to
    [buf + off] (what [read] and [memcpy] do to their destination). *)
Definition store {A} (buf : list A) (off : Z) (data : list A) : list A :=
  take (Z.to_nat off) buf ++ data ++ drop (Z.to_nat off + length data) buf.

Definition LF : byte := x0a.

Definition is_LF (c : byte) : bool := Byte.eqb c LF.

(** Index of the first newline of [l], as [memchr (l, '\n', length l)]
    finds it. *)
Fixpoint index_LF (l : list byte) : option Z :=
  match l with
  | [] => None
  | c :: l' => if is_LF c then Some 0 else option_map Z.succ (index_LF l')
  end.

(** Index of the last newline of [l], as [memrchr] finds it. *)
Fixpoint rindex_LF (l : list byte) : option Z :=
  match l with
  | [] => None
  | c :: l' =>
      match rindex_LF l' with
      | Some k => Some (Z.succ k)
      | None => if is_LF c then Some 0 else None
      end
  end.

(** [memchr (buf + p, '\n', n)], as an offset into [buf]. *)
Definition memchr (buf : list byte) (p n : Z) : option Z :=
  option_map (Z.add p) (index_LF (slice buf p n)).

(** [memrchr (buf, '\n', n)], as an offset into [buf]. *)
Definition memrchr (buf : list byte) (n : Z) : option Z :=
  rindex_LF (slice buf 0 n).

(** Number of newline bytes in [l]. *)
Fixpoint count_LF (l : list byte) : Z :=
  match l with
  | [] => 0
  | c :: l' => (if is_LF c then 1 else 0) + count_LF l'
  end.

(** ** The platform

    Constants that head.c takes from its headers and from the compiler's
    command line.  [READ_BUFSIZE] is [HEAD_TAIL_PIPE_READ_BUFSIZE], which
    defaults to [BUFSIZ]; [HEAD_TAIL_PIPE_BYTECOUNT_THRESHOLD] defaults to
    [1024 * 1024]. *)

Record platform := Platform {
  BUFSIZ : Z;
  READ_BUFSIZE : Z;
  HEAD_TAIL_PIPE_BYTECOUNT_THRESHOLD : Z;
  SIZE_MAX : Z;
  UINTMAX_MAX : Z;
  INT_MAX : Z;
  OFF_T_MAX : Z;
  SIZEOF_POINTER : Z;            (* [sizeof (char * )] *)
  SIZEOF_LBUFFER : Z             (* [sizeof (struct linebuffer)] *)
}.

(** What holds on every platform the file compiles for: the [#if] at
    line 227 rejects a threshold below [2 * READ_BUFSIZE], buffers of the
    sizes used fit in [size_t], [size_t] and [off_t] fit in [uintmax_t],
    and a [struct linebuffer] has room for its [buffer] of [BUFSIZ] bytes
    and its other members. *)
Record wf_platform (P : platform) : Prop := {
  wf_BUFSIZ : 0 < BUFSIZ P;
  wf_READ_BUFSIZE : 0 < READ_BUFSIZE P;
  wf_THRESHOLD : 2 * READ_BUFSIZE P <= HEAD_TAIL_PIPE_BYTECOUNT_THRESHOLD P;
  wf_alloc :
    2 * (READ_BUFSIZE P + HEAD_TAIL_PIPE_BYTECOUNT_THRESHOLD P) <= SIZE_MAX P;
  wf_BUFSIZ_size : BUFSIZ P <= SIZE_MAX P;
  wf_SIZE_MAX : SIZE_MAX P <= UINTMAX_MAX P;
  wf_OFF_T_MAX : OFF_T_MAX P + READ_BUFSIZE P <= UINTMAX_MAX P;
  wf_INT_MAX : 2 < INT_MAX P;
  wf_SIZEOF_POINTER : 0 < SIZEOF_POINTER P;
  wf_SIZEOF_LBUFFER : BUFSIZ P < SIZEOF_LBUFFER P;
  wf_LBUFFER_size : SIZEOF_LBUFFER P <= SIZE_MAX P
}.

(** glibc on x86-64. *)
Definition lp64 : platform :=
  {| BUFSIZ := 8192; READ_BUFSIZE := 8192;
     HEAD_TAIL_PIPE_BYTECOUNT_THRESHOLD := 1024 * 1024;
     SIZE_MAX := 2 ^ 64 - 1; UINTMAX_MAX := 2 ^ 64 - 1;
     INT_MAX := 2 ^ 31 - 1; OFF_T_MAX := 2 ^ 63 - 1;
     SIZEOF_POINTER := 8; SIZEOF_LBUFFER := 8216 |}.

(** glibc on i386 with 64-bit file offsets. *)
Definition ilp32 : platform :=
  {| BUFSIZ := 8192; READ_BUFSIZE := 8192;
     HEAD_TAIL_PIPE_BYTECOUNT_THRESHOLD := 1024 * 1024;
     SIZE_MAX := 2 ^ 32 - 1; UINTMAX_MAX := 2 ^ 64 - 1;
     INT_MAX := 2 ^ 31 - 1; OFF_T_MAX := 2 ^ 63 - 1;
     SIZEOF_POINTER := 4; SIZEOF_LBUFFER := 8204 |}.

(** [lp64] built with [-DHEAD_TAIL_PIPE_READ_BUFSIZE=4
    -DHEAD_TAIL_PIPE_BYTECOUNT_THRESHOLD=8], the two macros head.c leaves
    open so that both strategies can be exercised on small inputs. *)
Definition lp64_small : platform :=
  {| BUFSIZ := 8192; READ_BUFSIZE := 4;
     HEAD_TAIL_PIPE_BYTECOUNT_THRESHOLD := 8;
     SIZE_MAX := 2 ^ 64 - 1; UINTMAX_MAX := 2 ^ 64 - 1;
     INT_MAX := 2 ^ 31 - 1; OFF_T_MAX := 2 ^ 63 - 1;
     SIZEOF_POINTER := 8; SIZEOF_LBUFFER := 8216 |}.

(** [ilp32] built with [-DHEAD_TAIL_PIPE_READ_BUFSIZE=1
    -DHEAD_TAIL_PIPE_BYTECOUNT_THRESHOLD=2]: blocks of one byte. *)
Definition ilp32_bytewise : platform :=
  {| BUFSIZ := 8192; READ_BUFSIZE := 1;
     HEAD_TAIL_PIPE_BYTECOUNT_THRESHOLD := 2;
     SIZE_MAX := 2 ^ 32 - 1; UINTMAX_MAX := 2 ^ 64 - 1;
     INT_MAX := 2 ^ 31 - 1; OFF_T_MAX := 2 ^ 63 - 1;
     SIZEOF_POINTER := 4; SIZEOF_LBUFFER := 8204 |}.

(** ** The world: input descriptor, standard output, diagnostics *)

Inductive Copy_fd_status :=
| COPY_FD_OK
| COPY_FD_READ_ERROR
| COPY_FD_WRITE_ERROR
| COPY_FD_UNEXPECTED_EOF.

(** The diagnostics of the functions below, named after their text. *)
Inductive message :=
| error_reading                      (* "error reading %s" *)
| error_writing                      (* "error writing %s" *)
| file_has_shrunk_too_much           (* "%s: file has shrunk too much" *)
| write_error                        (* "write error" *)
| number_of_bytes_is_large (n : Z)   (* "%s: number of bytes is large" *)
| cannot_lseek                       (* "cannot lseek %s" *)
| cannot_lseek_back   (* "%s: cannot lseek back to original position" *)
| cannot_seek_to_offset (pos : Z)    (* "%s: cannot seek to offset %s" *)
| unable_to_restore_file_pointer
        (* "%s: unable to restore file pointer to initial offset" *)
| memory_exhausted.                  (* "memory exhausted" *)

(** What the environment sees of a call, newest first in [trace].  A write
    carries the line of head.c of the [fwrite] that issued it. *)
Inductive event :=
| Ev_read (count : Z) (n_read : option Z)   (* [None]: SAFE_READ_ERROR *)
| Ev_write (line : Z) (count written : Z)
| Ev_lseek (offset whence result : Z)
| Ev_xmalloc (n : Z)                         (* [n] bytes *)
| Ev_xcalloc (nmemb : Z)                     (* [nmemb] pointers *)
| Ev_error (status : Z) (m : message).

(** How the next [read] on the descriptor behaves when there is a choice:
    it fails, or it returns at most [k] bytes (at least one when data is
    left: a pipe may return any part of what was asked for). *)
Inductive read_step :=
| Rd_fail
| Rd_at_most (k : Z).

(** How the next write to standard output behaves: it accepts at most
    [k] bytes. *)
Inductive write_step :=
| Wr_at_most (k : Z).

Record world := World {
  src_data : list byte;          (* the bytes of the input, from offset 0 *)
  src_pos : Z;                   (* offset of the next byte read *)
  src_stat : option bool;        (* [fstat]: fails, or says S_ISREG or not *)
  src_seekable : bool;           (* [lseek] works on the descriptor *)
  presume_input_pipe : bool;     (* the global set by --presume-input-pipe *)
  read_plan : list read_step;    (* upcoming reads; full reads afterwards *)
  write_plan : list write_step;  (* upcoming writes; complete afterwards *)
  seek_plan : list bool;         (* upcoming lseeks: [true] fails *)
  calloc_plan : list bool;       (* upcoming callocs: [true] returns null *)
  junk : byte;                   (* what freshly allocated memory holds *)
  out : list byte;               (* what standard output has accepted *)
  trace : list event
}.

Definition log (e : event) (w : world) : world :=
  {| src_data := src_data w; src_pos := src_pos w; src_stat := src_stat w;
     src_seekable := src_seekable w;
     presume_input_pipe := presume_input_pipe w;
     read_plan := read_plan w; write_plan := write_plan w;
     seek_plan := seek_plan w; calloc_plan := calloc_plan w;
     junk := junk w; out := out w;
     trace := e :: trace w |}.

Definition after_read (n : Z) (w : world) : world :=
  {| src_data := src_data w; src_pos := src_pos w + n; src_stat := src_stat w;
     src_seekable := src_seekable w;
     presume_input_pipe := presume_input_pipe w;
     read_plan := tail (read_plan w); write_plan := write_plan w;
     seek_plan := seek_plan w; calloc_plan := calloc_plan w;
     junk := junk w; out := out w;
     trace := trace w |}.

Definition after_write (data : list byte) (w : world) : world :=
  {| src_data := src_data w; src_pos := src_pos w; src_stat := src_stat w;
     src_seekable := src_seekable w;
     presume_input_pipe := presume_input_pipe w;
     read_plan := read_plan w; write_plan := tail (write_plan w);
     seek_plan := seek_plan w; calloc_plan := calloc_plan w;
     junk := junk w; out := out w ++ data;
     trace := trace w |}.

Definition after_calloc (w : world) : world :=
  {| src_data := src_data w; src_pos := src_pos w; src_stat := src_stat w;
     src_seekable := src_seekable w;
     presume_input_pipe := presume_input_pipe w;
     read_plan := read_plan w; write_plan := write_plan w;
     seek_plan := seek_plan w; calloc_plan := tail (calloc_plan w);
     junk := junk w; out := out w;
     trace := trace w |}.

Definition after_lseek (pos : Z) (w : world) : world :=
  {| src_data := src_data w; src_pos := pos; src_stat := src_stat w;
     src_seekable := src_seekable w;
     presume_input_pipe := presume_input_pipe w;
     read_plan := read_plan w; write_plan := write_plan w;
     seek_plan := tail (seek_plan w); calloc_plan := calloc_plan w;
     junk := junk w; out := out w;
     trace := trace w |}.

(** ** Outcomes of a call *)

Inductive outcome (A : Type) :=
| Ret (a : A) (w : world)        (* the function returned [a] *)
| Exit (status : Z) (w : world)  (* [error (EXIT_FAILURE, ...)] ended the run *)
| Fault (w : world)              (* access outside of an object: undefined *)
| Timeout.                       (* the fuel of a loop ran out *)

Arguments Ret {A} a w.
Arguments Exit {A} status w.
Arguments Fault {A} w.
Arguments Timeout {A}.

Definition M (A : Type) : Type := world -> outcome A.

Definition ret {A} (a : A) : M A := fun w => Ret a w.

Definition bind {A B} (m : M A) (k : A -> M B) : M B := fun w =>
  match m w with
  | Ret a w' => k a w'
  | Exit s w' => Exit s w'
  | Fault w' => Fault w'
  | Timeout => Timeout
  end.

Definition fault {A} : M A := fun w => Fault w.
Definition timeout {A} : M A := fun _ => Timeout.

Notation "x <- m ;; k" := (bind m (fun x => k))
  (at level 62, m at next level, right associativity).
Notation "m ;;; k" := (bind m (fun _ => k))
  (at level 62, right associativity).

Definition EXIT_FAILURE : Z := 1.
Definition SEEK_SET : Z := 0.
Definition SEEK_CUR : Z := 1.
Definition SEEK_END : Z := 2.
Definition SEEK_DATA : Z := 3.
Definition SEEK_HOLE : Z := 4.

Section Head.

Variable P : platform.

(** Conversions to [size_t], [uintmax_t] and [int]. *)
Definition to_size_t (z : Z) : Z := z mod (SIZE_MAX P + 1).
Definition to_uintmax_t (z : Z) : Z := z mod (UINTMAX_MAX P + 1).
Definition to_int (z : Z) : Z :=
  (z + (INT_MAX P + 1)) mod (2 * (INT_MAX P + 1)) - (INT_MAX P + 1).

(** *** System and library calls *)

(** Bytes left between the read offset and the end of the input. *)
Definition avail (w : world) : Z := Z.max 0 (zlen (src_data w) - src_pos w).

(** [safe_read (fd, buf, count)]: the bytes read, or [None] for
    SAFE_READ_ERROR.  The caller stores them in its buffer. *)
Definition safe_read (count : Z) : M (option (list byte)) := fun w =>
  match read_plan w with
  | Rd_fail :: _ => Ret None (log (Ev_read count None) (after_read 0 w))
  | step =>
      let limit := match step with
                   | Rd_at_most k :: _ => Z.max 1 k
                   | _ => count
                   end in
      let n := Z.max 0 (Z.min limit (Z.min count (avail w))) in
      Ret (Some (slice (src_data w) (src_pos w) n))
          (log (Ev_read count (Some n)) (after_read n w))
  end.

(** [full_read (fd, buf, count)]: reads until [count] bytes are there, the
    input ends or a read fails.  Returns the bytes read and whether [errno]
    is nonzero when they are fewer than [count] (0 means end of file). *)
Fixpoint full_read_loop (fuel : nat) (count : Z) (total : list byte)
  : M (list byte * bool) :=
  if 0 <? count then
    match fuel with
    | O => timeout
    | S fuel =>
        r <- safe_read count ;;
        match r with
        | None => ret (total, true)
        | Some data =>
            if zlen data =? 0 then ret (total, false)
            else full_read_loop fuel (count - zlen data) (total ++ data)
        end
    end
  else ret (total, false).

Definition full_read (count : Z) : M (list byte * bool) :=
  full_read_loop (Z.to_nat count) count [].

(** [fwrite (buf + off, 1, n, stdout)] issued at line [line]: the number of
    bytes accepted.  Reading outside of [buf] is a fault. *)
Definition fwrite (line : Z) (buf : list byte) (off n : Z) : M Z := fun w =>
  if (0 <=? off) && (0 <=? n) && (off + n <=? zlen buf) then
    let written := match write_plan w with
                   | Wr_at_most k :: _ => Z.min n (Z.max 0 k)
                   | [] => n
                   end in
    Ret written
        (log (Ev_write line n written) (after_write (slice buf off written) w))
  else Fault w.

(** [lseek (fd, offset, whence)]: the new offset, or -1.  [SEEK_DATA] and
    [SEEK_HOLE] are those of Linux, on a file that has no hole but the one
    at its end; any other [whence] is invalid. *)
Definition lseek (offset whence : Z) : M Z := fun w =>
  let forced := match seek_plan w with b :: _ => b | [] => false end in
  let size := zlen (src_data w) in
  let inside := (0 <=? offset) && (offset <? size) in
  let target :=
    if whence =? SEEK_SET then Some offset
    else if whence =? SEEK_CUR then Some (src_pos w + offset)
    else if whence =? SEEK_END then Some (size + offset)
    else if whence =? SEEK_DATA then if inside then Some offset else None
    else if whence =? SEEK_HOLE then if inside then Some size else None
    else None in
  let result :=
    if forced || negb (src_seekable w) then -1
    else match target with
         | Some t => if 0 <=? t then t else -1
         | None => -1
         end in
  Ret result
      (log (Ev_lseek offset whence result)
         (after_lseek (if result =? -1 then src_pos w else result) w)).

(** [error (status, errno, ...)]: prints the diagnostic, and exits when
    [status] is nonzero. *)
Definition error (status : Z) (m : message) : M unit := fun w =>
  if status =? 0 then Ret tt (log (Ev_error status m) w)
  else Exit status (log (Ev_error status m) w).

(** [xmalloc (n)]: a fresh array of [n] bytes.  The blocks asked for are
    of a size fixed when the file is compiled, or of
    [2 * (READ_BUFSIZE + n_elide)] bytes with [n_elide] at most the
    threshold: [malloc] is taken to have room for them. *)
Definition xmalloc (n : Z) : M (list byte) := fun w =>
  Ret (repeat (junk w) (Z.to_nat n)) (log (Ev_xmalloc n) w).

(** [xalloc_die ()]: "memory exhausted", and the run ends. *)
Definition xalloc_die {A} : M A := fun w =>
  Exit EXIT_FAILURE (log (Ev_error EXIT_FAILURE memory_exhausted) w).

(** [calloc] returns null on the next call. *)
Definition calloc_fails (w : world) : bool :=
  match calloc_plan w with b :: _ => b | [] => false end.

(** [xcalloc (n, sizeof (char * ))]: a fresh array of [n] null pointers, or
    [xalloc_die] when [n * sizeof (char * )] does not fit in [size_t] or
    [calloc] returns null. *)
Definition xcalloc (n : Z) : M (list (option (list byte))) := fun w =>
  if SIZE_MAX P <? n * SIZEOF_POINTER P
  then xalloc_die (log (Ev_xcalloc n) w)
  else if calloc_fails w
  then xalloc_die (log (Ev_xcalloc n) (after_calloc w))
  else Ret (repeat None (Z.to_nat n)) (log (Ev_xcalloc n) (after_calloc w)).

(** A local array [char buf[n]]. *)
Definition local_array (n : Z) : M (list byte) := fun w =>
  Ret (repeat (junk w) (Z.to_nat n)) w.

(** *** diagnose_copy_fd_failure (lines 149-166) *)

Definition diagnose_copy_fd_failure (err : Copy_fd_status) : M unit :=
  match err with
  | COPY_FD_READ_ERROR => error 0 error_reading
  | COPY_FD_WRITE_ERROR => error 0 error_writing
  | COPY_FD_UNEXPECTED_EOF => error 0 file_has_shrunk_too_much
  | COPY_FD_OK => fault   (* abort () *)
  end.

(** *** copy_fd (lines 180-204) *)

Fixpoint copy_fd_loop (fuel : nat) (buf : list byte) (n_bytes : Z)
  : M Copy_fd_status :=
  if 0 <? n_bytes then
    match fuel with
    | O => timeout
    | S fuel =>
        let n_to_read := Z.min (BUFSIZ P) n_bytes in
        r <- safe_read n_to_read ;;
        match r with
        | None => ret COPY_FD_READ_ERROR
        | Some data =>
            let buf := store buf 0 data in
            let n_read := zlen data in
            let n_bytes := n_bytes - n_read in
            if (n_read =? 0) && negb (n_bytes =? 0)
            then ret COPY_FD_UNEXPECTED_EOF
            else
              n_written <- fwrite 199 buf 0 n_read ;;
              if n_written <? n_read then ret COPY_FD_WRITE_ERROR
              else copy_fd_loop fuel buf n_bytes
        end
    end
  else ret COPY_FD_OK.

Definition copy_fd (n_bytes : Z) : M Copy_fd_status :=
  buf <- local_array (BUFSIZ P) ;;
  copy_fd_loop (Z.to_nat n_bytes) buf n_bytes.

(** *** elide_tail_bytes_pipe (lines 209-405) *)

(** The [for] loop of lines 260-308.  [b] is the block of [2 * n_to_read]
    bytes allocated at line 257; [b[0]] is its offset 0 and [b[1]] its
    offset [n_to_read].  The loop is left with the value of [fail]. *)
Fixpoint double_buffer_loop (fuel : nat) (n_elide n_to_read : Z)
    (b : list byte) (i : Z) (first : bool) : M Z :=
  match fuel with
  | O => timeout
  | S fuel =>
      let b_ := fun k : Z => k * n_to_read in
      r <- full_read n_to_read ;;
      let '(data, errno) := r in
      let b := store b (b_ i) data in
      let n_read := zlen data in
      if (n_read <? n_to_read) && errno then
        error 0 error_reading ;;; ret 1
      else
        let eof := n_read <? n_to_read in
        let delta :=
          if eof && (n_read <=? n_elide) && negb first
          then n_elide - n_read else 0 in
        (if negb first
         then fwrite 297 b (b_ (1 - i) + READ_BUFSIZE P) (n_elide - delta) ;;;
              ret tt
         else ret tt) ;;;
        failed <-
          (if n_elide <? n_read then
             n_written <- fwrite 302 b (b_ i) (n_read - n_elide) ;;
             ret (n_written <? n_read - n_elide)
           else ret false) ;;
        if failed then error 0 write_error ;;; ret 1
        else if eof then ret 0
        else double_buffer_loop fuel n_elide n_to_read b (1 - i) false
  end.

(** [fwrite] from [b[k]], where a null [b[k]] has no bytes to give and an
    index outside of the array is a fault. *)
Definition fwrite_slot (line : Z) (b : list (option (list byte)))
    (k off n : Z) : M Z :=
  if k <? 0 then fault
  else match b !! Z.to_nat k with
       | Some slot => fwrite line (default [] slot) off n
       | None => fault
       end.

(** What the [for] loop of lines 331-359 hands to the code after it. *)
Record ring_exit := Ring_exit {
  ring_fail : bool;               (* left through [goto free_mem] *)
  ring_b : list (option (list byte));
  ring_i : Z;
  ring_i_next : Z;
  ring_n_read : Z;
  ring_buffered_enough : bool
}.

Fixpoint ring_loop (fuel : nat) (n_bufs : Z) (b : list (option (list byte)))
    (i i_next : Z) (buffered_enough : bool) : M ring_exit :=
  match fuel with
  | O => timeout
  | S fuel =>
      match b !! Z.to_nat i with
      | None => fault
      | Some slot =>
          b_i <- match slot with
                 | None => xmalloc (READ_BUFSIZE P)
                 | Some buf => ret buf
                 end ;;
          r <- full_read (READ_BUFSIZE P) ;;
          let '(data, errno) := r in
          let b := <[Z.to_nat i := Some (store b_i 0 data)]> b in
          let n_read := zlen data in
          if (n_read <? READ_BUFSIZE P) && errno then
            error 0 error_reading ;;;
            ret (Ring_exit true b i i_next n_read buffered_enough)
          else
            let eof := n_read <? READ_BUFSIZE P in
            let buffered_enough := buffered_enough || (i + 1 =? n_bufs) in
            failed <-
              (if buffered_enough then
                 n_written <- fwrite_slot 352 b i_next 0 n_read ;;
                 ret (n_written <? n_read)
               else ret false) ;;
            if failed then
              error 0 write_error ;;;
              ret (Ring_exit true b i i_next n_read buffered_enough)
            else if n_bufs =? 0 then fault   (* [% n_bufs] *)
            else
              let i' := i_next in
              let i_next' := (i_next + 1) mod n_bufs in
              if eof
              then ret (Ring_exit false b i' i_next' n_read buffered_enough)
              else ring_loop fuel n_bufs b i' i_next' buffered_enough
      end
  end.

(** Lines 325-327. *)
Definition ring_rem (n_elide : Z) : Z :=
  to_size_t (READ_BUFSIZE P - n_elide mod READ_BUFSIZE P).
Definition ring_n_elide_round (n_elide : Z) : Z :=
  to_size_t (n_elide + ring_rem n_elide).
Definition ring_n_bufs (n_elide : Z) : Z :=
  to_size_t (ring_n_elide_round n_elide / READ_BUFSIZE P + 1).

(** Lines 361-395: the remainder written after the loop. *)
Definition ring_remainder (rem n_bufs : Z) (x : ring_exit) : M unit :=
  let b := ring_b x in
  let i := ring_i x in
  let i_next := ring_i_next x in
  let n_read := ring_n_read x in
  if negb (rem =? 0) then
    if ring_buffered_enough x then
      let n_bytes_left_in_b_i := READ_BUFSIZE P - n_read in
      if rem <? n_bytes_left_in_b_i then
        fwrite_slot 369 b i n_read rem ;;; ret tt
      else
        fwrite_slot 373 b i n_read n_bytes_left_in_b_i ;;;
        fwrite_slot 374 b i_next 0 (rem - n_bytes_left_in_b_i) ;;; ret tt
    else if i + 1 =? n_bufs then
      let y := to_size_t (READ_BUFSIZE P - rem) in
      let x := to_size_t (n_read - y) in
      fwrite_slot 393 b i_next 0 x ;;; ret tt
    else ret tt
  else ret tt.

Definition elide_tail_bytes_pipe (n_elide_0 : Z) : M Z :=
  let n_elide := to_size_t n_elide_0 in
  (if SIZE_MAX P <? to_uintmax_t (n_elide_0 + READ_BUFSIZE P)
   then error EXIT_FAILURE (number_of_bytes_is_large n_elide_0)
   else ret tt) ;;;
  fun w =>
  let fuel := S (Z.to_nat (avail w)) in
  if n_elide <=? HEAD_TAIL_PIPE_BYTECOUNT_THRESHOLD P then
    (let n_to_read := to_size_t (READ_BUFSIZE P + n_elide) in
     b <- xmalloc (to_size_t (2 * n_to_read)) ;;
     double_buffer_loop fuel n_elide n_to_read b 0 true) w
  else
    (let rem := ring_rem n_elide in
     let n_bufs := ring_n_bufs n_elide in
     b <- xcalloc n_bufs ;;
     x <- ring_loop fuel n_bufs b 0 1 false ;;
     if ring_fail x then ret 1
     else ring_remainder rem n_bufs x ;;; ret 0) w.

(** *** elide_tail_bytes_file (lines 414-464) *)

(** Lines 441-462: what is done with a regular file once the two probes
    have given [current_pos] and [end_pos]. *)
Definition elide_tail_bytes_seekable (n_elide current_pos end_pos : Z)
  : M Z :=
  let diff := end_pos - current_pos in
  let bytes_remaining := if diff <? 0 then 0 else diff in
  if bytes_remaining <=? n_elide then ret 0
  else
    r <- lseek 0 (to_int current_pos) ;;
    if r =? -1 then error 0 cannot_lseek_back ;;; ret 1
    else
      err <- copy_fd (bytes_remaining - n_elide) ;;
      match err with
      | COPY_FD_OK => ret 0
      | _ => diagnose_copy_fd_failure err ;;; ret 1
      end.

Definition elide_tail_bytes_file (n_elide : Z) : M Z := fun w =>
  if presume_input_pipe w
     || negb (match src_stat w with Some is_reg => is_reg | None => false end)
  then elide_tail_bytes_pipe n_elide w
  else
    (current_pos <- lseek 0 SEEK_CUR ;;
     if current_pos =? -1 then error 0 cannot_lseek ;;; ret 1
     else
       end_pos <- lseek 0 SEEK_END ;;
       if end_pos =? -1 then error 0 cannot_lseek ;;; ret 1
       else elide_tail_bytes_seekable n_elide current_pos end_pos) w.

(** *** elide_tail_lines_pipe (lines 471-591) *)

(** [struct linebuffer].  The [next] links are the order of the list the
    buffers are kept in: [first] is its head and [last] its last
    element. *)
Record LBUFFER := Lbuffer {
  buffer : list byte;   (* [char buffer[BUFSIZ]] *)
  nbytes : Z;
  nlines : Z
}.

(** [xmalloc (sizeof (LBUFFER))]: [buffer] is the first [BUFSIZ] bytes
    of the block, which hold whatever the memory held. *)
Definition xmalloc_LBUFFER : M LBUFFER :=
  block <- xmalloc (SIZEOF_LBUFFER P) ;;
  ret (Lbuffer (slice block 0 (BUFSIZ P)) 0 0).

(** What the [while (1)] loop of lines 495-543 leaves: whether the last
    read failed, the buffers from [first] up to [last] excluded, [last],
    and [total_lines]. *)
Record lines_read := Lines_read {
  lr_error : bool;
  lr_front : list LBUFFER;
  lr_last : LBUFFER;
  lr_total_lines : Z
}.

(** [total_lines] is at most the number of bytes held in the buffers, so
    that the [size_t] it is kept in does not wrap around. *)
Fixpoint lines_pipe_read_loop (fuel : nat) (n_elide : Z)
    (front : list LBUFFER) (last tmp : LBUFFER) (total_lines : Z)
  : M lines_read :=
  match fuel with
  | O => timeout
  | S fuel =>
      r <- safe_read (BUFSIZ P) ;;
      match r with
      | None => ret (Lines_read true front last total_lines)
      | Some data =>
          let n_read := zlen data in
          if n_read =? 0 then ret (Lines_read false front last total_lines)
          else
            let tmp_buffer := store (buffer tmp) 0 data in
            let tmp := Lbuffer tmp_buffer n_read
                         (count_LF (slice tmp_buffer 0 n_read)) in
            let total_lines := total_lines + nlines tmp in
            if nbytes tmp + nbytes last <? BUFSIZ P then
              let last :=
                Lbuffer (store (buffer last) (nbytes last)
                           (slice (buffer tmp) 0 (nbytes tmp)))
                        (nbytes last + nbytes tmp)
                        (nlines last + nlines tmp) in
              lines_pipe_read_loop fuel n_elide front last tmp total_lines
            else
              (* last = last->next = tmp *)
              match front ++ [last] with
              | [] => fault
              | first :: rest =>
                  if n_elide <? total_lines - nlines first then
                    fwrite 535 (buffer first) 0 (nbytes first) ;;;
                    lines_pipe_read_loop fuel n_elide rest tmp first
                      (total_lines - nlines first)
                  else
                    new <- xmalloc_LBUFFER ;;
                    lines_pipe_read_loop fuel n_elide (first :: rest) tmp new
                      total_lines
              end
      end
  end.

(** The [for] loop of lines 562-566 over the buffers from [first] on;
    it stops at the buffer [tmp] it does not write.  Running off the end
    of the list dereferences a null [tmp]. *)
Fixpoint lines_pipe_flush (n_elide : Z) (q : list LBUFFER) (total_lines : Z)
  : M (LBUFFER * Z) :=
  match q with
  | [] => fault
  | tmp :: q' =>
      if n_elide <? total_lines - nlines tmp then
        fwrite 564 (buffer tmp) 0 (nbytes tmp) ;;;
        lines_pipe_flush n_elide q' (total_lines - nlines tmp)
      else ret (tmp, total_lines)
  end.

(** The [while] loop of lines 574-579: [p] after [n] newlines have been
    passed, or [None] when [memchr] found none and set [p] to null. *)
Fixpoint skip_lines (n : nat) (buf : list byte) (buffer_end p : Z)
  : option Z :=
  match n with
  | O => Some p
  | S n =>
      match memchr buf p (buffer_end - p) with
      | None => None
      | Some q => skip_lines n buf buffer_end (q + 1)
      end
  end.

Definition elide_tail_lines_pipe (n_elide : Z) : M Z :=
  first <- xmalloc_LBUFFER ;;
  tmp <- xmalloc_LBUFFER ;;
  fuel <- (fun w => Ret (S (Z.to_nat (avail w))) w) ;;
  r <- lines_pipe_read_loop fuel n_elide [] first tmp 0 ;;
  if lr_error r then error 0 error_reading ;;; ret 1
  else
    let last := lr_last r in
    let incomplete :=
      negb (nbytes last =? 0)
      && match buffer last !! Z.to_nat (nbytes last - 1) with
         | Some c => negb (is_LF c)
         | None => false
         end in
    let last :=
      if incomplete
      then Lbuffer (buffer last) (nbytes last) (nlines last + 1)
      else last in
    let total_lines :=
      if incomplete then lr_total_lines r + 1 else lr_total_lines r in
    f <- lines_pipe_flush n_elide (lr_front r ++ [last]) total_lines ;;
    let '(tmp, total_lines) := f in
    (if n_elide <? total_lines then
       let n := total_lines - n_elide in
       match skip_lines (Z.to_nat n) (buffer tmp) (nbytes tmp) 0 with
       | Some p => fwrite 580 (buffer tmp) 0 p ;;; ret tt
       | None => fault   (* [p] is null: [p - tmp->buffer] is no length *)
       end
     else ret tt) ;;;
    ret 0.

(** *** elide_tail_lines_seekable (lines 604-712) *)

Inductive scan_result :=
| Found (n : Z)             (* the newline sought is [buffer[n]] *)
| Not_found (n_lines : Z).  (* no newline left in the buffer *)

(** The [while (n)] loop of lines 644-683, up to the newline found. *)
Fixpoint scan_back (fuel : nat) (buf : list byte) (n n_lines : Z)
  : M scan_result :=
  if n =? 0 then ret (Not_found n_lines)
  else
    match fuel with
    | O => timeout
    | S fuel =>
        match memrchr buf n with
        | None => ret (Not_found n_lines)
        | Some nl =>
            if n_lines =? 0 then ret (Found nl)
            else scan_back fuel buf nl (to_uintmax_t (n_lines - 1))
        end
    end.

(** The [while (1)] loop of lines 639-711. *)
Fixpoint lines_seekable_loop (fuel : nat) (n_lines start_pos pos : Z)
    (buf : list byte) (bytes_read : Z) : M Z :=
  match fuel with
  | O => timeout
  | S fuel =>
      s <- scan_back (Z.to_nat bytes_read) buf bytes_read n_lines ;;
      match s with
      | Found n =>
          failed <-
            (if start_pos <? pos then
               r <- lseek start_pos SEEK_SET ;;
               if r <? 0 then
                 error 0 unable_to_restore_file_pointer ;;; ret true
               else
                 err <- copy_fd (pos - start_pos) ;;
                 match err with
                 | COPY_FD_OK => ret false
                 | _ => diagnose_copy_fd_failure err ;;; ret true
                 end
             else ret false) ;;
          if failed then ret 1
          else fwrite 680 buf 0 (n + 1) ;;; ret 0
      | Not_found n_lines =>
          if pos =? start_pos then ret 0
          else
            let pos := pos - BUFSIZ P in
            r <- lseek pos SEEK_SET ;;
            if r <? 0 then error 0 (cannot_seek_to_offset pos) ;;; ret 1
            else
              rd <- safe_read (BUFSIZ P) ;;
              match rd with
              | None => error 0 error_reading ;;; ret 1
              | Some data =>
                  let buf := store buf 0 data in
                  let bytes_read := zlen data in
                  if bytes_read =? 0 then ret 0
                  else lines_seekable_loop fuel n_lines start_pos pos buf
                         bytes_read
              end
      end
  end.

Definition elide_tail_lines_seekable (n_lines start_pos end_pos : Z) : M Z :=
  buf <- local_array (BUFSIZ P) ;;
  let pos := end_pos in
  let bytes_read := to_size_t (Z.rem (pos - start_pos) (BUFSIZ P)) in
  let bytes_read := if bytes_read =? 0 then BUFSIZ P else bytes_read in
  let pos := pos - bytes_read in
  r <- lseek pos SEEK_SET ;;
  if r <? 0 then error 0 (cannot_seek_to_offset pos) ;;; ret 1
  else
    rd <- safe_read bytes_read ;;
    match rd with
    | None => error 0 error_reading ;;; ret 1
    | Some data =>
        let buf := store buf 0 data in
        let bytes_read := zlen data in
        let incomplete :=
          negb (bytes_read =? 0)
          && match buf !! Z.to_nat (bytes_read - 1) with
             | Some c => negb (is_LF c)
             | None => false
             end in
        let n_lines :=
          if incomplete then to_uintmax_t (n_lines - 1) else n_lines in
        lines_seekable_loop (S (Z.to_nat (Z.max 0 pos / BUFSIZ P)))
          n_lines start_pos pos buf bytes_read
    end.

(** *** elide_tail_lines_file (lines 718-749) *)

Definition elide_tail_lines_file (n_elide : Z) : M Z := fun w =>
  if negb (presume_input_pipe w) then
    (start_pos <- lseek 0 SEEK_CUR ;;
     end_pos <- lseek 0 SEEK_END ;;
     if (0 <=? start_pos) && (start_pos <? end_pos) then
       if end_pos =? 0 then ret 0
       else elide_tail_lines_seekable n_elide start_pos end_pos
     else elide_tail_lines_pipe n_elide) w
  else elide_tail_lines_pipe n_elide w.

End Head.

(** ** Worlds to run the functions in *)

Definition bytes (s : string) : list byte := list_byte_of_string s.

(** A line of text with its newline. *)
Definition ln (s : string) : list byte := bytes s ++ [LF].

(** A pipe that will deliver [data], reads returning as much as asked. *)
Definition pipe_of (data : list byte) : world :=
  {| src_data := data; src_pos := 0; src_stat := Some false;
     src_seekable := false; presume_input_pipe := false;
     read_plan := []; write_plan := []; seek_plan := []; calloc_plan := [];
     junk := x00; out := []; trace := [] |}.

(** A regular file holding [data], opened and read up to offset [pos]. *)
Definition file_at (data : list byte) (pos : Z) : world :=
  {| src_data := data; src_pos := pos; src_stat := Some true;
     src_seekable := true; presume_input_pipe := false;
     read_plan := []; write_plan := []; seek_plan := []; calloc_plan := [];
     junk := x00; out := []; trace := [] |}.

Definition file_of (data : list byte) : world := file_at data 0.

(** What a call returned and printed, for the examples. *)
Definition result {A} (o : outcome A) : option (A * list byte) :=
  match o with
  | Ret a w => Some (a, out w)
  | _ => None
  end.

(** The same world with other plans for its reads, writes and seeks. *)
Definition with_plans (w : world) (reads : list read_step)
    (writes : list write_step) (seeks : list bool) : world :=
  {| src_data := src_data w; src_pos := src_pos w; src_stat := src_stat w;
     src_seekable := src_seekable w;
     presume_input_pipe := presume_input_pipe w;
     read_plan := reads; write_plan := writes; seek_plan := seeks;
     calloc_plan := calloc_plan w;
     junk := junk w; out := out w; trace := trace w |}.

(** The same world with another plan for its callocs. *)
Definition with_calloc_plan (w : world) (callocs : list bool) : world :=
  {| src_data := src_data w; src_pos := src_pos w; src_stat := src_stat w;
     src_seekable := src_seekable w;
     presume_input_pipe := presume_input_pipe w;
     read_plan := read_plan w; write_plan := write_plan w;
     seek_plan := seek_plan w; calloc_plan := callocs;
     junk := junk w; out := out w; trace := trace w |}.

(** The same world after [--presume-input-pipe] was given. *)
Definition presuming_pipe (w : world) : world :=
  {| src_data := src_data w; src_pos := src_pos w; src_stat := src_stat w;
     src_seekable := src_seekable w; presume_input_pipe := true;
     read_plan := read_plan w; write_plan := write_plan w;
     seek_plan := seek_plan w; calloc_plan := calloc_plan w;
     junk := junk w; out := out w;
     trace := trace w |}.

(** The world a call ended in. *)
Definition final_world {A} (o : outcome A) : option world :=
  match o with
  | Ret _ w | Exit _ w | Fault w => Some w
  | Timeout => None
  end.

Definition is_fault {A} (o : outcome A) : bool :=
  match o with
  | Fault _ => true
  | _ => false
  end.

(** [P] with another threshold between the two strategies of
    [elide_tail_bytes_pipe]. *)
Definition with_threshold (P : platform) (t : Z) : platform :=
  {| BUFSIZ := BUFSIZ P; READ_BUFSIZE := READ_BUFSIZE P;
     HEAD_TAIL_PIPE_BYTECOUNT_THRESHOLD := t;
     SIZE_MAX := SIZE_MAX P; UINTMAX_MAX := UINTMAX_MAX P;
     INT_MAX := INT_MAX P; OFF_T_MAX := OFF_T_MAX P;
     SIZEOF_POINTER := SIZEOF_POINTER P;
     SIZEOF_LBUFFER := SIZEOF_LBUFFER P |}.

(** ** What the specification asks for *)

(** The logical lines of an input: maximal runs of bytes ended by a
    newline, and the bytes after the last newline, if any, as one more
    line. *)
Fixpoint logical_lines (l : list byte) : list (list byte) :=
  match l with
  | [] => []
  | c :: l' =>
      if is_LF c then [c] :: logical_lines l'
      else match logical_lines l' with
           | [] => [[c]]
           | line :: rest => (c :: line) :: rest
           end
  end.

(** The input without its last [n] bytes. *)
Definition all_but_last_bytes (n : Z) (input : list byte) : list byte :=
  take (Z.to_nat (Z.max 0 (zlen input - n))) input.

(** The input without its last [n] logical lines. *)
Definition all_but_last_lines (n : Z) (input : list byte) : list byte :=
  let lines := logical_lines input in
  concat (take (Z.to_nat (zlen lines - n)) lines).

(** The prefix of [l] that ends with its [k]-th newline: nothing for
    [k = 0], and all of [l] when it has fewer than [k] newlines. *)
Fixpoint upto_LF (l : list byte) (k : nat) : list byte :=
  match l with
  | [] => []
  | c :: l' =>
      match k with
      | O => []
      | S k' => c :: upto_LF l' (if is_LF c then k' else k)
      end
  end.


(** [ceil (a / b)] for positive [b]. *)
Definition ceil_div (a b : Z) : Z := (a + b - 1) / b.

(** ** Reading the trace *)

Definition is_read_error (e : event) : bool :=
  match e with
  | Ev_read _ None => true
  | _ => false
  end.

(** A read that was asked for bytes and returned none. *)
Definition is_end_of_input (e : event) : bool :=
  match e with
  | Ev_read count (Some n) => (0 <? count) && (n =? 0)
  | _ => false
  end.

(** A write that accepted fewer bytes than it was given. *)
Definition is_short_write (e : event) : bool :=
  match e with
  | Ev_write _ count written => written <? count
  | _ => false
  end.

Definition is_failure (e : event) : bool :=
  is_read_error e || is_end_of_input e || is_short_write e.

(** ** How a call may change the world *)

(** What no call changes, and how the plans are used up. *)
Record frame (w w' : world) : Prop := {
  frame_data : src_data w' = src_data w;
  frame_stat : src_stat w' = src_stat w;
  frame_seekable : src_seekable w' = src_seekable w;
  frame_presume : presume_input_pipe w' = presume_input_pipe w;
  frame_junk : junk w' = junk w;
  frame_reads : exists k, read_plan w' = drop k (read_plan w);
  frame_writes : exists k, write_plan w' = drop k (write_plan w);
  frame_seeks : exists k, seek_plan w' = drop k (seek_plan w)
}.

(** A descriptor and an output on which nothing fails or comes short. *)
Definition calm (w : world) : Prop :=
  read_plan w = [] /\ write_plan w = [] /\ seek_plan w = [].

(** A descriptor whose reads may come short but do not fail, and an output
    that takes every write. *)
Definition quiet (w : world) : Prop :=
  Forall (fun s => s <> Rd_fail) (read_plan w) /\ write_plan w = [].

(** The bytes of the input from the read offset on. *)
Definition pending (w : world) : list byte :=
  drop (Z.to_nat (src_pos w)) (src_data w).





(** A buffer that lines 535 and 564 can write. *)
Definition lbuffer_fits (P : platform) (x : LBUFFER) : Prop :=
  zlen (buffer x) = BUFSIZ P /\ 0 <= nbytes x /\ nbytes x <= BUFSIZ P /\
  0 <= nlines x.

Fixpoint total_nlines (q : list LBUFFER) : Z :=
  match q with
  | [] => 0
  | x :: q' => nlines x + total_nlines q'
  end.


(** A regular file on which every call succeeds. *)
Definition regular_file (w : world) : Prop :=
  calm w /\ src_stat w = Some true /\ src_seekable w = true
  /\ presume_input_pipe w = false.


(** ** Writes whose result the code looks at *)

(** The [fwrite] calls whose return value is compared with the count:
    line 199 in copy_fd, lines 302 and 352 in elide_tail_bytes_pipe. *)
Definition is_checked_line (line : Z) : bool :=
  (line =? 199) || (line =? 302) || (line =? 352).

(** One of these writes took fewer bytes than it was given. *)
Definition checked_short (e : event) : bool :=
  match e with
  | Ev_write line count written => is_checked_line line && (written <? count)
  | _ => false
  end.

(** "write error" and "error writing %s". *)
Definition is_write_message (m : message) : bool :=
  match m with
  | write_error | error_writing => true
  | _ => false
  end.

(** "write error" or "error writing %s", printed without exiting. *)
Definition write_diagnostic (e : event) : bool :=
  match e with
  | Ev_error status write_error | Ev_error status error_writing => status =? 0
  | _ => false
  end.

Definition is_diagnostic (e : event) : bool :=
  match e with
  | Ev_error _ _ => true
  | _ => false
  end.

(** A checked write that came short, or a diagnostic. *)
Definition eventful (e : event) : bool :=
  match e with
  | Ev_write line count written => is_checked_line line && (written <? count)
  | Ev_error _ _ => true
  | _ => false
  end.

(** [w'] comes after [w] with no checked write come short and no
    diagnostic in between. *)
Record carries_on (w w' : world) : Prop := {
  co_data : src_data w' = src_data w;
  co_pos : 0 <= src_pos w -> 0 <= src_pos w';
  co_trace : exists new, trace w' = new ++ trace w
                         /\ Forall (fun e => eventful e = false) new;
  co_out : exists printed, out w' = out w ++ printed
}.

(** [w'] comes after [w], and the last thing done was a checked write
    that came short, the first one, with no diagnostic before it. *)
Definition short_written (w w' : world) : Prop :=
  exists e rest printed,
    trace w' = e :: rest ++ trace w /\ checked_short e = true /\
    Forall (fun e => eventful e = false) rest /\
    out w' = out w ++ printed.

(** [w'] comes after [w], and the last thing done was to print a
    diagnostic, the first one, with [status]: either one that is not of a
    write, no checked write having come short, or that of a write, with
    status 0, right after the first checked write that came short. *)
Definition reported (status : Z) (w w' : world) : Prop :=
  exists m new printed,
    trace w' = Ev_error status m :: new ++ trace w /\
    out w' = out w ++ printed /\
    (is_write_message m = false /\ Forall (fun e => eventful e = false) new
     \/ is_write_message m = true /\ status = 0 /\
        exists e rest, new = e :: rest /\ checked_short e = true /\
                       Forall (fun e => eventful e = false) rest).

(** [w'] comes after [w], where the call stopped: at a fault, or at the
    diagnostic it exits with. *)
Definition stopped (w w' : world) : Prop :=
  carries_on w w' \/ reported EXIT_FAILURE w w'.

(** The call [m] started in [w] ends: it returns a value and a world that
    satisfy [Q], or it exits or faults in a world that satisfies [E]. *)
Definition ends {A} (m : M A) (w : world) (Q : A -> world -> Prop)
    (E : world -> Prop) : Prop :=
  match m w with
  | Ret a w' => Q a w'
  | Exit _ w' | Fault w' => E w'
  | Timeout => False
  end.

(** The call that gave [o] from [w] ended, and what [w] had printed is
    still there.  If a checked write came short, the call returned 1, and
    the last two things it did were that write and the diagnostic of a
    write; that diagnostic is printed in no other case.  A call that
    returns has returned 0 without any diagnostic, or 1 right after its
    only one. *)
Definition reports_checked_writes (o : outcome Z) (w : world) : Prop :=
  exists w' new printed,
    final_world o = Some w' /\ trace w' = new ++ trace w /\
    out w' = out w ++ printed /\
    (Exists (fun e => checked_short e = true) new ->
     o = Ret 1 w'
     /\ exists e c rest, new = e :: c :: rest /\ write_diagnostic e = true
                         /\ checked_short c = true) /\
    (Exists (fun e => write_diagnostic e = true) new ->
     Exists (fun e => checked_short e = true) new) /\
    (forall r, o = Ret r w' ->
       r = 0 /\ Forall (fun e => is_diagnostic e = false) new
       \/ r = 1 /\ exists m rest,
                     new = Ev_error 0 m :: rest /\
                     Forall (fun e => is_diagnostic e = false) rest).

(** ** The first N bytes or lines: head_bytes and head_lines *)

(** [head_lines] has one diagnostic that the functions above do not
    print. *)
Inductive head_message :=
| cannot_reposition_file_pointer.
        (* "cannot reposition file pointer for %s" *)

(** The descriptor, standard output and the trace, with the diagnostics
    of [head_lines], newest first. *)
Record process := Process {
  io : world;
  head_diagnostics : list head_message
}.

Inductive ended (A : Type) :=
| Returned (a : A) (p : process)
| Exited (status : Z) (p : process)
| Faulted (p : process)
| Timed_out.

Arguments Returned {A} a p.
Arguments Exited {A} status p.
Arguments Faulted {A} p.
Arguments Timed_out {A}.

Definition MH (A : Type) : Type := process -> ended A.

Definition ret_h {A} (a : A) : MH A := fun p => Returned a p.

Definition bind_h {A B} (m : MH A) (k : A -> MH B) : MH B := fun p =>
  match m p with
  | Returned a p' => k a p'
  | Exited s p' => Exited s p'
  | Faulted p' => Faulted p'
  | Timed_out => Timed_out
  end.

(** A call of the functions above, which leaves [head_diagnostics]
    alone. *)
Definition lift {A} (m : M A) : MH A := fun p =>
  match m (io p) with
  | Ret a w => Returned a (Process w (head_diagnostics p))
  | Exit s w => Exited s (Process w (head_diagnostics p))
  | Fault w => Faulted (Process w (head_diagnostics p))
  | Timeout => Timed_out
  end.

(** [error (0, e, ...)] with a diagnostic of [head_lines]. *)
Definition error_h (m : head_message) : MH unit := fun p =>
  Returned tt (Process (io p) (m :: head_diagnostics p)).

(** [fstat (fd, &st) != 0 || S_ISREG (st.st_mode)]. *)
Definition fstat_fails_or_regular : MH bool := fun p =>
  Returned match src_stat (io p) with
           | Some is_reg => is_reg
           | None => true
           end p.

Notation "x <~ m ;; k" := (bind_h m (fun x => k))
  (at level 62, m at next level, right associativity).
Notation "m ~;; k" := (bind_h m (fun _ => k))
  (at level 62, right associativity).

Section HeadUnits.

Variable P : platform.

(** Conversion to [off_t]. *)
Definition to_off_t (z : Z) : Z :=
  (z + (OFF_T_MAX P + 1)) mod (2 * (OFF_T_MAX P + 1)) - (OFF_T_MAX P + 1).

(** *** head_bytes (lines 751-778) *)

(** The [while (bytes_to_write)] loop. *)
Fixpoint head_bytes_loop (fuel : nat) (buffer : list byte)
    (bytes_to_read bytes_to_write : Z) : M Z :=
  if bytes_to_write =? 0 then ret 0
  else
    match fuel with
    | O => timeout
    | S fuel =>
        let bytes_to_read :=
          if bytes_to_write <? bytes_to_read
          then to_size_t P bytes_to_write else bytes_to_read in
        r <- safe_read bytes_to_read ;;
        match r with
        | None => error 0 error_reading ;;; ret 1
        | Some data =>
            let buffer := store buffer 0 data in
            let bytes_read := zlen data in
            if bytes_read =? 0 then ret 0
            else
              n_written <- fwrite 773 buffer 0 bytes_read ;;
              (if n_written <? bytes_read
               then error EXIT_FAILURE write_error else ret tt) ;;;
              head_bytes_loop fuel buffer bytes_to_read
                (to_uintmax_t P (bytes_to_write - bytes_read))
        end
    end.

Definition head_bytes (bytes_to_write : Z) : M Z :=
  buffer <- local_array (BUFSIZ P) ;;
  fun w =>
  head_bytes_loop (S (Z.to_nat (avail w))) buffer (BUFSIZ P) bytes_to_write w.

(** *** head_lines (lines 780-822) *)

(** The [while (bytes_to_write < bytes_read)] loop of lines 802-817:
    [bytes_to_write] and [lines_to_write] when it is left, and whether it
    is left through the [break] of line 816. *)
Fixpoint head_lines_scan (fuel : nat) (buffer : list byte)
    (bytes_read bytes_to_write lines_to_write : Z) : M (Z * Z * bool) :=
  if bytes_to_write <? bytes_read then
    match fuel with
    | O => timeout
    | S fuel =>
        match buffer !! Z.to_nat bytes_to_write with
        | None => fault
        | Some c =>
            let bytes_to_write := bytes_to_write + 1 in
            if is_LF c then
              let lines_to_write := to_uintmax_t P (lines_to_write - 1) in
              if lines_to_write =? 0
              then ret (bytes_to_write, lines_to_write, true)
              else head_lines_scan fuel buffer bytes_read bytes_to_write
                     lines_to_write
            else head_lines_scan fuel buffer bytes_read bytes_to_write
                   lines_to_write
        end
    end
  else ret (bytes_to_write, lines_to_write, false).

(** The [while (lines_to_write)] loop. *)
Fixpoint head_lines_loop (fuel : nat) (buffer : list byte)
    (lines_to_write : Z) : MH Z :=
  if lines_to_write =? 0 then ret_h 0
  else
    match fuel with
    | O => fun _ => Timed_out
    | S fuel =>
        r <~ lift (safe_read (BUFSIZ P)) ;;
        match r with
        | None => lift (error 0 error_reading) ~;; ret_h 1
        | Some data =>
            let buffer := store buffer 0 data in
            let bytes_read := zlen data in
            if bytes_read =? 0 then ret_h 0
            else
              s <~ lift (head_lines_scan (Z.to_nat bytes_read) buffer
                           bytes_read 0 lines_to_write) ;;
              let '(bytes_to_write, lines_to_write, found) := s in
              (if found then
                 let n_bytes_past_EOL :=
                   to_off_t (to_size_t P (bytes_read - bytes_to_write)) in
                 pos <~ lift (lseek (- n_bytes_past_EOL) SEEK_CUR) ;;
                 if pos <? 0 then
                   complain <~ fstat_fails_or_regular ;;
                   if complain then error_h cannot_reposition_file_pointer
                   else ret_h tt
                 else ret_h tt
               else ret_h tt) ~;;
              n_written <~ lift (fwrite 818 buffer 0 bytes_to_write) ;;
              (if n_written <? bytes_to_write
               then lift (error EXIT_FAILURE write_error) else ret_h tt) ~;;
              head_lines_loop fuel buffer lines_to_write
        end
    end.

Definition head_lines (lines_to_write : Z) : MH Z :=
  buffer <~ lift (local_array (BUFSIZ P)) ;;
  fun p =>
  head_lines_loop (S (Z.to_nat (avail (io p)))) buffer lines_to_write p.

End HeadUnits.

(** A process that has printed no diagnostic of [head_lines] yet. *)
Definition process_of (w : world) : process := Process w [].

(** What a call of [head_lines] returned and printed, for the examples. *)
Definition result_h {A} (o : ended A) : option (A * list byte) :=
  match o with
  | Returned a p => Some (a, out (io p))
  | _ => None
  end.

(** The process a call of [head_lines] ended in. *)
Definition final_process {A} (o : ended A) : option process :=
  match o with
  | Returned _ p | Exited _ p | Faulted p => Some p
  | Timed_out => None
  end.

(** ** Reads that fail *)

(** [w'] comes after [w] with no failed read in between. *)
Record reads_well (w w' : world) : Prop := {
  rw_data : src_data w' = src_data w;
  rw_pos : 0 <= src_pos w -> 0 <= src_pos w';
  rw_trace : exists new, trace w' = new ++ trace w
                         /\ Forall (fun e => is_read_error e = false) new
}.

(** [w'] comes after [w], and the last thing done was a read that failed,
    the first one to fail. *)
Definition read_failed (w w' : world) : Prop :=
  exists c rest,
    trace w' = Ev_read c None :: rest ++ trace w /\
    Forall (fun e => is_read_error e = false) rest.

(** The same, followed by the diagnostic "error reading %s". *)
Definition read_reported (w w' : world) : Prop :=
  exists c rest,
    trace w' = Ev_error 0 error_reading :: Ev_read c None :: rest ++ trace w /\
    Forall (fun e => is_read_error e = false) rest.

(** The call that gave [o] from [w] ended, and if a read failed, it was
    its last read, "error reading" was printed right after it and the call
    returned 1. *)
Definition reports_read_failures (o : outcome Z) (w : world) : Prop :=
  exists w' new,
    final_world o = Some w' /\ trace w' = new ++ trace w /\
    (Exists (fun e => is_read_error e = true) new ->
     o = Ret 1 w'
     /\ exists c rest,
          new = Ev_error 0 error_reading :: Ev_read c None :: rest /\
          Forall (fun e => is_read_error e = false) rest).

(** ** The ring of elide_tail_bytes_pipe, once it is full *)



(** * Properties *)

(** ** The platforms above are well formed *)

Lemma wf_lp64 : wf_platform lp64.
Proof. split; vm_compute; congruence. Qed.



(** ** The scenarios of the specification *)

Example scenario_lines :
  result (elide_tail_lines_file lp64 2
            (file_of (ln "a" ++ ln "b" ++ ln "c" ++ ln "d")))
  = Some (0, ln "a" ++ ln "b")
  /\ result (elide_tail_lines_file lp64 2
               (pipe_of (ln "a" ++ ln "b" ++ ln "c" ++ ln "d")))
     = Some (0, ln "a" ++ ln "b").
Proof. split; vm_compute; reflexivity. Qed.

Example scenario_bytes :
  result (elide_tail_bytes_file lp64 3 (file_of (bytes "abcdefghij")))
  = Some (0, bytes "abcdefg")
  /\ result (elide_tail_bytes_file lp64 3 (pipe_of (bytes "abcdefghij")))
     = Some (0, bytes "abcdefg").
Proof. split; vm_compute; reflexivity. Qed.

Example scenario_unterminated :
  result (elide_tail_lines_file lp64 1 (file_of (bytes "abc"))) = Some (0, [])
  /\ result (elide_tail_lines_file lp64 1 (pipe_of (bytes "abc")))
     = Some (0, []).
Proof. split; vm_compute; reflexivity. Qed.

(** ** Offsets and slices *)

Lemma zlen_nonneg {A} (l : list A) : 0 <= zlen l.
Proof. unfold zlen. lia. Qed.

Lemma zlen_nil {A} : zlen (@nil A) = 0.
Proof. reflexivity. Qed.

Lemma zlen_app {A} (l k : list A) : zlen (l ++ k) = zlen l + zlen k.
Proof. unfold zlen. rewrite length_app. lia. Qed.

Lemma zlen_cons {A} (x : A) (l : list A) : zlen (x :: l) = 1 + zlen l.
Proof. unfold zlen. simpl. lia. Qed.

Lemma zlen_slice {A} (l : list A) (off n : Z) :
  0 <= off -> zlen (slice l off n) = Z.max 0 (Z.min n (zlen l - off)).
Proof.
  intros Hoff. unfold slice, zlen.
  rewrite length_take, length_drop. lia.
Qed.

Lemma zlen_slice_inside {A} (l : list A) (off n : Z) :
  0 <= off -> 0 <= n -> off + n <= zlen l -> zlen (slice l off n) = n.
Proof. intros. rewrite zlen_slice by assumption. lia. Qed.

Lemma slice_nil {A} (l : list A) (off n : Z) : n <= 0 -> slice l off n = [].
Proof.
  intros Hn. unfold slice.
  replace (Z.to_nat n) with 0%nat by lia. reflexivity.
Qed.

Lemma slice_all {A} (l : list A) (n : Z) : zlen l <= n -> slice l 0 n = l.
Proof.
  intros Hn. unfold slice, zlen in *. simpl.
  apply take_ge. lia.
Qed.

Lemma slice_split {A} (l : list A) (off n m : Z) :
  0 <= off -> 0 <= n -> 0 <= m ->
  slice l off (n + m) = slice l off n ++ slice l (off + n) m.
Proof.
  intros Hoff Hn Hm. unfold slice.
  replace (Z.to_nat (n + m)) with (Z.to_nat n + Z.to_nat m)%nat by lia.
  replace (Z.to_nat (off + n)) with (Z.to_nat off + Z.to_nat n)%nat by lia.
  rewrite <- drop_drop. generalize (drop (Z.to_nat off) l). intros k.
  generalize (Z.to_nat n) (Z.to_nat m). clear. intros n m.
  revert k. induction n as [|n IH]; intros [|x k]; simpl;
    rewrite ?take_nil; try reflexivity.
  f_equal. apply IH.
Qed.

Lemma slice_app_l {A} (l k : list A) (off n : Z) :
  0 <= off -> 0 <= n -> off + n <= zlen l ->
  slice (l ++ k) off n = slice l off n.
Proof.
  intros Hoff Hn Hin. unfold slice, zlen in *.
  rewrite drop_app_le by lia. apply take_app_le.
  rewrite length_drop. lia.
Qed.



Lemma zlen_store {A} (buf data : list A) (off : Z) :
  0 <= off -> off + zlen data <= zlen buf ->
  zlen (store buf off data) = zlen buf.
Proof.
  intros Hoff Hin. unfold store, zlen in *.
  rewrite !length_app, length_take, length_drop. lia.
Qed.

Lemma zlen_store_ge {A} (buf data : list A) :
  zlen data <= zlen (store buf 0 data).
Proof.
  unfold store, zlen. rewrite !length_app. lia.
Qed.

Lemma slice_store_same {A} (buf data : list A) (off n : Z) :
  0 <= off -> off <= zlen buf -> n = zlen data ->
  slice (store buf off data) off n = data.
Proof.
  intros Hoff Hin ->. unfold slice, store, zlen in *.
  rewrite drop_app_length' by (rewrite length_take; lia).
  rewrite take_app_length' by lia. reflexivity.
Qed.

Lemma slice_store_prefix {A} (buf data : list A) (off n : Z) :
  0 <= off -> off <= zlen buf -> 0 <= n -> n <= zlen data ->
  slice (store buf 0 data) off 0 = [] /\
  slice (store buf 0 data) 0 n = slice data 0 n.
Proof.
  intros Hoff Hin Hn Hle. split.
  - apply slice_nil. lia.
  - unfold store. simpl. apply slice_app_l; lia.
Qed.



(** ** Frames *)

Lemma tail_drop {A} (l : list A) : tail l = drop 1 l.
Proof. destruct l; reflexivity. Qed.

Lemma frame_refl w : frame w w.
Proof. split; try reflexivity; exists 0%nat; reflexivity. Qed.

Lemma frame_trans w1 w2 w3 : frame w1 w2 -> frame w2 w3 -> frame w1 w3.
Proof.
  intros [] []. split; try congruence.
  - destruct frame_reads0 as [k Hk], frame_reads1 as [k' Hk'].
    exists (k + k')%nat. rewrite Hk', Hk, drop_drop. reflexivity.
  - destruct frame_writes0 as [k Hk], frame_writes1 as [k' Hk'].
    exists (k + k')%nat. rewrite Hk', Hk, drop_drop. reflexivity.
  - destruct frame_seeks0 as [k Hk], frame_seeks1 as [k' Hk'].
    exists (k + k')%nat. rewrite Hk', Hk, drop_drop. reflexivity.
Qed.

Lemma frame_log e w : frame w (log e w).
Proof. split; try reflexivity; exists 0%nat; reflexivity. Qed.

Lemma frame_after_read n w : frame w (after_read n w).
Proof.
  split; try reflexivity; try (exists 0%nat; reflexivity).
  exists 1%nat. apply tail_drop.
Qed.

Lemma frame_after_write d w : frame w (after_write d w).
Proof.
  split; try reflexivity; try (exists 0%nat; reflexivity).
  exists 1%nat. apply tail_drop.
Qed.

Lemma frame_after_lseek p w : frame w (after_lseek p w).
Proof.
  split; try reflexivity; try (exists 0%nat; reflexivity).
  exists 1%nat. apply tail_drop.
Qed.

Lemma frame_after_calloc w : frame w (after_calloc w).
Proof. split; try reflexivity; exists 0%nat; reflexivity. Qed.

(** Splits conjunctions only (a [frame] is left whole). *)
Ltac conj := repeat match goal with |- _ /\ _ => split end.

(** Arithmetic with the lengths of explicit lists. *)
Ltac zlia := unfold zlen in *; cbn [length] in *; lia.

Create HintDb frames.
#[local] Hint Resolve frame_refl frame_log frame_after_read frame_after_write
  frame_after_lseek frame_after_calloc : frames.
#[local] Hint Extern 3 (frame _ _) => eapply frame_trans; [eassumption|] : frames.
#[local] Hint Extern 4 (frame _ (log _ _)) =>
  eapply frame_trans; [|apply frame_log] : frames.

Lemma frame_calm w w' : frame w w' -> calm w -> calm w'.
Proof.
  intros [] (Hr & Hw & Hs). unfold calm.
  destruct frame_reads0 as [k ->], frame_writes0 as [k' ->],
    frame_seeks0 as [k'' ->].
  rewrite Hr, Hw, Hs, !drop_nil. auto.
Qed.

Lemma frame_quiet w w' : frame w w' -> quiet w -> quiet w'.
Proof.
  intros [] (Hr & Hw). unfold quiet.
  destruct frame_reads0 as [k ->], frame_writes0 as [k' ->].
  rewrite Hw, drop_nil. split; [|reflexivity].
  apply Forall_drop. assumption.
Qed.

Lemma calm_quiet w : calm w -> quiet w.
Proof. intros (Hr & Hw & _). split; [rewrite Hr; constructor|assumption]. Qed.

(** ** The system calls *)

Lemma bind_ret {A B} (m : M A) (k : A -> M B) w a w1 :
  m w = Ret a w1 -> bind m k w = k a w1.
Proof. unfold bind. intros ->. reflexivity. Qed.

Lemma ret_bind {A B} (a : A) (k : A -> M B) w : bind (ret a) k w = k a w.
Proof. reflexivity. Qed.



Lemma xcalloc_eq (P : platform) (n : Z) (w : world) :
  n * SIZEOF_POINTER P <= SIZE_MAX P -> calloc_fails w = false ->
  xcalloc P n w
  = Ret (repeat None (Z.to_nat n)) (log (Ev_xcalloc n) (after_calloc w)).
Proof.
  intros Hfit Hcalloc. unfold xcalloc.
  replace (SIZE_MAX P <? n * SIZEOF_POINTER P) with false
    by (symmetry; apply Z.ltb_ge; assumption).
  rewrite Hcalloc. reflexivity.
Qed.




Lemma bind_exit {A B} (m : M A) (k : A -> M B) w s w1 :
  m w = Exit s w1 -> bind m k w = Exit s w1.
Proof. unfold bind. intros ->. reflexivity. Qed.

Section Calls.

Variable P : platform.

Lemma avail_nonneg w : 0 <= avail w.
Proof. unfold avail. lia. Qed.

(** What a read returns and what it leaves. *)
Lemma safe_read_spec (count : Z) (w : world) :
  exists r w',
    safe_read count w = Ret r w' /\ frame w w' /\ out w' = out w /\
    write_plan w' = write_plan w /\ seek_plan w' = seek_plan w /\
    read_plan w' = tail (read_plan w) /\
    match r with
    | None =>
        head (read_plan w) = Some Rd_fail /\ src_pos w' = src_pos w /\
        trace w' = Ev_read count None :: trace w
    | Some data =>
        exists n,
          data = slice (src_data w) (src_pos w) n /\
          0 <= n /\ n <= Z.max 0 (Z.min count (avail w)) /\
          (1 <= count -> 1 <= avail w -> 1 <= n) /\
          (read_plan w = [] -> n = Z.max 0 (Z.min count (avail w))) /\
          src_pos w' = src_pos w + n /\
          trace w' = Ev_read count (Some n) :: trace w /\
          (0 <= src_pos w -> zlen data = n)
    end.
Proof.
  unfold safe_read.
  destruct (read_plan w) as [|[|k] plan] eqn:Hplan.
  - eexists (Some _), _. split; [reflexivity|].
    split; [eauto with frames|]. simpl. rewrite Hplan.
    repeat (split; [reflexivity|]).
    eexists. split; [reflexivity|].
    repeat split; try lia.
    intros Hpos. rewrite zlen_slice by assumption. unfold avail. lia.
  - eexists None, _. split; [reflexivity|].
    split; [eauto with frames|]. simpl. rewrite Hplan.
    repeat split; try reflexivity. f_equal. lia.
  - eexists (Some _), _. split; [reflexivity|].
    split; [eauto with frames|]. simpl. rewrite Hplan.
    repeat (split; [reflexivity|]).
    eexists. split; [reflexivity|].
    repeat split; try lia; try discriminate.
    intros Hpos. rewrite zlen_slice by assumption. unfold avail. lia.
Qed.

(** A write that stays inside its buffer. *)
Lemma fwrite_spec (line : Z) (buf : list byte) (off n : Z) (w : world) :
  0 <= off -> 0 <= n -> off + n <= zlen buf ->
  exists a w',
    fwrite line buf off n w = Ret a w' /\ frame w w' /\
    src_pos w' = src_pos w /\ read_plan w' = read_plan w /\
    seek_plan w' = seek_plan w /\ write_plan w' = tail (write_plan w) /\
    0 <= a /\ a <= n /\
    (write_plan w = [] -> a = n) /\
    out w' = out w ++ slice buf off a /\
    trace w' = Ev_write line n a :: trace w.
Proof.
  intros Hoff Hn Hin. unfold fwrite.
  replace ((0 <=? off) && (0 <=? n) && (off + n <=? zlen buf)) with true
    by (symmetry; rewrite !andb_true_iff; lia).
  eexists _, _. split; [reflexivity|].
  split; [eauto with frames|]. simpl.
  repeat (split; [reflexivity|]).
  destruct (write_plan w) as [|[k] plan]; repeat split; try lia; discriminate.
Qed.


(** An [lseek] on a calm, seekable descriptor. *)
Lemma lseek_calm (offset whence : Z) (w : world) :
  seek_plan w = [] -> src_seekable w = true ->
  forall target,
    (whence = SEEK_SET /\ target = offset
     \/ whence = SEEK_CUR /\ target = src_pos w + offset
     \/ whence = SEEK_END /\ target = zlen (src_data w) + offset) ->
    0 <= target ->
    lseek offset whence w
    = Ret target (log (Ev_lseek offset whence target) (after_lseek target w)).
Proof.
  intros Hplan Hseek target Hwhence Htarget. unfold lseek.
  rewrite Hplan, Hseek. simpl.
  destruct Hwhence as [[-> ->]|[[-> ->]|[-> ->]]]; simpl;
    match goal with
    | |- context [0 <=? ?t] =>
        replace (0 <=? t) with true by (symmetry; apply Z.leb_le; lia)
    end;
    match goal with
    | |- context [?t =? -1] =>
        replace (t =? -1) with false by (symmetry; apply Z.eqb_neq; lia)
    end; reflexivity.
Qed.

End Calls.

(** ** copy_fd *)

Section CopyFd.

Variable P : platform.
Hypothesis WF : wf_platform P.

(** What [copy_fd] returns, what it has done by then, and why. *)
Lemma copy_fd_loop_spec (fuel : nat) (buf : list byte) (n : Z) (w : world) :
  0 <= n -> n <= Z.of_nat fuel -> 0 <= src_pos w ->
  exists st w' new more,
    copy_fd_loop P fuel buf n w = Ret st w' /\ frame w w' /\
    trace w' = new ++ trace w /\ out w' = out w ++ more /\
    seek_plan w' = seek_plan w /\
    src_pos w <= src_pos w' /\ src_pos w' <= src_pos w + n /\
    zlen more <= src_pos w' - src_pos w /\
    match st with
    | COPY_FD_OK =>
        src_pos w' = src_pos w + n /\
        more = slice (src_data w) (src_pos w) n /\ zlen more = n /\
        Forall (fun e => is_failure e = false) new
    | COPY_FD_READ_ERROR =>
        src_pos w' < src_pos w + n /\ In Rd_fail (read_plan w) /\
        exists e rest, new = e :: rest /\ is_read_error e = true /\
                       Forall (fun e => is_failure e = false) rest
    | COPY_FD_UNEXPECTED_EOF =>
        src_pos w' < src_pos w + n /\ avail w < n /\
        exists e rest, new = e :: rest /\ is_end_of_input e = true /\
                       Forall (fun e => is_failure e = false) rest
    | COPY_FD_WRITE_ERROR =>
        zlen more < src_pos w' - src_pos w /\ write_plan w <> [] /\
        exists e rest, new = e :: rest /\ is_short_write e = true /\
                       Forall (fun e => is_failure e = false) rest
    end.
Proof.
  pose proof (wf_BUFSIZ P WF) as HBUF.
  revert buf n w. induction fuel as [|fuel IH]; intros buf n w Hn Hfuel Hpos.
  - assert (n = 0) as -> by lia. simpl.
    exists COPY_FD_OK, w, [], []. rewrite app_nil_r.
    conj; auto with frames; zlia.
  - simpl. destruct (0 <? n) eqn:Hpos_n.
    2:{ assert (n = 0) as -> by lia.
        exists COPY_FD_OK, w, [], []. rewrite app_nil_r.
        conj; auto with frames; zlia. }
    apply Z.ltb_lt in Hpos_n.
    destruct (safe_read_spec (Z.min (BUFSIZ P) n) w)
      as (r & w1 & Hread & Hf1 & Hout1 & Hwp1 & Hsp1 & Hrp1 & Hr).
    rewrite (bind_ret _ _ _ _ _ Hread).
    destruct r as [data|].
    2:{ destruct Hr as (Hhd & Hpos1 & Htr1).
        exists COPY_FD_READ_ERROR, w1, [Ev_read (Z.min (BUFSIZ P) n) None], [].
        rewrite app_nil_r. conj; auto; try zlia.
        - destruct (read_plan w); [discriminate|].
          injection Hhd as ->. left. reflexivity.
        - eexists _, _. conj; [reflexivity|reflexivity|constructor]. }
    destruct Hr as (k & Hdata & Hk0 & Hkmax & Hk1 & _ & Hpos1 & Htr1 & Hlen).
    specialize (Hlen Hpos). rewrite Hlen.
    destruct (k =? 0) eqn:Hk.
    + apply Z.eqb_eq in Hk.
      replace (n - k =? 0) with false by (symmetry; apply Z.eqb_neq; lia).
      simpl.
      exists COPY_FD_UNEXPECTED_EOF, w1,
        [Ev_read (Z.min (BUFSIZ P) n) (Some k)], [].
      rewrite app_nil_r. conj; auto; try zlia.
      eexists _, _. conj; [reflexivity| |constructor].
      simpl. apply andb_true_iff.
      split; [apply Z.ltb_lt; lia|apply Z.eqb_eq; assumption].
    + apply Z.eqb_neq in Hk. simpl.
      pose proof (zlen_store_ge buf data) as Hstore.
      destruct (fwrite_spec 199 (store buf 0 data) 0 k w1)
        as (a & w2 & Hwrite & Hf2 & Hpos2 & Hrp2 & Hsp2 & Hwp2 & Ha0 & Hak
            & _ & Hout2 & Htr2); try zlia.
      rewrite (bind_ret _ _ _ _ _ Hwrite).
      assert (Hslice : slice (store buf 0 data) 0 a = slice data 0 a).
      { apply (slice_store_prefix buf data 0 a); zlia. }
      destruct (a <? k) eqn:Hshort.
      * apply Z.ltb_lt in Hshort.
        exists COPY_FD_WRITE_ERROR, w2,
          [Ev_write 199 k a; Ev_read (Z.min (BUFSIZ P) n) (Some k)],
          (slice data 0 a).
        conj; eauto with frames; try zlia; try congruence.
        -- rewrite Htr2, Htr1. reflexivity.
        -- rewrite zlen_slice by lia. lia.
        -- rewrite zlen_slice by lia. lia.
        -- intros Hnil. rewrite Hwp1 in Hwp2.
           unfold fwrite in Hwrite.
           replace ((0 <=? 0) && (0 <=? k) && (0 + k <=? zlen (store buf 0 data)))
             with true in Hwrite by (symmetry; rewrite !andb_true_iff; lia).
           rewrite Hwp1, Hnil in Hwrite. injection Hwrite as Ha _. lia.
        -- eexists _, _. conj; [reflexivity| |].
           ++ simpl. apply Z.ltb_lt. assumption.
           ++ constructor; [|constructor].
              unfold is_failure. simpl.
              replace (k =? 0) with false by (symmetry; apply Z.eqb_neq; lia).
              rewrite andb_false_r. reflexivity.
      * apply Z.ltb_ge in Hshort. assert (a = k) as -> by lia.
        destruct (IH (store buf 0 data) (n - k) w2)
          as (st & w' & new & more & Hloop & Hf & Htr & Hout & Hsp & Hle1 & Hle2
              & Hmore & Hst); try zlia.
        rewrite Hloop.
        assert (Hdata' : slice data 0 k = slice (src_data w) (src_pos w) k).
        { rewrite Hdata. apply slice_all. rewrite <- Hdata. lia. }
        assert (Hcl : Forall (fun e => is_failure e = false)
                        [Ev_write 199 k k;
                         Ev_read (Z.min (BUFSIZ P) n) (Some k)]).
        { constructor; [|constructor; [|constructor]].
          - unfold is_failure. simpl. rewrite Z.ltb_irrefl. reflexivity.
          - unfold is_failure. simpl.
            replace (k =? 0) with false by (symmetry; apply Z.eqb_neq; lia).
            rewrite andb_false_r. reflexivity. }
        exists st, w',
          (new ++ [Ev_write 199 k k; Ev_read (Z.min (BUFSIZ P) n) (Some k)]),
          (slice data 0 k ++ more).
        assert (Hlenk : zlen (slice data 0 k) = k)
          by (rewrite zlen_slice by lia; lia).
        split; [reflexivity|]. split; [eauto with frames|].
        split; [rewrite Htr, Htr2, Htr1, <- app_assoc; reflexivity|].
        split; [rewrite Hout, Hout2, Hslice, Hout1, <- app_assoc; reflexivity|].
        split; [congruence|].
        split; [lia|]. split; [lia|].
        split; [rewrite zlen_app; lia|].
        destruct st.
        -- destruct Hst as (Hp & Hm & Hl & Hc).
           split; [lia|]. split.
           { rewrite Hm, Hdata'.
             replace (slice (src_data w) (src_pos w) n)
               with (slice (src_data w) (src_pos w) (k + (n - k)))
               by (f_equal; lia).
             rewrite slice_split by lia.
             destruct Hf1 as [Hd1], Hf2 as [Hd2].
             rewrite Hd2, Hd1, Hpos2, Hpos1. reflexivity. }
           split; [rewrite zlen_app; lia|].
           apply Forall_app. split; assumption.
        -- destruct Hst as (Hp & Hin & e & rest & -> & He & Hc).
           split; [lia|]. split.
           { rewrite Hrp2, Hrp1 in Hin.
             destruct (read_plan w); [destruct Hin|right; exact Hin]. }
           exists e, (rest ++ [Ev_write 199 k k;
                               Ev_read (Z.min (BUFSIZ P) n) (Some k)]).
           conj; auto. apply Forall_app. split; assumption.
        -- destruct Hst as (Hp & Hwp & e & rest & -> & He & Hc).
           split; [rewrite zlen_app; lia|]. split.
           { rewrite Hwp2, Hwp1 in Hwp. intros Hnil. rewrite Hnil in Hwp.
             apply Hwp. reflexivity. }
           exists e, (rest ++ [Ev_write 199 k k;
                               Ev_read (Z.min (BUFSIZ P) n) (Some k)]).
           conj; auto. apply Forall_app. split; assumption.
        -- destruct Hst as (Hp & Hav & e & rest & -> & He & Hc).
           split; [lia|]. split.
           { unfold avail in *. destruct Hf1 as [Hd1], Hf2 as [Hd2].
             rewrite Hd2, Hd1, Hpos2, Hpos1 in Hav. lia. }
           exists e, (rest ++ [Ev_write 199 k k;
                               Ev_read (Z.min (BUFSIZ P) n) (Some k)]).
           conj; auto. apply Forall_app. split; assumption.
Qed.

Lemma copy_fd_spec (n : Z) (w : world) :
  0 <= n -> 0 <= src_pos w ->
  exists st w' new more,
    copy_fd P n w = Ret st w' /\ frame w w' /\
    trace w' = new ++ trace w /\ out w' = out w ++ more /\
    seek_plan w' = seek_plan w /\
    src_pos w <= src_pos w' /\ src_pos w' <= src_pos w + n /\
    zlen more <= src_pos w' - src_pos w /\
    match st with
    | COPY_FD_OK =>
        src_pos w' = src_pos w + n /\
        more = slice (src_data w) (src_pos w) n /\ zlen more = n /\
        Forall (fun e => is_failure e = false) new
    | COPY_FD_READ_ERROR =>
        src_pos w' < src_pos w + n /\ In Rd_fail (read_plan w) /\
        exists e rest, new = e :: rest /\ is_read_error e = true /\
                       Forall (fun e => is_failure e = false) rest
    | COPY_FD_UNEXPECTED_EOF =>
        src_pos w' < src_pos w + n /\ avail w < n /\
        exists e rest, new = e :: rest /\ is_end_of_input e = true /\
                       Forall (fun e => is_failure e = false) rest
    | COPY_FD_WRITE_ERROR =>
        zlen more < src_pos w' - src_pos w /\ write_plan w <> [] /\
        exists e rest, new = e :: rest /\ is_short_write e = true /\
                       Forall (fun e => is_failure e = false) rest
    end.
Proof.
  intros Hn Hpos. unfold copy_fd, local_array, bind.
  apply copy_fd_loop_spec; lia.
Qed.

Lemma failure_kinds (e : event) :
  (is_read_error e = true -> is_end_of_input e = false /\ is_short_write e = false)
  /\ (is_end_of_input e = true -> is_read_error e = false /\ is_short_write e = false)
  /\ (is_short_write e = true -> is_read_error e = false /\ is_end_of_input e = false).
Proof.
  destruct e as [c [k|]| | | | |]; simpl; conj; intros; conj;
    auto; discriminate.
Qed.

Lemma not_failure (e : event) :
  is_failure e = false ->
  is_read_error e = false /\ is_end_of_input e = false
  /\ is_short_write e = false.
Proof.
  unfold is_failure. rewrite !orb_false_iff. tauto.
Qed.

Lemma clean_no_failure (new : list event) (kind : event -> bool) :
  (forall e, is_failure e = false -> kind e = false) ->
  Forall (fun e => is_failure e = false) new ->
  ~ Exists (fun e => kind e = true) new.
Proof.
  intros Hkind Hclean Hex. induction Hclean as [|e l He Hl IH].
  - inversion Hex.
  - inversion Hex as [? ? Hhd|? ? Htl]; subst.
    + apply Hkind in He. congruence.
    + apply IH. assumption.
Qed.

(** The status of [copy_fd] and what it did: COPY_FD_OK exactly when
    [n_bytes] bytes were read from the input and written to the output,
    COPY_FD_UNEXPECTED_EOF exactly when a read that asked for bytes found
    none, COPY_FD_READ_ERROR exactly when a read failed, and
    COPY_FD_WRITE_ERROR exactly when a write failed or came short; after
    the event that made it fail, [copy_fd] reads and writes nothing
    more. *)
Lemma copy_fd_status_events (n_bytes : Z) (w : world) :
  0 <= n_bytes -> 0 <= src_pos w ->
  exists st w' new,
    copy_fd P n_bytes w = Ret st w' /\ trace w' = new ++ trace w /\
    (st = COPY_FD_OK <->
       src_pos w' = src_pos w + n_bytes /\
       out w' = out w ++ slice (src_data w) (src_pos w) n_bytes /\
       zlen (out w') = zlen (out w) + n_bytes) /\
    (st = COPY_FD_UNEXPECTED_EOF <->
       Exists (fun e => is_end_of_input e = true) new) /\
    (st = COPY_FD_READ_ERROR <->
       Exists (fun e => is_read_error e = true) new) /\
    (st = COPY_FD_WRITE_ERROR <->
       Exists (fun e => is_short_write e = true) new) /\
    (st <> COPY_FD_OK ->
       exists e rest, new = e :: rest /\ is_failure e = true /\
                      Forall (fun e => is_failure e = false) rest).
Proof.
  intros Hn Hpos.
  destruct (copy_fd_spec n_bytes w Hn Hpos)
    as (st & w' & new & more & Hrun & Hf & Htr & Hout & _ & Hle1 & Hle2
        & Hmore & Hst).
  exists st, w', new. split; [assumption|]. split; [assumption|].
  assert (Hno : forall kind : event -> bool,
             (forall e, is_failure e = false -> kind e = false) ->
             forall e rest, new = e :: rest -> kind e = false ->
             Forall (fun e => is_failure e = false) rest ->
             ~ Exists (fun e => kind e = true) new).
  { intros kind Hkind e rest -> He Hrest Hex.
    apply Exists_cons in Hex as [Hex|Hex]; [congruence|].
    revert Hex. apply clean_no_failure; assumption. }
  assert (Hlen : zlen (out w') = zlen (out w) + zlen more)
    by (rewrite Hout, zlen_app; reflexivity).
  destruct st.
  - destruct Hst as (Hp & Hm & Hl & Hc).
    split; [split; [intros _; conj; [lia|congruence|lia]|reflexivity]|].
    conj; try (split; [discriminate|]); try congruence.
    + intros Hex. exfalso. revert Hex.
      apply clean_no_failure; [|assumption]. intros e He.
      apply not_failure in He. tauto.
    + intros Hex. exfalso. revert Hex.
      apply clean_no_failure; [|assumption]. intros e He.
      apply not_failure in He. tauto.
    + intros Hex. exfalso. revert Hex.
      apply clean_no_failure; [|assumption]. intros e He.
      apply not_failure in He. tauto.
  - destruct Hst as (Hp & _ & e & rest & -> & He & Hc).
    destruct (failure_kinds e) as (Hk & _ & _). destruct (Hk He) as [He1 He2].
    split; [split; [discriminate|intros (Hp' & _); lia]|].
    conj.
    + split; [discriminate|]. intros Hex. exfalso. revert Hex.
      eapply Hno; [|reflexivity|assumption|assumption].
      intros e' He'. apply not_failure in He'. tauto.
    + split; [intros _; left; assumption|reflexivity].
    + split; [discriminate|]. intros Hex. exfalso. revert Hex.
      eapply Hno; [|reflexivity|assumption|assumption].
      intros e' He'. apply not_failure in He'. tauto.
    + intros _. exists e, rest. conj; auto.
      unfold is_failure. rewrite He. reflexivity.
  - destruct Hst as (Hp & _ & e & rest & -> & He & Hc).
    destruct (failure_kinds e) as (_ & _ & Hk). destruct (Hk He) as [He1 He2].
    split; [split; [discriminate|intros (Hp' & _ & Hl'); lia]|].
    conj.
    + split; [discriminate|]. intros Hex. exfalso. revert Hex.
      eapply Hno; [|reflexivity|assumption|assumption].
      intros e' He'. apply not_failure in He'. tauto.
    + split; [discriminate|]. intros Hex. exfalso. revert Hex.
      eapply Hno; [|reflexivity|assumption|assumption].
      intros e' He'. apply not_failure in He'. tauto.
    + split; [intros _; left; assumption|reflexivity].
    + intros _. exists e, rest. conj; auto.
      unfold is_failure. rewrite He. rewrite !orb_true_r. reflexivity.
  - destruct Hst as (Hp & _ & e & rest & -> & He & Hc).
    destruct (failure_kinds e) as (_ & Hk & _). destruct (Hk He) as [He1 He2].
    split; [split; [discriminate|intros (Hp' & _); lia]|].
    conj.
    + split; [intros _; left; assumption|reflexivity].
    + split; [discriminate|]. intros Hex. exfalso. revert Hex.
      eapply Hno; [|reflexivity|assumption|assumption].
      intros e' He'. apply not_failure in He'. tauto.
    + split; [discriminate|]. intros Hex. exfalso. revert Hex.
      eapply Hno; [|reflexivity|assumption|assumption].
      intros e' He'. apply not_failure in He'. tauto.
    + intros _. exists e, rest. conj; auto.
      unfold is_failure. rewrite He. rewrite !orb_true_r. reflexivity.
Qed.

End CopyFd.

(** ** The size check of elide_tail_bytes_pipe *)

Section CountOverflow.

Variable P : platform.
Hypothesis WF : wf_platform P.

(** A count that [main] lets through (line 1073 refuses those above
    [OFF_T_MAX]) reaches the size check of line 231 unharmed: the sum does
    not wrap around. *)
Lemma main_guard_no_wrap (n_elide_0 : Z) :
  0 <= n_elide_0 -> n_elide_0 <= OFF_T_MAX P ->
  to_uintmax_t P (n_elide_0 + READ_BUFSIZE P) = n_elide_0 + READ_BUFSIZE P.
Proof.
  intros Hn Hmax. pose proof (wf_READ_BUFSIZE P WF).
  pose proof (wf_OFF_T_MAX P WF).
  unfold to_uintmax_t. apply Z.mod_small. lia.
Qed.

(** C9: for every count that [main] lets through, at most [OFF_T_MAX],
    such that [n_elide_0 + READ_BUFSIZE] exceeds [SIZE_MAX],
    [elide_tail_bytes_pipe] exits with "number of bytes is large"; it has
    then read, written and allocated nothing, whatever the input. *)
Theorem bytes_pipe_count_overflow (n_elide_0 : Z) (w : world) :
  0 <= n_elide_0 -> n_elide_0 <= OFF_T_MAX P ->
  SIZE_MAX P < n_elide_0 + READ_BUFSIZE P ->
  elide_tail_bytes_pipe P n_elide_0 w
  = Exit EXIT_FAILURE
      (log (Ev_error EXIT_FAILURE (number_of_bytes_is_large n_elide_0)) w).
Proof.
  intros Hn Hmax Hbig.
  unfold elide_tail_bytes_pipe.
  rewrite main_guard_no_wrap by assumption.
  replace (SIZE_MAX P <? n_elide_0 + READ_BUFSIZE P) with true
    by (symmetry; apply Z.ltb_lt; assumption).
  reflexivity.
Qed.

End CountOverflow.

Lemma bytes_pipe_count_overflow_witness :
  elide_tail_bytes_pipe ilp32 4294967296 (pipe_of (bytes "abc"))
  = Exit EXIT_FAILURE
      (log (Ev_error EXIT_FAILURE (number_of_bytes_is_large 4294967296))
         (pipe_of (bytes "abc"))).
Proof.
  apply (bytes_pipe_count_overflow ilp32).
  - split; vm_compute; congruence.
  - lia.
  - simpl. lia.
  - simpl. lia.
Defined.

(** ** The size of the ring of elide_tail_bytes_pipe *)

Section RingSize.

Variable P : platform.
Hypothesis WF : wf_platform P.

(** The array allocated at line 328 has [n_elide / READ_BUFSIZE + 2]
    slots, when that number fits in [size_t]. *)
Lemma ring_n_bufs_eq (n_elide : Z) :
  0 <= n_elide -> n_elide + READ_BUFSIZE P <= SIZE_MAX P ->
  n_elide / READ_BUFSIZE P + 2 <= SIZE_MAX P ->
  ring_rem P n_elide = READ_BUFSIZE P - n_elide mod READ_BUFSIZE P
  /\ ring_n_elide_round P n_elide
     = (n_elide / READ_BUFSIZE P + 1) * READ_BUFSIZE P
  /\ ring_n_bufs P n_elide = n_elide / READ_BUFSIZE P + 2.
Proof.
  intros Hn Hmax Hfit. pose proof (wf_READ_BUFSIZE P WF) as HR.
  pose proof (Z.mod_pos_bound n_elide (READ_BUFSIZE P) HR) as Hmod.
  pose proof (Z.div_mod n_elide (READ_BUFSIZE P) ltac:(lia)) as Hdiv.
  pose proof (Z.div_pos n_elide (READ_BUFSIZE P) Hn HR) as Hdiv0.
  assert (Hrem : ring_rem P n_elide
                 = READ_BUFSIZE P - n_elide mod READ_BUFSIZE P).
  { unfold ring_rem, to_size_t. apply Z.mod_small. lia. }
  assert (Hround : ring_n_elide_round P n_elide
                   = (n_elide / READ_BUFSIZE P + 1) * READ_BUFSIZE P).
  { unfold ring_n_elide_round, to_size_t. rewrite Hrem.
    rewrite Z.mod_small by lia. lia. }
  conj; [assumption|assumption|].
  unfold ring_n_bufs. rewrite Hround.
  rewrite Z.div_mul by lia. unfold to_size_t.
  rewrite Z.mod_small by lia. lia.
Qed.

(** It fits whenever a block has more than one byte. *)
Lemma ring_n_bufs_fits (n_elide : Z) :
  0 <= n_elide -> n_elide + READ_BUFSIZE P <= SIZE_MAX P ->
  2 <= READ_BUFSIZE P ->
  n_elide / READ_BUFSIZE P + 2 <= SIZE_MAX P.
Proof.
  intros Hn Hmax HR2. pose proof (wf_READ_BUFSIZE P WF) as HR.
  pose proof (Z.mod_pos_bound n_elide (READ_BUFSIZE P) HR) as Hmod.
  pose proof (Z.div_mod n_elide (READ_BUFSIZE P) ltac:(lia)) as Hdiv.
  pose proof (Z.div_pos n_elide (READ_BUFSIZE P) Hn HR) as Hdiv0.
  nia.
Qed.

(** That is one more than [ceil (n_elide / READ_BUFSIZE) + 1] exactly
    when [n_elide] is a multiple of [READ_BUFSIZE]. *)
Lemma ceil_div_spec (n : Z) :
  0 <= n ->
  ceil_div n (READ_BUFSIZE P)
  = n / READ_BUFSIZE P + (if n mod READ_BUFSIZE P =? 0 then 0 else 1).
Proof.
  intros Hn. pose proof (wf_READ_BUFSIZE P WF) as HR.
  pose proof (Z.mod_pos_bound n (READ_BUFSIZE P) HR) as Hmod.
  pose proof (Z.div_mod n (READ_BUFSIZE P) ltac:(lia)) as Hdiv.
  unfold ceil_div.
  destruct (n mod READ_BUFSIZE P =? 0) eqn:Hz.
  - apply Z.eqb_eq in Hz. symmetry.
    apply (Z.div_unique _ _ _ (READ_BUFSIZE P - 1)); lia.
  - apply Z.eqb_neq in Hz. symmetry.
    apply (Z.div_unique _ _ _ (n mod READ_BUFSIZE P - 1)); lia.
Qed.

End RingSize.

(** C10: for [n_elide] = 2 MiB, a multiple of the block size above the
    threshold, the ring has 258 slots where [ceil (n_elide / READ_BUFSIZE)
    + 1] is 257. *)
Theorem ring_slots_at_multiple_of_block :
  HEAD_TAIL_PIPE_BYTECOUNT_THRESHOLD lp64 < 2097152
  /\ 2097152 mod READ_BUFSIZE lp64 = 0
  /\ ceil_div 2097152 (READ_BUFSIZE lp64) + 1 = 257
  /\ ring_n_bufs lp64 2097152 = 258
  /\ option_map trace
       (final_world (elide_tail_bytes_pipe lp64 2097152 (pipe_of [])))
     = Some [Ev_read 8192 (Some 0); Ev_xmalloc 8192; Ev_xcalloc 258].
Proof. conj; vm_compute; reflexivity. Qed.

(** With blocks of one byte, [n_elide_round / READ_BUFSIZE + 1] of line
    327 wraps around to 0 for [n_elide = SIZE_MAX - 1], a count that
    passes the size check: the array has no slot, and line 333 looks at
    [b[0]]. *)
Example scenario_ring_size_wraps :
  wf_platform ilp32_bytewise
  /\ 4294967294 + READ_BUFSIZE ilp32_bytewise <= SIZE_MAX ilp32_bytewise
  /\ ring_n_bufs ilp32_bytewise 4294967294 = 0
  /\ elide_tail_bytes_pipe ilp32_bytewise 4294967294 (pipe_of [])
     = Fault (log (Ev_xcalloc 0) (pipe_of [])).
Proof.
  conj; [split; vm_compute; congruence|vm_compute; congruence|
         vm_compute; reflexivity..].
Qed.

(** ** Inputs on which the code goes wrong *)

(** C1: with [READ_BUFSIZE] 4 and the threshold 8, eliding 9 bytes from
    the 8 bytes "abcdefgh" should print nothing, and does so on a regular
    file; on a pipe, line 392 computes [x = n_read - y = 0 - 1], which
    wraps around to [SIZE_MAX], and line 393 writes that many bytes from
    a block of 4. *)
Theorem bytes_pipe_ring_short_input :
  all_but_last_bytes 9 (bytes "abcdefgh") = []
  /\ result (elide_tail_bytes_file lp64_small 9 (file_of (bytes "abcdefgh")))
     = Some (0, [])
  /\ elide_tail_bytes_file lp64_small 9 (pipe_of (bytes "abcdefgh"))
     = elide_tail_bytes_pipe lp64_small 9 (pipe_of (bytes "abcdefgh"))
  /\ is_fault
       (elide_tail_bytes_pipe lp64_small 9 (pipe_of (bytes "abcdefgh")))
     = true
  /\ to_size_t lp64_small (0 - to_size_t lp64_small (4 - ring_rem lp64_small 9))
     = SIZE_MAX lp64_small.
Proof. conj; vm_compute; reflexivity. Qed.

(** C5: on the same input and count, the double-buffer strategy (chosen
    when the threshold is 16) prints nothing and returns 0, and the ring
    strategy (chosen when the threshold is 8) ends in the fault above. *)
Theorem bytes_pipe_strategies_differ :
  result (elide_tail_bytes_pipe (with_threshold lp64_small 16) 9
            (pipe_of (bytes "abcdefgh")))
  = Some (0, [])
  /\ is_fault (elide_tail_bytes_pipe (with_threshold lp64_small 8) 9
                 (pipe_of (bytes "abcdefgh")))
     = true.
Proof. conj; vm_compute; reflexivity. Qed.

(** C2: eliding 0 lines from "abc", which has no newline, should print
    "abc".  On a regular file line 637 takes [n_lines] from 0 to
    [UINTMAX_MAX] and nothing is printed; on a pipe [memchr] at line 574
    returns null and line 580 writes [p - tmp->buffer] bytes. *)
Theorem lines_count_zero_unterminated :
  all_but_last_lines 0 (bytes "abc") = bytes "abc"
  /\ result (elide_tail_lines_file lp64 0 (file_of (bytes "abc")))
     = Some (0, [])
  /\ is_fault (elide_tail_lines_file lp64 0 (pipe_of (bytes "abc"))) = true.
Proof. conj; vm_compute; reflexivity. Qed.

(** C4: on "abcdef" read up to offset 1, with 2 bytes to elide, line 450
    calls [lseek (fd, 0, 1)], which is [SEEK_CUR] and leaves the offset at
    the end of the file: [copy_fd] finds no byte, nothing is printed and
    the call fails, where "bcd" was to be printed. *)
Theorem bytes_file_seek_back_whence :
  all_but_last_bytes 2 (pending (file_at (bytes "abcdef") 1)) = bytes "bcd"
  /\ elide_tail_bytes_file lp64 2 (file_at (bytes "abcdef") 1)
     = Ret 1
         {| src_data := bytes "abcdef"; src_pos := 6; src_stat := Some true;
            src_seekable := true; presume_input_pipe := false;
            read_plan := []; write_plan := []; seek_plan := [];
            calloc_plan := []; junk := x00; out := [];
            trace := [Ev_error 0 file_has_shrunk_too_much;
                      Ev_read 3 (Some 0);
                      Ev_lseek 0 1 6; Ev_lseek 0 2 6; Ev_lseek 0 1 1] |}.
Proof. conj; vm_compute; reflexivity. Qed.

(** From offset 3 the third argument of line 450 is [SEEK_DATA] where
    there is one, as on Linux: the offset goes to 0, and "a" is printed
    where "d" was to be. *)
Example scenario_seek_back_from_offset_3 :
  all_but_last_bytes 2 (pending (file_at (bytes "abcdef") 3)) = bytes "d"
  /\ result (elide_tail_bytes_file lp64 2 (file_at (bytes "abcdef") 3))
     = Some (0, bytes "a")
  /\ option_map trace
       (final_world (elide_tail_bytes_file lp64 2 (file_at (bytes "abcdef") 3)))
     = Some [Ev_write 199 1 1; Ev_read 1 (Some 1);
             Ev_lseek 0 3 0; Ev_lseek 0 2 6; Ev_lseek 0 1 3].
Proof. conj; vm_compute; reflexivity. Qed.

(** ** The choice between the seekable and the streaming variant *)

Lemma lseek_returns (offset whence : Z) (w : world) :
  exists r w', lseek offset whence w = Ret r w'.
Proof. unfold lseek. eexists _, _. reflexivity. Qed.

(** On a descriptor that cannot seek, [lseek] fails and leaves the
    offset alone. *)
Lemma lseek_unseekable (offset whence : Z) (w : world) :
  src_seekable w = false ->
  lseek offset whence w
  = Ret (-1) (log (Ev_lseek offset whence (-1)) (after_lseek (src_pos w) w)).
Proof.
  intros Hseek. unfold lseek. rewrite Hseek, orb_true_r. reflexivity.
Qed.

Section Dispatch.

Variable P : platform.

(** C6, amended.  Bytes: the streaming variant is chosen exactly when
    [presume_input_pipe] is set or [fstat] does not report a regular file;
    on a regular file a failed [lseek] probe makes the call fail with
    "cannot lseek", without falling back, and two probes that work make
    the call the seekable variant's (lines 441-462), run after them.
    Lines: the seekable variant is
    chosen exactly when [presume_input_pipe] is unset and the two probes
    give [0 <= start_pos < end_pos]; when a probe fails, or no byte lies
    between the two offsets, the call is the streaming variant's, run
    after the probes, and returns what that returns. *)
Theorem variant_selection (n_elide : Z) (w : world) :
  (presume_input_pipe w = true \/ src_stat w <> Some true ->
   elide_tail_bytes_file P n_elide w = elide_tail_bytes_pipe P n_elide w)
  /\ (presume_input_pipe w = false -> src_stat w = Some true ->
      forall w1,
        lseek 0 SEEK_CUR w = Ret (-1) w1 ->
        elide_tail_bytes_file P n_elide w
        = Ret 1 (log (Ev_error 0 cannot_lseek) w1))
  /\ (presume_input_pipe w = false -> src_stat w = Some true ->
      forall current_pos w1 w2,
        lseek 0 SEEK_CUR w = Ret current_pos w1 -> current_pos <> -1 ->
        lseek 0 SEEK_END w1 = Ret (-1) w2 ->
        elide_tail_bytes_file P n_elide w
        = Ret 1 (log (Ev_error 0 cannot_lseek) w2))
  /\ (presume_input_pipe w = false -> src_stat w = Some true ->
      forall current_pos w1 end_pos w2,
        lseek 0 SEEK_CUR w = Ret current_pos w1 -> current_pos <> -1 ->
        lseek 0 SEEK_END w1 = Ret end_pos w2 -> end_pos <> -1 ->
        elide_tail_bytes_file P n_elide w
        = elide_tail_bytes_seekable P n_elide current_pos end_pos w2)
  /\ (presume_input_pipe w = true ->
      elide_tail_lines_file P n_elide w = elide_tail_lines_pipe P n_elide w)
  /\ (presume_input_pipe w = false ->
      forall start_pos w1 end_pos w2,
        lseek 0 SEEK_CUR w = Ret start_pos w1 ->
        lseek 0 SEEK_END w1 = Ret end_pos w2 ->
        (0 <= start_pos < end_pos ->
         elide_tail_lines_file P n_elide w
         = elide_tail_lines_seekable P n_elide start_pos end_pos w2)
        /\ (~ 0 <= start_pos < end_pos ->
            elide_tail_lines_file P n_elide w
            = elide_tail_lines_pipe P n_elide w2))
  /\ (presume_input_pipe w = false -> src_seekable w = false ->
      elide_tail_lines_file P n_elide w
      = elide_tail_lines_pipe P n_elide
          (log (Ev_lseek 0 SEEK_END (-1))
             (after_lseek (src_pos w)
                (log (Ev_lseek 0 SEEK_CUR (-1))
                   (after_lseek (src_pos w) w))))).
Proof.
  conj.
  - intros Hsel. unfold elide_tail_bytes_file.
    destruct Hsel as [->|Hstat]; [reflexivity|].
    destruct (presume_input_pipe w); [reflexivity|].
    destruct (src_stat w) as [[|]|]; try reflexivity. congruence.
  - intros Hpre Hstat w1 Hseek. unfold elide_tail_bytes_file.
    rewrite Hpre, Hstat. simpl.
    rewrite (bind_ret _ _ _ _ _ Hseek). reflexivity.
  - intros Hpre Hstat c w1 w2 Hseek Hc Hend. unfold elide_tail_bytes_file.
    rewrite Hpre, Hstat. simpl.
    rewrite (bind_ret _ _ _ _ _ Hseek).
    replace (c =? -1) with false by (symmetry; apply Z.eqb_neq; assumption).
    rewrite (bind_ret _ _ _ _ _ Hend). reflexivity.
  - intros Hpre Hstat c w1 e w2 Hseek Hc Hend He.
    unfold elide_tail_bytes_file.
    rewrite Hpre, Hstat. simpl.
    rewrite (bind_ret _ _ _ _ _ Hseek).
    replace (c =? -1) with false by (symmetry; apply Z.eqb_neq; assumption).
    rewrite (bind_ret _ _ _ _ _ Hend).
    replace (e =? -1) with false by (symmetry; apply Z.eqb_neq; assumption).
    reflexivity.
  - intros Hpre. unfold elide_tail_lines_file. rewrite Hpre. reflexivity.
  - intros Hpre s w1 e w2 Hs He. unfold elide_tail_lines_file.
    rewrite Hpre. simpl.
    rewrite (bind_ret _ _ _ _ _ Hs), (bind_ret _ _ _ _ _ He).
    split.
    + intros Hin.
      replace ((0 <=? s) && (s <? e)) with true
        by (symmetry; apply andb_true_iff; lia).
      replace (e =? 0) with false by (symmetry; apply Z.eqb_neq; lia).
      reflexivity.
    + intros Hout.
      replace ((0 <=? s) && (s <? e)) with false; [reflexivity|].
      symmetry. apply andb_false_iff. lia.
  - intros Hpre Hseek. unfold elide_tail_lines_file.
    rewrite Hpre. simpl.
    rewrite (bind_ret _ _ _ _ _ (lseek_unseekable 0 SEEK_CUR w Hseek)).
    erewrite bind_ret by (apply lseek_unseekable; exact Hseek).
    reflexivity.
Qed.

End Dispatch.

Lemma variant_selection_witness :
  elide_tail_bytes_file lp64 1 (pipe_of (bytes "abc"))
  = elide_tail_bytes_pipe lp64 1 (pipe_of (bytes "abc"))
  /\ elide_tail_bytes_file lp64 1
       (with_plans (file_of (bytes "abc")) [] [] [true])
     = Ret 1 (log (Ev_error 0 cannot_lseek)
                (log (Ev_lseek 0 SEEK_CUR (-1))
                   (after_lseek 0
                      (with_plans (file_of (bytes "abc")) [] [] [true]))))
  /\ elide_tail_bytes_file lp64 1 (file_of (bytes "abc"))
     = elide_tail_bytes_seekable lp64 1 0 3
         (log (Ev_lseek 0 SEEK_END 3)
            (after_lseek 3
               (log (Ev_lseek 0 SEEK_CUR 0)
                  (after_lseek 0 (file_of (bytes "abc"))))))
  /\ elide_tail_lines_file lp64 1 (presuming_pipe (file_of (bytes "abc")))
     = elide_tail_lines_pipe lp64 1 (presuming_pipe (file_of (bytes "abc")))
  /\ elide_tail_lines_file lp64 1 (pipe_of (bytes "abc"))
     = elide_tail_lines_pipe lp64 1
         (log (Ev_lseek 0 SEEK_END (-1))
            (after_lseek 0
               (log (Ev_lseek 0 SEEK_CUR (-1))
                  (after_lseek 0 (pipe_of (bytes "abc")))))).
Proof.
  conj.
  - destruct (variant_selection lp64 1 (pipe_of (bytes "abc")))
      as (H & _).
    apply H. right. simpl. discriminate.
  - destruct (variant_selection lp64 1
                (with_plans (file_of (bytes "abc")) [] [] [true]))
      as (_ & H & _).
    apply H; reflexivity.
  - destruct (variant_selection lp64 1 (file_of (bytes "abc")))
      as (_ & _ & _ & H & _).
    apply (H eq_refl eq_refl 0 _ 3 _ eq_refl ltac:(discriminate) eq_refl
             ltac:(discriminate)).
  - destruct (variant_selection lp64 1
                (presuming_pipe (file_of (bytes "abc"))))
      as (_ & _ & _ & _ & H & _).
    apply H. reflexivity.
  - destruct (variant_selection lp64 1 (pipe_of (bytes "abc")))
      as (_ & _ & _ & _ & _ & _ & H).
    apply H; reflexivity.
Defined.

(** A regular file whose first [lseek] fails: the byte elider fails and
    prints nothing, where the streaming variant run on the same descriptor
    prints "ab" and succeeds. *)
Lemma variant_selection_counterexample :
  result (elide_tail_bytes_file lp64 1
            (with_plans (file_of (bytes "abc")) [] [] [true]))
  = Some (1, [])
  /\ result (elide_tail_bytes_pipe lp64 1
               (with_plans (file_of (bytes "abc")) [] [] [true]))
     = Some (0, bytes "ab").
Proof. conj; vm_compute; reflexivity. Qed.

(** ** Newlines and logical lines *)

Lemma count_LF_app (a b : list byte) :
  count_LF (a ++ b) = count_LF a + count_LF b.
Proof. induction a as [|c a IH]; simpl; [reflexivity|]. rewrite IH. lia. Qed.

Lemma count_LF_nonneg (l : list byte) : 0 <= count_LF l.
Proof. induction l as [|c l IH]; simpl; [lia|]. destruct (is_LF c); lia. Qed.


Lemma logical_lines_nil (l : list byte) : logical_lines l = [] -> l = [].
Proof.
  destruct l as [|c l]; [reflexivity|]. simpl.
  destruct (is_LF c); [discriminate|].
  destruct (logical_lines l); discriminate.
Qed.

(** The first [k] logical lines are the prefix up to the [k]-th newline. *)
Lemma lines_upto (l : list byte) (k : nat) :
  concat (take k (logical_lines l)) = upto_LF l k.
Proof.
  revert k. induction l as [|c l IH]; intros k; simpl.
  - rewrite take_nil. reflexivity.
  - destruct k as [|k].
    + rewrite take_0. reflexivity.
    + destruct (is_LF c) eqn:Hc.
      * simpl. rewrite IH. reflexivity.
      * destruct (logical_lines l) as [|line rest] eqn:Hl.
        -- apply logical_lines_nil in Hl. subst l. simpl.
           rewrite take_nil. reflexivity.
        -- rewrite <- IH. reflexivity.
Qed.



Lemma upto_LF_0 (l : list byte) : upto_LF l 0 = [].
Proof. destruct l; reflexivity. Qed.

Lemma upto_LF_app_gt (a b : list byte) (k : nat) :
  count_LF a < Z.of_nat k ->
  upto_LF (a ++ b) k = a ++ upto_LF b (k - Z.to_nat (count_LF a)).
Proof.
  revert k. induction a as [|c a IH]; intros k Hk; simpl in *.
  - f_equal. lia.
  - pose proof (count_LF_nonneg a) as Ha.
    destruct k as [|k]; [destruct (is_LF c); lia|].
    f_equal. destruct (is_LF c).
    + rewrite IH by lia. do 2 f_equal. lia.
    + rewrite IH by lia. do 2 f_equal.
Qed.

Lemma upto_LF_app_le (a b : list byte) (k : nat) :
  Z.of_nat k <= count_LF a -> upto_LF (a ++ b) k = upto_LF a k.
Proof.
  revert k. induction a as [|c a IH]; intros k Hk; simpl in *.
  - assert (k = 0%nat) as -> by lia. apply upto_LF_0.
  - destruct k as [|k]; [reflexivity|].
    f_equal. destruct (is_LF c); apply IH; lia.
Qed.






Lemma is_LF_true (c : byte) : is_LF c = true -> c = LF.
Proof. apply byte_dec_bl. Qed.


Lemma rindex_LF_spec (l : list byte) :
  match rindex_LF l with
  | Some k => exists pre post,
                l = pre ++ LF :: post /\ zlen pre = k /\ count_LF post = 0
  | None => count_LF l = 0
  end.
Proof.
  induction l as [|c l IH]; simpl; [reflexivity|].
  destruct (rindex_LF l) as [k|].
  - destruct IH as (pre & post & -> & Hk & Hz).
    exists (c :: pre), post. rewrite zlen_cons.
    conj; [reflexivity|lia|assumption].
  - destruct (is_LF c) eqn:Hc.
    + apply is_LF_true in Hc. subst c. exists [], l. auto.
    + lia.
Qed.





Section ScanBack.

Variable P : platform.


End ScanBack.

(** ** Reads and writes when nothing fails *)

Lemma avail_advance (w w' : world) (k : Z) :
  frame w w' -> src_pos w' = src_pos w + k -> 0 <= k -> k <= avail w ->
  avail w' = avail w - k.
Proof.
  intros [Hd] Hpos Hk Hav. unfold avail in *. rewrite Hd, Hpos. lia.
Qed.

Lemma safe_read_quiet (count : Z) (w : world) :
  quiet w -> 0 <= src_pos w -> 0 <= count ->
  exists k w',
    safe_read count w = Ret (Some (slice (src_data w) (src_pos w) k)) w' /\
    frame w w' /\ quiet w' /\ out w' = out w /\
    src_pos w' = src_pos w + k /\
    0 <= k /\ k <= count /\ k <= avail w /\
    (1 <= count -> 1 <= avail w -> 1 <= k) /\
    (read_plan w = [] -> k = Z.min count (avail w)) /\
    zlen (slice (src_data w) (src_pos w) k) = k.
Proof.
  intros Hq Hpos Hcount.
  destruct (safe_read_spec count w)
    as (r & w' & Hread & Hf & Hout & _ & _ & _ & Hr).
  destruct r as [data|].
  - destruct Hr as (k & -> & Hk0 & Hkmax & Hk1 & Hfull & Hpos' & _ & Hlen).
    pose proof (avail_nonneg w).
    exists k, w'. conj; eauto using frame_quiet; try lia.
    intros Hnil. rewrite (Hfull Hnil). lia.
  - destruct Hr as (Hhd & _). destruct Hq as [Hq _].
    destruct (read_plan w) as [|s plan]; [discriminate|].
    injection Hhd as ->. inversion Hq as [|? ? Hs]; subst. congruence.
Qed.

Lemma fwrite_quiet (line : Z) (buf : list byte) (off n : Z) (w : world) :
  quiet w -> 0 <= off -> 0 <= n -> off + n <= zlen buf ->
  exists w',
    fwrite line buf off n w = Ret n w' /\ frame w w' /\ quiet w' /\
    src_pos w' = src_pos w /\ out w' = out w ++ slice buf off n.
Proof.
  intros Hq Hoff Hn Hin.
  destruct (fwrite_spec line buf off n w Hoff Hn Hin)
    as (a & w' & Hwrite & Hf & Hpos & _ & _ & _ & _ & _ & Hfull & Hout & _).
  pose proof Hq as [_ Hwp]. specialize (Hfull Hwp). subst a.
  exists w'. conj; eauto using frame_quiet.
Qed.





(** ** The double-buffer strategy of elide_tail_bytes_pipe *)

Section DoubleBuffer.

Variable P : platform.
Hypothesis WF : wf_platform P.
Variable n_elide : Z.
Hypothesis Hn_elide : 0 <= n_elide.


End DoubleBuffer.


(** ** The byte eliders when nothing fails *)

Lemma zlen_pending (w : world) :
  0 <= src_pos w -> zlen (pending w) = avail w.
Proof.
  intros Hpos. unfold pending, avail, zlen. rewrite length_drop. lia.
Qed.


Lemma lseek_calm_spec (offset whence : Z) (w : world) (target : Z) :
  calm w -> src_seekable w = true ->
  (whence = SEEK_SET /\ target = offset
   \/ whence = SEEK_CUR /\ target = src_pos w + offset
   \/ whence = SEEK_END /\ target = zlen (src_data w) + offset) ->
  0 <= target ->
  exists w',
    lseek offset whence w = Ret target w' /\ frame w w' /\ calm w' /\
    src_pos w' = target /\ out w' = out w.
Proof.
  intros Hc Hseek Hwhence Htarget. pose proof Hc as (_ & _ & Hplan).
  rewrite (lseek_calm offset whence w Hplan Hseek target Hwhence Htarget).
  eexists. split; [reflexivity|].
  assert (Hf : frame w (log (Ev_lseek offset whence target)
                          (after_lseek target w))) by auto with frames.
  conj; eauto using frame_calm.
Qed.

Section BytesQuiet.

Variable P : platform.
Hypothesis WF : wf_platform P.

Lemma copy_fd_quiet (n : Z) (w : world) :
  quiet w -> 0 <= src_pos w -> 0 <= n -> n <= avail w ->
  exists w',
    copy_fd P n w = Ret COPY_FD_OK w' /\ frame w w' /\ quiet w' /\
    src_pos w' = src_pos w + n /\
    out w' = out w ++ slice (src_data w) (src_pos w) n.
Proof.
  intros Hq Hpos Hn Hav.
  destruct (copy_fd_spec P WF n w Hn Hpos)
    as (st & w' & new & more & Hrun & Hf & _ & Hout & _ & _ & _ & _ & Hst).
  destruct st.
  - destruct Hst as (Hp & -> & _). exists w'.
    conj; eauto using frame_quiet.
  - destruct Hst as (_ & Hin & _). destruct Hq as [Hq _].
    exfalso. rewrite Forall_forall in Hq.
    apply (Hq Rd_fail); [|reflexivity]. apply list_elem_of_In. assumption.
  - destruct Hst as (_ & Hwp & _). destruct Hq as [_ Hq]. contradiction.
  - destruct Hst as (_ & Hlt & _). lia.
Qed.


(** On a regular file read from its start, [elide_tail_bytes_file] prints
    all but the last [n_elide] bytes. *)
Lemma bytes_file_seekable (n_elide : Z) (w : world) :
  calm w -> src_stat w = Some true -> src_seekable w = true ->
  presume_input_pipe w = false -> src_pos w = 0 -> 0 <= n_elide ->
  exists w',
    elide_tail_bytes_file P n_elide w = Ret 0 w' /\ frame w w' /\
    out w' = out w ++ all_but_last_bytes n_elide (src_data w).
Proof.
  intros Hc Hstat Hseek Hpre Hpos Hn.
  pose proof (wf_INT_MAX P WF) as HINT.
  unfold elide_tail_bytes_file, elide_tail_bytes_seekable.
  rewrite Hpre, Hstat. cbn [negb orb].
  destruct (lseek_calm_spec 0 SEEK_CUR w 0 Hc Hseek)
    as (w1 & Hl1 & Hf1 & Hc1 & Hp1 & Ho1); [right; left; lia|lia|].
  rewrite (bind_ret _ _ _ _ _ Hl1).
  change (0 =? -1) with false. cbv iota.
  pose proof Hf1 as [Hd1 _ Hs1].
  destruct (lseek_calm_spec 0 SEEK_END w1 (zlen (src_data w)) Hc1)
    as (w2 & Hl2 & Hf2 & Hc2 & Hp2 & Ho2);
    [congruence|right; right; split; [reflexivity|rewrite Hd1; lia]
    |apply zlen_nonneg|].
  rewrite (bind_ret _ _ _ _ _ Hl2).
  pose proof (zlen_nonneg (src_data w)) as Hlen.
  replace (zlen (src_data w) =? -1) with false
    by (symmetry; apply Z.eqb_neq; lia).
  replace (zlen (src_data w) - 0 <? 0) with false
    by (symmetry; apply Z.ltb_ge; lia).
  replace (zlen (src_data w) - 0) with (zlen (src_data w)) by lia.
  unfold all_but_last_bytes.
  destruct (zlen (src_data w) <=? n_elide) eqn:Hle.
  - apply Z.leb_le in Hle. exists w2. rewrite ret_bind || idtac.
    conj; [reflexivity|eauto with frames|].
    replace (Z.to_nat (Z.max 0 (zlen (src_data w) - n_elide))) with 0%nat
      by lia.
    rewrite take_0, app_nil_r. congruence.
  - apply Z.leb_gt in Hle.
    assert (Hint : to_int P 0 = SEEK_SET).
    { unfold to_int, SEEK_SET. rewrite Z.mod_small by lia. lia. }
    rewrite Hint.
    pose proof Hf2 as [Hd2 _ Hs2].
    destruct (lseek_calm_spec 0 SEEK_SET w2 0 Hc2)
      as (w3 & Hl3 & Hf3 & Hc3 & Hp3 & Ho3);
      [congruence|left; split; reflexivity|lia|].
    rewrite (bind_ret _ _ _ _ _ Hl3). change (0 =? -1) with false. cbv iota.
    pose proof Hf3 as [Hd3].
    destruct (copy_fd_quiet (zlen (src_data w) - n_elide) w3)
      as (w4 & Hcopy & Hf4 & _ & _ & Ho4);
      [apply calm_quiet; assumption|lia|lia| |].
    { unfold avail. rewrite Hd3, Hd2, Hd1, Hp3. lia. }
    rewrite (bind_ret _ _ _ _ _ Hcopy).
    exists w4. conj; [reflexivity|eauto with frames|].
    rewrite Ho4, Ho3, Ho2, Ho1, Hd3, Hd2, Hd1, Hp3. f_equal.
    unfold slice. simpl. f_equal. lia.
Qed.


End BytesQuiet.


(** ** The ring strategy of elide_tail_bytes_pipe on a short input *)

Section RingShort.

Variable P : platform.
Hypothesis WF : wf_platform P.
Variable n_elide : Z.
Hypothesis Hn_elide : 0 <= n_elide.



End RingShort.

(** ** elide_tail_lines_pipe when nothing fails *)






Lemma pending_advance (w w' : world) (k : Z) :
  frame w w' -> 0 <= src_pos w -> 0 <= k -> src_pos w' = src_pos w + k ->
  pending w = slice (src_data w) (src_pos w) k ++ pending w'.
Proof.
  intros [Hd] Hpos Hk Hpos'. unfold pending, slice. rewrite Hd, Hpos'.
  replace (Z.to_nat (src_pos w + k))
    with (Z.to_nat (src_pos w) + Z.to_nat k)%nat by lia.
  rewrite <- drop_drop. symmetry. apply take_drop.
Qed.

Lemma pending_nil (w : world) :
  0 <= src_pos w -> avail w = 0 -> pending w = [].
Proof.
  intros Hpos Hav. apply length_zero_iff_nil.
  pose proof (zlen_pending w Hpos). unfold zlen in *. lia.
Qed.

(** ** The status of copy_fd and the descriptor *)

Section CopyFdStatus.

Variable P : platform.
Hypothesis WF : wf_platform P.

(** COPY_FD_UNEXPECTED_EOF: the input has been read to its end, and what
    was read has been written. *)
Lemma copy_fd_loop_eof (fuel : nat) (buf : list byte) (n : Z)
    (w w' : world) :
  0 <= src_pos w ->
  copy_fd_loop P fuel buf n w = Ret COPY_FD_UNEXPECTED_EOF w' ->
  src_pos w' = src_pos w + avail w /\ out w' = out w ++ pending w.
Proof.
  pose proof (wf_BUFSIZ P WF) as HBUF.
  revert buf n w. induction fuel as [|fuel IH]; intros buf n w Hpos Hrun.
  { cbn [copy_fd_loop] in Hrun. destruct (0 <? n); discriminate. }
  cbn [copy_fd_loop] in Hrun. destruct (0 <? n) eqn:Hn; [|discriminate].
  apply Z.ltb_lt in Hn.
  destruct (safe_read_spec (Z.min (BUFSIZ P) n) w)
    as (r & w1 & Hread & Hf1 & Hout1 & _ & _ & _ & Hr).
  rewrite (bind_ret _ _ _ _ _ Hread) in Hrun.
  destruct r as [data|]; [|discriminate].
  destruct Hr as (k & Hdata & Hk0 & Hkmax & Hk1 & _ & Hpos1 & _ & Hlen).
  specialize (Hlen Hpos). cbv zeta in Hrun. rewrite Hlen in Hrun.
  pose proof (avail_nonneg w) as HA.
  destruct (k =? 0) eqn:Hk.
  - apply Z.eqb_eq in Hk. subst k.
    replace (n - 0 =? 0) with false in Hrun
      by (symmetry; apply Z.eqb_neq; lia).
    cbn [andb negb] in Hrun. injection Hrun as <-.
    assert (Hav : avail w = 0) by lia.
    split; [lia|].
    rewrite Hout1, (pending_nil w Hpos Hav), app_nil_r. reflexivity.
  - apply Z.eqb_neq in Hk. cbn [andb] in Hrun.
    pose proof (zlen_store_ge buf data) as Hstore.
    destruct (fwrite_spec 199 (store buf 0 data) 0 k w1)
      as (a & w2 & Hwrite & Hf2 & Hpos2 & _ & _ & _ & Ha0 & Hak & _ & Hout2
          & _); try lia.
    rewrite (bind_ret _ _ _ _ _ Hwrite) in Hrun.
    destruct (a <? k) eqn:Hshort; [discriminate|].
    apply Z.ltb_ge in Hshort. assert (a = k) as -> by lia.
    assert (Hf : frame w w2) by eauto with frames.
    assert (Hpos2' : src_pos w2 = src_pos w + k) by lia.
    destruct (IH _ _ w2 ltac:(lia) Hrun) as [Hp' Ho'].
    rewrite (avail_advance w w2 k Hf Hpos2') in Hp' by lia.
    pose proof (pending_advance w w2 k Hf Hpos Hk0 Hpos2') as Hpend.
    assert (Hslice : slice (store buf 0 data) 0 k = data).
    { apply slice_store_same; [lia|apply zlen_nonneg|lia]. }
    split; [lia|].
    rewrite Ho', Hout2, Hslice, Hout1, Hpend, <- Hdata, <- app_assoc.
    reflexivity.
Qed.

(** C8: [copy_fd] returns a value, which is COPY_FD_OK exactly when
    [n_bytes] bytes were read from the input and written to the output,
    COPY_FD_UNEXPECTED_EOF exactly when a read that asked for bytes found
    the input ended, COPY_FD_READ_ERROR exactly when a read failed, and
    COPY_FD_WRITE_ERROR exactly when a write failed or came short; after
    the event that made it fail, [copy_fd] reads and writes nothing more.
    COPY_FD_UNEXPECTED_EOF is returned only when the input has fewer than
    [n_bytes] bytes left, all of which have then been read and written;
    COPY_FD_READ_ERROR only when a read of the descriptor fails;
    COPY_FD_WRITE_ERROR only when standard output takes less than it is
    given.  When no read fails and every write is taken, the status is
    COPY_FD_OK if the input has [n_bytes] bytes left, and
    COPY_FD_UNEXPECTED_EOF if it has fewer. *)
Theorem copy_fd_status_meaning (n_bytes : Z) (w : world) :
  0 <= n_bytes -> 0 <= src_pos w ->
  exists st w' new,
    copy_fd P n_bytes w = Ret st w' /\ trace w' = new ++ trace w /\
    (st = COPY_FD_OK <->
       src_pos w' = src_pos w + n_bytes /\
       out w' = out w ++ slice (src_data w) (src_pos w) n_bytes /\
       zlen (out w') = zlen (out w) + n_bytes) /\
    (st = COPY_FD_UNEXPECTED_EOF <->
       Exists (fun e => is_end_of_input e = true) new) /\
    (st = COPY_FD_READ_ERROR <->
       Exists (fun e => is_read_error e = true) new) /\
    (st = COPY_FD_WRITE_ERROR <->
       Exists (fun e => is_short_write e = true) new) /\
    (st <> COPY_FD_OK ->
       exists e rest, new = e :: rest /\ is_failure e = true /\
                      Forall (fun e => is_failure e = false) rest) /\
    (st = COPY_FD_UNEXPECTED_EOF ->
       avail w < n_bytes /\ src_pos w' = src_pos w + avail w /\
       out w' = out w ++ pending w) /\
    (st = COPY_FD_READ_ERROR -> In Rd_fail (read_plan w)) /\
    (st = COPY_FD_WRITE_ERROR -> write_plan w <> []) /\
    (quiet w ->
       (n_bytes <= avail w <-> st = COPY_FD_OK) /\
       (avail w < n_bytes <-> st = COPY_FD_UNEXPECTED_EOF)).
Proof.
  intros Hn Hpos.
  destruct (copy_fd_status_events P WF n_bytes w Hn Hpos)
    as (st & w' & new & Hrun & Htr & Hok & Heof & Hrd & Hwr & Hfail).
  destruct (copy_fd_spec P WF n_bytes w Hn Hpos)
    as (st2 & w2 & new2 & more & Hrun2 & Hf & _ & Hout & _ & Hle1 & Hle2
        & Hmore & Hst).
  rewrite Hrun in Hrun2. injection Hrun2 as <- <-.
  pose proof (avail_nonneg w) as HA.
  assert (Heof_env : st = COPY_FD_UNEXPECTED_EOF -> avail w < n_bytes).
  { intros ->. apply Hst. }
  assert (Hok_env : st = COPY_FD_OK -> n_bytes <= avail w).
  { intros ->. destruct Hst as (_ & Hm & Hl & _).
    rewrite Hm, zlen_slice in Hl by assumption. unfold avail. lia. }
  exists st, w', new. conj; try assumption.
  - intros ->. conj; [apply Hst| |].
    + apply (copy_fd_loop_eof _ _ _ _ _ Hpos Hrun).
    + apply (copy_fd_loop_eof _ _ _ _ _ Hpos Hrun).
  - intros ->. apply Hst.
  - intros ->. apply Hst.
  - intros [Hreads Hwrites].
    assert (Hkinds : st = COPY_FD_OK \/ st = COPY_FD_UNEXPECTED_EOF).
    { destruct st; auto.
      - destruct Hst as (_ & Hin & _). exfalso.
        rewrite Stdlib.Lists.List.Forall_forall in Hreads.
        apply (Hreads Rd_fail Hin). reflexivity.
      - destruct Hst as (_ & Hne & _). contradiction. }
    split; split; auto.
    + intros Hle. destruct Hkinds as [->| ->]; [reflexivity|].
      specialize (Heof_env eq_refl). lia.
    + intros Hlt. destruct Hkinds as [->| ->]; [|reflexivity].
      specialize (Hok_env eq_refl). lia.
Qed.

End CopyFdStatus.

Lemma copy_fd_status_meaning_witness :
  let w := file_of (bytes "abcdef") in
  exists w' new,
    copy_fd lp64 3 w = Ret COPY_FD_OK w' /\ trace w' = new ++ trace w /\
    src_pos w' = src_pos w + 3 /\
    out w' = out w ++ slice (src_data w) (src_pos w) 3 /\
    ~ Exists (fun e => is_end_of_input e = true) new /\
    ~ Exists (fun e => is_read_error e = true) new /\
    ~ Exists (fun e => is_short_write e = true) new.
Proof.
  intros w.
  destruct (copy_fd_status_meaning lp64 wf_lp64 3 w ltac:(lia)
              ltac:(simpl; lia))
    as (st & w' & new & Hrun & Htr & Hok & Heof & Hrd & Hwr & _ & _ & _ & _
        & Hquiet).
  destruct (Hquiet ltac:(split; [constructor|reflexivity])) as [[Hst _] _].
  specialize (Hst ltac:(vm_compute; congruence)). subst st.
  destruct Hok as [Hok _]. destruct (Hok eq_refl) as (Hp & Ho & _).
  exists w', new. conj; try assumption.
  - intros Hex. apply Heof in Hex. discriminate.
  - intros Hex. apply Hrd in Hex. discriminate.
  - intros Hex. apply Hwr in Hex. discriminate.
Defined.

(** A file that ends before [n_bytes] bytes are there. *)
Example scenario_copy_fd_eof :
  exists w',
    copy_fd lp64 9 (file_of (bytes "abcdef")) = Ret COPY_FD_UNEXPECTED_EOF w'
    /\ out w' = bytes "abcdef"
    /\ trace w' = [Ev_read 3 (Some 0); Ev_write 199 6 6; Ev_read 9 (Some 6)].
Proof. eexists. conj; vm_compute; reflexivity. Qed.


Section LinesPipe.

Variable P : platform.
Hypothesis WF : wf_platform P.
Variable n_elide : Z.
Hypothesis Hn_elide : 0 <= n_elide.



Lemma total_nlines_nonneg (q : list LBUFFER) :
  Forall (lbuffer_fits P) q -> 0 <= total_nlines q.
Proof.
  induction 1 as [|x q (_ & _ & _ & Hx) _ IH]; simpl; lia.
Qed.






End LinesPipe.


(** ** elide_tail_lines_seekable when nothing fails *)

Section LinesSeekable.

Variable P : platform.
Hypothesis WF : wf_platform P.






End LinesSeekable.


(** ** Boundary cases *)






Section Boundary.

Variable P : platform.
Hypothesis WF : wf_platform P.


End Boundary.

Lemma regular_file_of (data : list byte) : regular_file (file_of data).
Proof.
  repeat split.
Qed.

Lemma quiet_file_of (data : list byte) : quiet (file_of data).
Proof.
  split; [constructor|reflexivity].
Qed.



(** ** Writes that come short *)

Lemma ends_bind {A B} (m : M A) (k : A -> M B) (w : world)
    (Q : A -> world -> Prop) (Q' : B -> world -> Prop) (E : world -> Prop) :
  ends m w Q E -> (forall a w', Q a w' -> ends (k a) w' Q' E) ->
  ends (bind m k) w Q' E.
Proof.
  unfold ends, bind. destruct (m w) as [a w'| | |]; intros H Hk;
    [apply Hk|..]; assumption.
Qed.

Lemma ends_weaken {A} (m : M A) (w : world)
    (Q Q' : A -> world -> Prop) (E : world -> Prop) :
  ends m w Q E -> (forall a w', Q a w' -> Q' a w') -> ends m w Q' E.
Proof.
  unfold ends. destruct (m w) as [a w'| | |]; intros H Hk;
    [apply Hk|..]; assumption.
Qed.

Lemma ends_ret {A} (a : A) (w : world) (Q : A -> world -> Prop)
    (E : world -> Prop) :
  Q a w -> ends (ret a) w Q E.
Proof.
  intros H. exact H.
Qed.

Lemma eventful_spec (e : event) :
  eventful e = checked_short e || is_diagnostic e.
Proof.
  destruct e; simpl; try reflexivity. rewrite orb_false_r. reflexivity.
Qed.

Lemma carries_on_refl (w : world) : carries_on w w.
Proof.
  split; auto.
  - exists []. split; [reflexivity|constructor].
  - exists []. rewrite app_nil_r. reflexivity.
Qed.

Lemma carries_on_trans (w1 w2 w3 : world) :
  carries_on w1 w2 -> carries_on w2 w3 -> carries_on w1 w3.
Proof.
  intros [Hd1 Hp1 (n1 & Ht1 & Hc1) (o1 & Ho1)]
         [Hd2 Hp2 (n2 & Ht2 & Hc2) (o2 & Ho2)].
  split.
  - congruence.
  - auto.
  - exists (n2 ++ n1). rewrite Ht2, Ht1, app_assoc. split; [reflexivity|].
    apply Forall_app. split; assumption.
  - exists (o1 ++ o2). rewrite Ho2, Ho1, app_assoc. reflexivity.
Qed.

(** One more event that is neither a checked short write nor a
    diagnostic. *)
Lemma carries_on_event (w0 w w' : world) (e : event) :
  carries_on w0 w -> src_data w' = src_data w ->
  (0 <= src_pos w -> 0 <= src_pos w') ->
  trace w' = e :: trace w -> eventful e = false ->
  (exists printed, out w' = out w ++ printed) ->
  carries_on w0 w'.
Proof.
  intros Hco Hd Hp Ht He Ho. apply (carries_on_trans _ w); [assumption|].
  split; auto. exists [e]. split; [assumption|]. constructor; auto.
Qed.

Lemma carries_on_log (w0 w : world) (e : event) :
  eventful e = false -> carries_on w0 w -> carries_on w0 (log e w).
Proof.
  intros He Hco. apply (carries_on_event w0 w _ e); auto.
  exists []. simpl. rewrite app_nil_r. reflexivity.
Qed.

(** A checked write that comes short, after none that did. *)
Lemma short_write_event (w0 w w' : world) (e : event) :
  carries_on w0 w -> trace w' = e :: trace w -> checked_short e = true ->
  (exists printed, out w' = out w ++ printed) -> short_written w0 w'.
Proof.
  intros [_ _ (new & Ht & Hc) (pr & Ho)] Ht' He (pr' & Ho').
  exists e, new, (pr ++ pr'). rewrite Ht', Ht, Ho', Ho, app_assoc. auto.
Qed.

(** The diagnostic of a write, printed right after the write. *)
Lemma report_write (w0 w : world) (m : message) :
  short_written w0 w -> is_write_message m = true ->
  reported 0 w0 (log (Ev_error 0 m) w).
Proof.
  intros (e & rest & pr & Ht & He & Hc & Ho) Hm.
  exists m, (e :: rest), pr. simpl. rewrite Ht, Ho.
  conj; auto. right. conj; auto. exists e, rest. auto.
Qed.

(** Another diagnostic, printed when no checked write has come short. *)
Lemma report_other (status : Z) (w0 w : world) (m : message) :
  carries_on w0 w -> is_write_message m = false ->
  reported status w0 (log (Ev_error status m) w).
Proof.
  intros [_ _ (new & Ht & Hc) (pr & Ho)] Hm.
  exists m, new, pr. simpl. rewrite Ht, Ho. auto.
Qed.


Lemma quiet_event (e : event) :
  eventful e = false ->
  checked_short e = false /\ is_diagnostic e = false
  /\ write_diagnostic e = false.
Proof.
  rewrite eventful_spec, orb_false_iff. intros [Hc Hd]. conj; auto.
  destruct e; try reflexivity. discriminate.
Qed.

Lemma short_write_is_write (e : event) :
  checked_short e = true ->
  is_diagnostic e = false /\ write_diagnostic e = false.
Proof.
  destruct e; simpl; try discriminate. auto.
Qed.

Lemma write_diagnostic_spec (status : Z) (m : message) :
  write_diagnostic (Ev_error status m) = is_write_message m && (status =? 0).
Proof.
  destruct m; reflexivity.
Qed.

Lemma quiet_events (new : list event) :
  Forall (fun e => eventful e = false) new ->
  Forall (fun e => is_diagnostic e = false) new
  /\ ~ Exists (fun e => checked_short e = true) new
  /\ ~ Exists (fun e => write_diagnostic e = true) new.
Proof.
  induction 1 as [|e l He Hl (IH1 & IH2 & IH3)].
  - conj; [constructor|intros Hex; inversion Hex..].
  - apply quiet_event in He as (Hc & Hd & Hw). conj.
    + constructor; assumption.
    + intros Hex. inversion Hex; subst; [congruence|auto].
    + intros Hex. inversion Hex; subst; [congruence|auto].
Qed.

Section CheckedWrites.

Variable P : platform.
Hypothesis WF : wf_platform P.

Section From.

Variable w0 : world.
Hypothesis Hw0 : 0 <= src_pos w0.

Lemma carries_on_pos (w : world) : carries_on w0 w -> 0 <= src_pos w.
Proof.
  intros [_ Hp _ _]. auto.
Qed.

Lemma safe_read_ends (count : Z) (w : world) :
  carries_on w0 w ->
  ends (safe_read count) w
    (fun r w' =>
       carries_on w0 w'
       /\ match r with
          | None => avail w' = avail w
          | Some data =>
              0 <= zlen data /\ zlen data <= Z.max 0 count
              /\ avail w' = avail w - zlen data
              /\ (1 <= count -> 1 <= avail w -> 1 <= zlen data)
          end)
    (stopped w0).
Proof.
  intros Hco. pose proof (carries_on_pos w Hco) as Hpos.
  pose proof (avail_nonneg w) as Hav.
  destruct (safe_read_spec count w)
    as (r & w' & Hrun & Hf & Hout & _ & _ & _ & Hr).
  unfold ends. rewrite Hrun. destruct r as [data|].
  - destruct Hr as (n & _ & Hn0 & Hn1 & Hn2 & _ & Hpos' & Htr & Hlen).
    specialize (Hlen Hpos). split.
    + apply (carries_on_event w0 w w' (Ev_read count (Some n))); auto.
      * apply Hf.
      * lia.
      * exists []. rewrite Hout, app_nil_r. reflexivity.
    + rewrite Hlen. conj; try lia.
      apply avail_advance; [assumption|assumption|lia|lia].
  - destruct Hr as (_ & Hpos' & Htr).
    split; [|rewrite (avail_advance w w' 0); auto; lia].
    apply (carries_on_event w0 w w' (Ev_read count None)); auto.
    + apply Hf.
    + lia.
    + exists []. rewrite Hout, app_nil_r. reflexivity.
Qed.

Lemma full_read_loop_ends (fuel : nat) (count : Z) (total : list byte)
    (w : world) :
  carries_on w0 w -> count <= Z.of_nat fuel ->
  ends (full_read_loop fuel count total) w
    (fun r w' =>
       carries_on w0 w' /\ zlen total <= zlen (fst r)
       /\ zlen (fst r) - zlen total <= Z.max 0 count
       /\ avail w' = avail w - (zlen (fst r) - zlen total))
    (stopped w0).
Proof.
  revert count total w. induction fuel as [|fuel IH];
    intros count total w Hco Hfuel.
  - simpl. replace (0 <? count) with false by (symmetry; apply Z.ltb_ge; lia).
    apply ends_ret. simpl. conj; [assumption|lia..].
  - simpl. destruct (0 <? count) eqn:Hcount.
    2:{ apply ends_ret. simpl. conj; [assumption|lia..]. }
    apply Z.ltb_lt in Hcount.
    eapply ends_bind; [apply safe_read_ends; assumption|].
    intros [data|] w1 [Hco1 Hr].
    2:{ apply ends_ret. simpl. conj; [assumption|lia..]. }
    destruct Hr as (Hd0 & Hd1 & Hav & _).
    destruct (zlen data =? 0) eqn:Hz.
    { apply Z.eqb_eq in Hz. apply ends_ret. simpl. conj; [assumption|lia..]. }
    apply Z.eqb_neq in Hz.
    eapply ends_weaken; [apply IH; [assumption|lia]|].
    intros [data' errno] w2. simpl. rewrite zlen_app.
    intros (Hco2 & Hl0 & Hl1 & Hav2). conj; [assumption|lia..].
Qed.

Lemma full_read_ends (count : Z) (w : world) :
  carries_on w0 w ->
  ends (full_read count) w
    (fun r w' =>
       carries_on w0 w' /\ 0 <= zlen (fst r)
       /\ zlen (fst r) <= Z.max 0 count
       /\ avail w' = avail w - zlen (fst r))
    (stopped w0).
Proof.
  intros Hco. unfold full_read.
  eapply ends_weaken; [apply full_read_loop_ends; [assumption|lia]|].
  intros r w'. change (zlen (@nil byte)) with 0.
  intros (Hco' & Hl0 & Hl1 & Hav). conj; [assumption|lia..].
Qed.

(** A write: checked or not, it leaves the input alone and adds to the
    output. *)
Lemma fwrite_ends (line : Z) (buf : list byte) (off n : Z) (w : world) :
  carries_on w0 w ->
  ends (fwrite line buf off n) w
    (fun a w' =>
       avail w' = avail w
       /\ if is_checked_line line && (a <? n)
          then short_written w0 w' else carries_on w0 w')
    (stopped w0).
Proof.
  intros Hco. unfold ends, fwrite.
  destruct ((0 <=? off) && (0 <=? n) && (off + n <=? zlen buf));
    [|left; assumption].
  split; [reflexivity|].
  match goal with |- context [log (Ev_write line n ?a) (after_write ?d w)] =>
    set (written := a); set (data := d) end.
  destruct (is_checked_line line && (written <? n)) eqn:Hshort.
  - apply (short_write_event w0 w _ (Ev_write line n written)).
    + assumption.
    + reflexivity.
    + exact Hshort.
    + exists data. reflexivity.
  - apply (carries_on_event w0 w _ (Ev_write line n written)); auto.
    exists data. reflexivity.
Qed.

Lemma fwrite_unchecked (line : Z) (buf : list byte) (off n : Z) (w : world) :
  is_checked_line line = false -> carries_on w0 w ->
  ends (fwrite line buf off n) w
    (fun _ w' => avail w' = avail w /\ carries_on w0 w') (stopped w0).
Proof.
  intros Hline Hco.
  eapply ends_weaken; [apply fwrite_ends; assumption|].
  intros a w'. rewrite Hline. simpl. auto.
Qed.

Lemma fwrite_slot_unchecked (line : Z) (b : list (option (list byte)))
    (k off n : Z) (w : world) :
  is_checked_line line = false -> carries_on w0 w ->
  ends (fwrite_slot line b k off n) w
    (fun _ w' => avail w' = avail w /\ carries_on w0 w') (stopped w0).
Proof.
  intros Hline Hco. unfold fwrite_slot.
  destruct (k <? 0); [left; exact Hco|].
  destruct (b !! Z.to_nat k); [|left; exact Hco].
  apply fwrite_unchecked; assumption.
Qed.

(** A checked write followed by its test. *)
Lemma fwrite_checked (line : Z) (buf : list byte) (off n : Z) (w : world) :
  is_checked_line line = true -> carries_on w0 w ->
  ends (n_written <- fwrite line buf off n ;; ret (n_written <? n)) w
    (fun failed w' =>
       avail w' = avail w
       /\ if failed then short_written w0 w' else carries_on w0 w')
    (stopped w0).
Proof.
  intros Hline Hco. eapply ends_bind; [apply fwrite_ends; assumption|].
  intros a w' [Hav Hw']. apply ends_ret. split; [assumption|].
  rewrite Hline in Hw'. exact Hw'.
Qed.


Lemma error_ends {A} (m : message) (k : M A) (w : world)
    (Q : A -> world -> Prop) (E : world -> Prop) :
  ends k (log (Ev_error 0 m) w) Q E -> ends (error 0 m ;;; k) w Q E.
Proof.
  intros H. exact H.
Qed.

Lemma xmalloc_ends {A} (n : Z) (k : list byte -> M A) (w : world)
    (Q : A -> world -> Prop) (E : world -> Prop) :
  ends (k (repeat (junk w) (Z.to_nat n))) (log (Ev_xmalloc n) w) Q E ->
  ends (bind (xmalloc n) k) w Q E.
Proof.
  intros H. exact H.
Qed.





(** The ring strategy of elide_tail_bytes_pipe. *)
Lemma ring_loop_ends (fuel : nat) (n_bufs : Z)
    (b : list (option (list byte))) (i i_next : Z) (buffered_enough : bool)
    (w : world) :
  avail w < Z.of_nat fuel -> carries_on w0 w ->
  ends (ring_loop P fuel n_bufs b i i_next buffered_enough) w
    (fun x w' =>
       ring_fail x = false /\ carries_on w0 w'
       \/ ring_fail x = true /\ reported 0 w0 w')
    (stopped w0).
Proof.
  pose proof (wf_READ_BUFSIZE P WF) as HR.
  revert b i i_next buffered_enough w.
  induction fuel as [|fuel IH];
    intros b i i_next buffered_enough w Hfuel Hco.
  { pose proof (avail_nonneg w). lia. }
  cbn [ring_loop].
  destruct (b !! Z.to_nat i) as [slot|]; [|left; exact Hco].
  eapply ends_bind
    with (Q := fun (_ : list byte) w' =>
                 avail w' = avail w /\ carries_on w0 w').
  { destruct slot.
    - apply ends_ret. auto.
    - split; [reflexivity|]. apply carries_on_log; auto. }
  intros b_i w1 [Hav1 Hco1].
  eapply ends_bind; [apply full_read_ends; assumption|].
  intros [data errno] w2 (Hco2 & Hl0 & Hl1 & Hav2). cbn [fst] in *.
  cbn beta iota zeta.
  destruct ((zlen data <? READ_BUFSIZE P) && errno).
  { apply error_ends, ends_ret. right. split; [reflexivity|].
    apply report_other; auto. }
  eapply ends_bind
    with (Q := fun (failed : bool) w' =>
                 avail w' = avail w2
                 /\ if failed then short_written w0 w' else carries_on w0 w').
  { destruct (buffered_enough || (i + 1 =? n_bufs)).
    - unfold fwrite_slot. destruct (i_next <? 0); [left; exact Hco2|].
      destruct (_ !! Z.to_nat i_next); [|left; exact Hco2].
      apply fwrite_checked; [reflexivity|assumption].
    - apply ends_ret. auto. }
  intros failed w3 [Hav3 H3]. destruct failed.
  { apply error_ends, ends_ret. right. split; [reflexivity|].
    apply report_write; auto. }
  destruct (n_bufs =? 0); [left; exact H3|].
  destruct (zlen data <? READ_BUFSIZE P) eqn:Heof.
  { apply ends_ret. left. split; [reflexivity|assumption]. }
  apply Z.ltb_ge in Heof. apply IH; [lia|assumption].
Qed.

Lemma ring_remainder_ends (rem n_bufs : Z) (x : ring_exit) (w : world) :
  carries_on w0 w ->
  ends (ring_remainder P rem n_bufs x) w
    (fun _ w' => carries_on w0 w') (stopped w0).
Proof.
  intros Hco. unfold ring_remainder. cbn zeta.
  destruct (negb (rem =? 0)); [|apply ends_ret; assumption].
  destruct (ring_buffered_enough x).
  - destruct (rem <? READ_BUFSIZE P - ring_n_read x).
    + eapply ends_bind;
        [apply fwrite_slot_unchecked; [reflexivity|assumption]|].
      intros a w1 [_ Hco1]. apply ends_ret. assumption.
    + eapply ends_bind;
        [apply fwrite_slot_unchecked; [reflexivity|assumption]|].
      intros a w1 [_ Hco1].
      eapply ends_bind;
        [apply fwrite_slot_unchecked; [reflexivity|assumption]|].
      intros a' w2 [_ Hco2]. apply ends_ret. assumption.
  - destruct (ring_i x + 1 =? n_bufs); [|apply ends_ret; assumption].
    eapply ends_bind;
      [apply fwrite_slot_unchecked; [reflexivity|assumption]|].
    intros a w1 [_ Hco1]. apply ends_ret. assumption.
Qed.

(** Lines 331-395, once the array is there. *)
Lemma ring_strategy_ends (fuel : nat) (rem n_bufs : Z)
    (b : list (option (list byte))) (w : world) :
  avail w < Z.of_nat fuel -> carries_on w0 w ->
  ends (x <- ring_loop P fuel n_bufs b 0 1 false ;;
        if ring_fail x then ret 1
        else ring_remainder P rem n_bufs x ;;; ret 0) w
    (fun r w' => r = 0 /\ carries_on w0 w' \/ r = 1 /\ reported 0 w0 w')
    (stopped w0).
Proof.
  intros Hfuel Hco.
  eapply ends_bind; [apply ring_loop_ends; assumption|].
  intros x w2 Hx. destruct (ring_fail x) eqn:Hfail.
  - apply ends_ret. destruct Hx as [[Hx _]|[_ Hx]]; [congruence|auto].
  - destruct Hx as [[_ Hx]|[Hx _]]; [|congruence].
    eapply ends_bind; [apply ring_remainder_ends; assumption|].
    intros u w3 Hco3. apply ends_ret. left. split; [reflexivity|assumption].
Qed.







Lemma scan_back_ends (fuel : nat) (buf : list byte) (n n_lines : Z)
    (w : world) (E : world -> Prop) :
  0 <= n -> n <= Z.of_nat fuel ->
  ends (scan_back P fuel buf n n_lines) w (fun _ w' => w' = w) E.
Proof.
  revert n n_lines. induction fuel as [|fuel IH]; intros n n_lines Hn Hfuel.
  { simpl. replace (n =? 0) with true by (symmetry; apply Z.eqb_eq; lia).
    reflexivity. }
  simpl. destruct (n =? 0) eqn:Hn0; [reflexivity|].
  apply Z.eqb_neq in Hn0. unfold memrchr.
  pose proof (rindex_LF_spec (slice buf 0 n)) as Hidx.
  destruct (rindex_LF (slice buf 0 n)) as [nl|]; [|reflexivity].
  destruct (n_lines =? 0); [reflexivity|].
  destruct Hidx as (pre & post & Hseg & Hnl & _).
  assert (Hlen : zlen (slice buf 0 n) <= n)
    by (rewrite zlen_slice by lia; lia).
  rewrite Hseg, zlen_app, zlen_cons in Hlen.
  pose proof (zlen_nonneg pre). pose proof (zlen_nonneg post).
  apply IH; lia.
Qed.




End From.

Lemma ends_reports (m : M Z) (w : world) :
  ends m w (fun r w' => r = 0 /\ carries_on w w' \/ r = 1 /\ reported 0 w w')
    (stopped w) ->
  reports_checked_writes (m w) w.
Proof.
  unfold ends, reports_checked_writes.
  assert (Hclean : forall (o : outcome Z) w',
             final_world o = Some w' -> carries_on w w' ->
             (forall r, o = Ret r w' -> r = 0) ->
             reports_checked_writes o w).
  { intros o w' Ho [_ _ (new & Ht & Hc) (printed & Hp)] Hr.
    destruct (quiet_events new Hc) as (Hd & Hs & Hw).
    exists w', new, printed. conj; auto; contradiction. }
  assert (Htold : forall (o : outcome Z) status w',
             final_world o = Some w' -> reported status w w' ->
             (forall r, o = Ret r w' -> r = 1 /\ status = 0) ->
             (status = 0 -> o = Ret 1 w') ->
             reports_checked_writes o w).
  { intros o status w' Ho (msg & new & printed & Ht & Hp & Hcase) Hr Hs.
    exists w', (Ev_error status msg :: new), printed.
    split; [assumption|]. split; [exact Ht|]. split; [assumption|].
    destruct Hcase as [[Hm Hc]|(Hm & -> & e & rest & -> & He & Hc)].
    - destruct (quiet_events new Hc) as (Hd & Hns & Hnw). conj.
      + intros Hex. inversion Hex as [? ? Hhd|? ? Htl]; subst;
          [discriminate|contradiction].
      + intros Hex. inversion Hex as [? ? Hhd|? ? Htl]; subst;
          [|contradiction].
        rewrite write_diagnostic_spec, Hm in Hhd. discriminate.
      + intros r Hret. destruct (Hr r Hret) as [-> ->]. right.
        split; [reflexivity|]. exists msg, new. auto.
    - destruct (quiet_events rest Hc) as (Hd & Hns & Hnw).
      destruct (short_write_is_write e He) as [Hed Hew]. conj.
      + intros _. split; [apply Hs; reflexivity|].
        exists (Ev_error 0 msg), e, rest.
        rewrite write_diagnostic_spec, Hm. auto.
      + intros _. right. left. assumption.
      + intros r Hret. destruct (Hr r Hret) as [-> _]. right.
        split; [reflexivity|]. exists msg, (e :: rest).
        split; [reflexivity|]. constructor; assumption. }
  destruct (m w) as [r w'|s w'|w'|]; intros H.
  - destruct H as [[-> H]|[-> H]].
    + apply (Hclean _ w'); auto. intros r Hret. congruence.
    + apply (Htold _ 0 w'); auto. intros r Hret. split; congruence.
  - destruct H as [H|H].
    + apply (Hclean _ w'); auto. discriminate.
    + apply (Htold _ EXIT_FAILURE w'); auto; discriminate.
  - destruct H as [H|H].
    + apply (Hclean _ w'); auto. discriminate.
    + apply (Htold _ EXIT_FAILURE w'); auto; discriminate.
  - contradiction.
Qed.


End CheckedWrites.


(** The write of line 302 takes one byte of five: "write error", 1. *)
Example scenario_short_checked_write :
  exists w',
    elide_tail_bytes_pipe lp64 1
      (with_plans (pipe_of (bytes "abcdef")) [] [Wr_at_most 1] [])
    = Ret 1 w'
    /\ out w' = bytes "a"
    /\ trace w' = [Ev_error 0 write_error; Ev_write 302 5 1;
                   Ev_read 8187 (Some 0); Ev_read 8193 (Some 6);
                   Ev_xmalloc 16386].
Proof.
  eexists. conj; vm_compute; reflexivity.
Qed.


(** * The first N bytes or lines *)

Example scenario_head_bytes :
  result (head_bytes lp64 4 (pipe_of (bytes "abcdef")))
  = Some (0, bytes "abcd").
Proof. vm_compute. reflexivity. Qed.

Example scenario_head_lines :
  result_h (head_lines lp64 2
              (process_of (file_of (ln "a" ++ ln "b" ++ ln "c"))))
  = Some (0, ln "a" ++ ln "b").
Proof. vm_compute. reflexivity. Qed.

(** ** head_bytes *)

Section HeadBytes.

Variable P : platform.
Hypothesis WF : wf_platform P.

(** What [head_bytes] does on any descriptor and output. *)
Lemma head_bytes_loop_spec (fuel : nat) (buffer : list byte)
    (bytes_to_read n : Z) (w : world) :
  zlen buffer = BUFSIZ P -> 0 < bytes_to_read -> bytes_to_read <= BUFSIZ P ->
  0 <= n -> n <= UINTMAX_MAX P -> 0 <= src_pos w ->
  avail w < Z.of_nat fuel ->
  exists w' new printed,
    final_world (head_bytes_loop P fuel buffer bytes_to_read n w) = Some w' /\
    frame w w' /\
    trace w' = new ++ trace w /\ out w' = out w ++ printed /\
    printed = slice (src_data w) (src_pos w) (zlen printed) /\
    zlen printed <= src_pos w' - src_pos w /\
    src_pos w' - src_pos w <= Z.min n (avail w) /\
    (head_bytes_loop P fuel buffer bytes_to_read n w = Ret 0 w' /\
     zlen printed = Z.min n (avail w) /\
     src_pos w' = src_pos w + Z.min n (avail w) /\
     Forall (fun e => is_read_error e = false /\ is_short_write e = false) new
     \/ head_bytes_loop P fuel buffer bytes_to_read n w = Ret 1 w' /\
        In Rd_fail (read_plan w) /\
        (exists c rest,
            new = Ev_error 0 error_reading :: Ev_read c None :: rest /\
            Forall (fun e => is_read_error e = false
                             /\ is_short_write e = false) rest)
     \/ head_bytes_loop P fuel buffer bytes_to_read n w
        = Exit EXIT_FAILURE w' /\
        write_plan w <> [] /\
        (exists c k rest,
            new = Ev_error EXIT_FAILURE write_error
                  :: Ev_write 773 c k :: rest /\ k < c /\
            Forall (fun e => is_read_error e = false
                             /\ is_short_write e = false) rest)).
Proof.
  pose proof (wf_BUFSIZ P WF) as HBUF.
  pose proof (wf_BUFSIZ_size P WF) as HBS.
  revert buffer bytes_to_read n w.
  induction fuel as [|fuel IH];
    intros buffer btr n w Hbuf Hbtr0 Hbtr1 Hn0 Hn1 Hpos Hfuel.
  { pose proof (avail_nonneg w). lia. }
  pose proof (avail_nonneg w) as Hav.
  cbn [head_bytes_loop]. destruct (n =? 0) eqn:Hn.
  { apply Z.eqb_eq in Hn. subst n.
    exists w, [], []. rewrite app_nil_r.
    conj; auto with frames; try zlia.
    left. conj; auto; zlia. }
  apply Z.eqb_neq in Hn.
  set (btr' := if n <? btr then to_size_t P n else btr).
  assert (Hbtr' : btr' = Z.min n btr).
  { unfold btr'. destruct (n <? btr) eqn:Hlt.
    - apply Z.ltb_lt in Hlt. unfold to_size_t. rewrite Z.mod_small by lia. lia.
    - apply Z.ltb_ge in Hlt. lia. }
  destruct (safe_read_spec btr' w)
    as (r & w1 & Hread & Hf1 & Hout1 & Hwp1 & Hsp1 & Hrp1 & Hr).
  rewrite (bind_ret _ _ _ _ _ Hread).
  destruct r as [data|].
  2:{ destruct Hr as (Hhd & Hpos1 & Htr1).
      exists (log (Ev_error 0 error_reading) w1),
        [Ev_error 0 error_reading; Ev_read btr' None], [].
      rewrite app_nil_r.
      conj; auto with frames; try (simpl; zlia).
      - simpl. rewrite Htr1. reflexivity.
      - right. left. conj; [reflexivity| |eexists _, _; split;
                                             [reflexivity|constructor]].
        destruct (read_plan w); [discriminate|].
        injection Hhd as ->. left. reflexivity. }
  destruct Hr as (k & Hdata & Hk0 & Hkmax & Hk1 & _ & Hpos1 & Htr1 & Hlen).
  specialize (Hlen Hpos). cbv zeta. rewrite Hlen.
  destruct (k =? 0) eqn:Hk.
  { apply Z.eqb_eq in Hk.
    exists w1, [Ev_read btr' (Some k)], []. rewrite app_nil_r.
    assert (Hav0 : avail w = 0) by lia.
    conj; auto; try zlia.
    left. conj; [reflexivity|zlia|lia|].
    constructor; [|constructor]. split; reflexivity. }
  apply Z.eqb_neq in Hk.
  assert (Hstore : zlen (store buffer 0 data) = BUFSIZ P)
    by (rewrite zlen_store by lia; assumption).
  destruct (fwrite_spec 773 (store buffer 0 data) 0 k w1)
    as (a & w2 & Hwrite & Hf2 & Hpos2 & Hrp2 & Hsp2 & Hwp2 & Ha0 & Hak
        & Hfull & Hout2 & Htr2); try lia.
  rewrite (bind_ret _ _ _ _ _ Hwrite).
  assert (Hslice : slice (store buffer 0 data) 0 a = slice data 0 a).
  { apply (slice_store_prefix buffer data 0 a); lia. }
  assert (Hprefix : slice data 0 a = slice (src_data w) (src_pos w) a).
  { rewrite Hdata. unfold slice. change (Z.to_nat 0) with 0%nat.
    rewrite drop_0, take_take. f_equal. lia. }
  assert (Hlena : zlen (slice (src_data w) (src_pos w) a) = a).
  { rewrite <- Hprefix. rewrite zlen_slice by lia. lia. }
  destruct (a <? k) eqn:Hshort.
  { apply Z.ltb_lt in Hshort.
    exists (log (Ev_error EXIT_FAILURE write_error) w2),
      [Ev_error EXIT_FAILURE write_error; Ev_write 773 k a;
       Ev_read btr' (Some k)],
      (slice (src_data w) (src_pos w) a).
    conj; eauto with frames.
    - simpl. rewrite Htr2, Htr1. reflexivity.
    - simpl. rewrite Hout2, Hslice, Hprefix, Hout1. reflexivity.
    - rewrite Hlena. reflexivity.
    - simpl. lia.
    - simpl. lia.
    - right. right. conj; [reflexivity| |].
      + intros Hnil. rewrite Hwp1 in Hfull. specialize (Hfull Hnil). lia.
      + eexists _, _, _. conj; [reflexivity|assumption|].
        constructor; [|constructor]. split; reflexivity. }
  apply Z.ltb_ge in Hshort. assert (a = k) as -> by lia.
  rewrite ret_bind.
  assert (Hmod : to_uintmax_t P (n - k) = n - k).
  { unfold to_uintmax_t. apply Z.mod_small. lia. }
  rewrite Hmod.
  assert (Hav2 : avail w2 = avail w - k).
  { apply avail_advance; eauto with frames; lia. }
  destruct (IH (store buffer 0 data) btr' (n - k) w2)
    as (w' & new & printed & Hfin & Hf & Htr & Hout & Hpr & Hle1 & Hle2
        & Hcase); try lia.
  assert (Hd2 : src_data w2 = src_data w).
  { destruct Hf1 as [Hd1], Hf2 as [Hd2]. congruence. }
  pose proof (zlen_nonneg printed) as Hp0.
  exists w', (new ++ [Ev_write 773 k k; Ev_read btr' (Some k)]),
    (slice (src_data w) (src_pos w) k ++ printed).
  split; [assumption|]. split; [eauto with frames|].
  split; [rewrite Htr, Htr2, Htr1, <- app_assoc; reflexivity|].
  split; [rewrite Hout, Hout2, Hslice, Hprefix, Hout1, <- app_assoc;
          reflexivity|].
  split.
  { rewrite zlen_app, Hlena, slice_split by lia. f_equal.
    rewrite Hpr at 1. rewrite Hd2, Hpos2, Hpos1. reflexivity. }
  split; [rewrite zlen_app, Hlena; lia|]. split; [lia|].
  assert (Hcl : Forall (fun e => is_read_error e = false
                                 /\ is_short_write e = false)
                  [Ev_write 773 k k; Ev_read btr' (Some k)]).
  { constructor; [|constructor; [|constructor]]; split; try reflexivity.
    simpl. apply Z.ltb_irrefl. }
  destruct Hcase as [(Hrun & Hz & Hp' & Hc)
                    |[(Hrun & Hin & c & rest & -> & Hc)
                    |(Hrun & Hwp & c & k' & rest & -> & Hk' & Hc)]].
  - left. conj; [assumption|rewrite zlen_app, Hlena; lia|lia|].
    apply Forall_app. split; assumption.
  - right. left. conj; [assumption| |].
    + rewrite Hrp2, Hrp1 in Hin.
      destruct (read_plan w); [destruct Hin|right; exact Hin].
    + exists c, (rest ++ [Ev_write 773 k k; Ev_read btr' (Some k)]).
      split; [reflexivity|]. apply Forall_app. split; assumption.
  - right. right. conj; [assumption| |].
    + rewrite Hwp2, Hwp1 in Hwp. intros Hnil. rewrite Hnil in Hwp.
      apply Hwp. reflexivity.
    + exists c, k', (rest ++ [Ev_write 773 k k; Ev_read btr' (Some k)]).
      conj; [reflexivity|assumption|]. apply Forall_app. split; assumption.
Qed.

Lemma head_bytes_spec (n : Z) (w : world) :
  0 <= n -> n <= UINTMAX_MAX P -> 0 <= src_pos w ->
  exists w' new printed,
    final_world (head_bytes P n w) = Some w' /\
    frame w w' /\
    trace w' = new ++ trace w /\ out w' = out w ++ printed /\
    printed = slice (src_data w) (src_pos w) (zlen printed) /\
    zlen printed <= src_pos w' - src_pos w /\
    src_pos w' - src_pos w <= Z.min n (avail w) /\
    (head_bytes P n w = Ret 0 w' /\
     zlen printed = Z.min n (avail w) /\
     src_pos w' = src_pos w + Z.min n (avail w) /\
     Forall (fun e => is_read_error e = false /\ is_short_write e = false) new
     \/ head_bytes P n w = Ret 1 w' /\
        In Rd_fail (read_plan w) /\
        (exists c rest,
            new = Ev_error 0 error_reading :: Ev_read c None :: rest /\
            Forall (fun e => is_read_error e = false
                             /\ is_short_write e = false) rest)
     \/ head_bytes P n w = Exit EXIT_FAILURE w' /\
        write_plan w <> [] /\
        (exists c k rest,
            new = Ev_error EXIT_FAILURE write_error
                  :: Ev_write 773 c k :: rest /\ k < c /\
            Forall (fun e => is_read_error e = false
                             /\ is_short_write e = false) rest)).
Proof.
  intros Hn0 Hn1 Hpos. pose proof (wf_BUFSIZ P WF) as HBUF.
  unfold head_bytes, local_array, bind.
  apply head_bytes_loop_spec; try lia.
  unfold zlen. rewrite repeat_length. lia.
Qed.

Lemma head_bytes_quiet (n : Z) (w : world) :
  quiet w -> 0 <= src_pos w -> 0 <= n -> n <= UINTMAX_MAX P ->
  exists w',
    head_bytes P n w = Ret 0 w' /\
    out w' = out w ++ take (Z.to_nat n) (pending w) /\
    src_pos w' = src_pos w + Z.min n (zlen (pending w)).
Proof.
  intros [Hreads Hwrites] Hpos Hn0 Hn1.
  destruct (head_bytes_spec n w Hn0 Hn1 Hpos)
    as (w' & new & printed & _ & _ & _ & Hout & Hpr & _ & _ & Hcase).
  rewrite zlen_pending by assumption.
  destruct Hcase as [(Hrun & Hz & Hp' & _)|[(_ & Hin & _)|(_ & Hwp & _)]].
  - exists w'. conj; [assumption| |assumption].
    rewrite Hout, Hpr, Hz. f_equal. unfold slice. fold (pending w).
    pose proof (zlen_pending w Hpos) as Hlen. unfold zlen in Hlen.
    destruct (Z_le_gt_dec n (avail w)).
    + f_equal. lia.
    + rewrite !take_ge by lia. reflexivity.
  - exfalso. rewrite Stdlib.Lists.List.Forall_forall in Hreads.
    apply (Hreads Rd_fail); [assumption|reflexivity].
  - contradiction.
Qed.

(** On a descriptor whose reads may come short but do not fail, and an
    output that takes every write, [head_bytes] prints the first [n] bytes
    of the input (all of it when it has fewer), returns 0, and leaves the
    read offset right after the bytes it printed. *)
Theorem head_bytes_prints_first_bytes (n : Z) (w : world) :
  quiet w -> 0 <= src_pos w -> 0 <= n -> n <= UINTMAX_MAX P ->
  exists w',
    head_bytes P n w = Ret 0 w' /\
    out w' = out w ++ take (Z.to_nat n) (pending w) /\
    src_pos w' = src_pos w + Z.min n (zlen (pending w)).
Proof.
  apply head_bytes_quiet.
Qed.

(** Whatever the reads and writes do, [head_bytes] ends, and it has read
    at most [n] bytes and printed a prefix of what it read.  It returns 0
    when no read failed and no write came short; it returns 1 right after
    the diagnostic "error reading" when a read failed; when a write came
    short it prints "write error" and exits with EXIT_FAILURE. *)
Theorem head_bytes_outcomes (n : Z) (w : world) :
  0 <= n -> n <= UINTMAX_MAX P -> 0 <= src_pos w ->
  exists w' new printed,
    final_world (head_bytes P n w) = Some w' /\
    trace w' = new ++ trace w /\ out w' = out w ++ printed /\
    printed = take (length printed) (pending w) /\
    zlen printed <= src_pos w' - src_pos w /\
    src_pos w' - src_pos w <= n /\
    (head_bytes P n w = Ret 0 w' /\
     ~ Exists (fun e => is_read_error e = true) new /\
     ~ Exists (fun e => is_short_write e = true) new
     \/ head_bytes P n w = Ret 1 w' /\
        (exists c rest,
            new = Ev_error 0 error_reading :: Ev_read c None :: rest /\
            ~ Exists (fun e => is_short_write e = true) rest)
     \/ head_bytes P n w = Exit EXIT_FAILURE w' /\
        (exists c k rest,
            new = Ev_error EXIT_FAILURE write_error
                  :: Ev_write 773 c k :: rest /\ k < c /\
            ~ Exists (fun e => is_read_error e = true) rest)).
Proof.
  intros Hn0 Hn1 Hpos.
  destruct (head_bytes_spec n w Hn0 Hn1 Hpos)
    as (w' & new & printed & Hfin & _ & Htr & Hout & Hpr & Hle1 & Hle2
        & Hcase).
  assert (Hno : forall l,
             Forall (fun e => is_read_error e = false
                              /\ is_short_write e = false) l ->
             ~ Exists (fun e => is_read_error e = true) l
             /\ ~ Exists (fun e => is_short_write e = true) l).
  { intros l Hl. induction Hl as [|e l [He1 He2] Hl [IH1 IH2]].
    - split; intros Hex; inversion Hex.
    - split; intros Hex; inversion Hex; subst; try congruence; auto. }
  exists w', new, printed.
  conj; try assumption; [|lia|].
  - rewrite Hpr at 1. unfold slice, zlen, pending.
    rewrite Nat2Z.id. reflexivity.
  - destruct Hcase as [(Hrun & _ & _ & Hc)
                      |[(Hrun & _ & c & rest & -> & Hc)
                      |(Hrun & _ & c & k & rest & -> & Hk & Hc)]].
    + left. conj; [assumption|apply Hno, Hc..].
    + right. left. split; [assumption|]. exists c, rest.
      split; [reflexivity|apply Hno, Hc].
    + right. right. split; [assumption|]. exists c, k, rest.
      conj; [reflexivity|assumption|apply Hno, Hc].
Qed.

End HeadBytes.

Lemma quiet_pipe_of (data : list byte) : quiet (pipe_of data).
Proof.
  split; [constructor|reflexivity].
Qed.

Lemma head_bytes_prints_first_bytes_witness :
  exists w',
    head_bytes lp64 4 (pipe_of (bytes "abcdef")) = Ret 0 w' /\
    out w' = out (pipe_of (bytes "abcdef"))
             ++ take (Z.to_nat 4) (pending (pipe_of (bytes "abcdef"))) /\
    src_pos w' = src_pos (pipe_of (bytes "abcdef"))
                 + Z.min 4 (zlen (pending (pipe_of (bytes "abcdef")))).
Proof.
  apply (head_bytes_prints_first_bytes lp64 wf_lp64 4
           (pipe_of (bytes "abcdef")) (quiet_pipe_of _));
    simpl; lia.
Defined.

Lemma head_bytes_outcomes_witness :
  let w := with_plans (pipe_of (bytes "abcdef")) [] [Wr_at_most 1] [] in
  exists w' new printed,
    final_world (head_bytes lp64 4 w) = Some w' /\
    trace w' = new ++ trace w /\ out w' = out w ++ printed /\
    printed = take (length printed) (pending w) /\
    zlen printed <= src_pos w' - src_pos w /\
    src_pos w' - src_pos w <= 4 /\
    (head_bytes lp64 4 w = Ret 0 w' /\
     ~ Exists (fun e => is_read_error e = true) new /\
     ~ Exists (fun e => is_short_write e = true) new
     \/ head_bytes lp64 4 w = Ret 1 w' /\
        (exists c rest,
            new = Ev_error 0 error_reading :: Ev_read c None :: rest /\
            ~ Exists (fun e => is_short_write e = true) rest)
     \/ head_bytes lp64 4 w = Exit EXIT_FAILURE w' /\
        (exists c k rest,
            new = Ev_error EXIT_FAILURE write_error
                  :: Ev_write 773 c k :: rest /\ k < c /\
            ~ Exists (fun e => is_read_error e = true) rest)).
Proof.
  intros w. apply (head_bytes_outcomes lp64 wf_lp64 4 w); simpl; lia.
Defined.

(** A write that takes one byte of four: "write error", and the run ends
    with EXIT_FAILURE. *)
Example scenario_head_bytes_short_write :
  exists w',
    head_bytes lp64 4
      (with_plans (pipe_of (bytes "abcdef")) [] [Wr_at_most 1] [])
    = Exit EXIT_FAILURE w'
    /\ out w' = bytes "a"
    /\ trace w' = [Ev_error 1 write_error; Ev_write 773 4 1;
                   Ev_read 4 (Some 4)].
Proof.
  eexists. conj; vm_compute; reflexivity.
Qed.

(** ** head_lines *)

Lemma lift_ret {A} (m : M A) (p : process) (a : A) (w : world) :
  m (io p) = Ret a w -> lift m p = Returned a (Process w (head_diagnostics p)).
Proof. unfold lift. intros ->. reflexivity. Qed.

Lemma bind_h_ret {A B} (m : MH A) (k : A -> MH B) (p p' : process) (a : A) :
  m p = Returned a p' -> bind_h m k p = k a p'.
Proof. unfold bind_h. intros ->. reflexivity. Qed.

Lemma bind_h_lift {A B} (m : M A) (k : A -> MH B) (p : process) (a : A)
    (w : world) :
  m (io p) = Ret a w ->
  bind_h (lift m) k p = k a (Process w (head_diagnostics p)).
Proof. intros H. apply bind_h_ret, lift_ret, H. Qed.

Ltac step_h H :=
  match goal with
  | |- context [bind_h (lift ?m) ?k ?p] =>
      rewrite (bind_h_lift m k p _ _ H); cbn [io head_diagnostics]
  end.

Lemma slice_cons {A} (l : list A) (off n : Z) (c : A) :
  l !! Z.to_nat off = Some c -> 0 <= off -> 1 <= n ->
  slice l off n = c :: slice l (off + 1) (n - 1).
Proof.
  intros Hc Hoff Hn. unfold slice.
  rewrite (drop_S l c (Z.to_nat off) Hc).
  replace (Z.to_nat n) with (S (Z.to_nat (n - 1))) by lia.
  replace (Z.to_nat (off + 1)) with (S (Z.to_nat off)) by lia.
  reflexivity.
Qed.

Lemma head_lines_loop_done (P : platform) (fuel : nat) (buffer : list byte)
    (p : process) :
  head_lines_loop P fuel buffer 0 p = Returned 0 p.
Proof. destruct fuel; reflexivity. Qed.

Section HeadLines.

Variable P : platform.
Hypothesis WF : wf_platform P.

(** The scan of lines 802-817 stops right after the newline that ends
    line [lines_to_write], if the buffer has it. *)
Lemma head_lines_scan_spec (fuel : nat) (buffer : list byte)
    (bytes_read bytes_to_write lines_to_write : Z) (w : world) :
  0 <= bytes_to_write -> bytes_to_write <= bytes_read ->
  bytes_read <= zlen buffer ->
  1 <= lines_to_write -> lines_to_write <= UINTMAX_MAX P ->
  bytes_read - bytes_to_write <= Z.of_nat fuel ->
  exists bytes_to_write' lines_to_write' found,
    head_lines_scan P fuel buffer bytes_read bytes_to_write lines_to_write w
    = Ret (bytes_to_write', lines_to_write', found) w /\
    bytes_to_write <= bytes_to_write' /\ bytes_to_write' <= bytes_read /\
    slice buffer bytes_to_write (bytes_to_write' - bytes_to_write)
    = upto_LF (slice buffer bytes_to_write (bytes_read - bytes_to_write))
        (Z.to_nat lines_to_write) /\
    if found
    then lines_to_write' = 0
         /\ lines_to_write
            <= count_LF (slice buffer bytes_to_write
                           (bytes_read - bytes_to_write))
    else bytes_to_write' = bytes_read
         /\ lines_to_write'
            = lines_to_write
              - count_LF (slice buffer bytes_to_write
                            (bytes_read - bytes_to_write))
         /\ count_LF (slice buffer bytes_to_write
                        (bytes_read - bytes_to_write)) < lines_to_write.
Proof.
  revert bytes_to_write lines_to_write.
  induction fuel as [|fuel IH]; intros btw lines Hb0 Hb1 Hbuf Hl0 Hl1 Hfuel.
  - assert (btw = bytes_read) as -> by lia. simpl.
    rewrite Z.ltb_irrefl.
    exists bytes_read, lines, false. rewrite !Z.sub_diag.
    change (slice buffer bytes_read 0) with (@nil byte). simpl.
    conj; auto; lia.
  - cbn [head_lines_scan]. destruct (btw <? bytes_read) eqn:Hlt.
    2:{ apply Z.ltb_ge in Hlt. assert (btw = bytes_read) as -> by lia.
        exists bytes_read, lines, false. rewrite !Z.sub_diag.
        change (slice buffer bytes_read 0) with (@nil byte). simpl.
        conj; auto; lia. }
    apply Z.ltb_lt in Hlt.
    destruct (lookup_lt_is_Some_2 buffer (Z.to_nat btw)) as [c Hc].
    { unfold zlen in Hbuf. lia. }
    rewrite Hc. cbv zeta.
    rewrite (slice_cons buffer btw (bytes_read - btw) c Hc) by lia.
    replace (bytes_read - btw - 1) with (bytes_read - (btw + 1)) by lia.
    set (seg := slice buffer (btw + 1) (bytes_read - (btw + 1))).
    pose proof (count_LF_nonneg seg) as Hseg.
    destruct (is_LF c) eqn:HLF.
    + unfold to_uintmax_t. rewrite Z.mod_small by lia.
      destruct (lines - 1 =? 0) eqn:Hlast.
      * apply Z.eqb_eq in Hlast. assert (lines = 1) as -> by lia.
        exists (btw + 1), 0, true. simpl. rewrite HLF, upto_LF_0.
        conj; [reflexivity|lia|lia| |reflexivity|lia].
        replace (btw + 1 - btw) with 1 by lia.
        rewrite (slice_cons buffer btw 1 c Hc) by lia. reflexivity.
      * apply Z.eqb_neq in Hlast.
        destruct (IH (btw + 1) (lines - 1))
          as (btw' & lines' & found & Hrun & Hle0 & Hle1 & Hsl & Hfound);
          try lia.
        exists btw', lines', found. fold seg in Hsl, Hfound.
        conj; [assumption|lia|lia| |].
        -- rewrite (slice_cons buffer btw (btw' - btw) c Hc) by lia.
           replace (btw' - btw - 1) with (btw' - (btw + 1)) by lia.
           rewrite Hsl.
           replace (Z.to_nat lines) with (S (Z.to_nat (lines - 1))) by lia.
           simpl. rewrite HLF. reflexivity.
        -- simpl. rewrite HLF. destruct found; conj; lia.
    + destruct (IH (btw + 1) lines)
        as (btw' & lines' & found & Hrun & Hle0 & Hle1 & Hsl & Hfound);
        try lia.
      exists btw', lines', found. fold seg in Hsl, Hfound.
      conj; [assumption|lia|lia| |].
      * rewrite (slice_cons buffer btw (btw' - btw) c Hc) by lia.
        replace (btw' - btw - 1) with (btw' - (btw + 1)) by lia.
        rewrite Hsl.
        replace (Z.to_nat lines) with (S (Z.to_nat (lines - 1))) by lia.
        simpl. rewrite HLF. reflexivity.
      * simpl. rewrite HLF. destruct found; conj; lia.
Qed.

(** The [lseek] of line 808, [d] bytes back from the offset. *)
Lemma lseek_back (d : Z) (w : world) :
  0 <= d -> d <= src_pos w ->
  exists r w',
    lseek (- d) SEEK_CUR w = Ret r w' /\ frame w w' /\ out w' = out w /\
    read_plan w' = read_plan w /\ write_plan w' = write_plan w /\
    (r <? 0)
    = (match seek_plan w with b :: _ => b | [] => false end
       || negb (src_seekable w)) /\
    src_pos w'
    = if match seek_plan w with b :: _ => b | [] => false end
         || negb (src_seekable w)
      then src_pos w else src_pos w - d.
Proof.
  intros Hd0 Hd1. unfold lseek.
  change (SEEK_CUR =? SEEK_SET) with false.
  change (SEEK_CUR =? SEEK_CUR) with true. cbv iota.
  destruct (match seek_plan w with b :: _ => b | [] => false end
            || negb (src_seekable w)) eqn:Hfails.
  - eexists _, _. split; [reflexivity|]. simpl.
    conj; auto with frames.
  - replace (0 <=? src_pos w + - d) with true
      by (symmetry; apply Z.leb_le; lia).
    eexists _, _. split; [reflexivity|]. simpl.
    replace (src_pos w + - d =? -1) with false
      by (symmetry; apply Z.eqb_neq; lia).
    conj; auto with frames; apply Z.ltb_ge; lia.
Qed.

Lemma head_lines_loop_quiet (fuel : nat) (buffer : list byte) (n : Z)
    (p : process) :
  quiet (io p) -> 0 <= src_pos (io p) -> zlen buffer = BUFSIZ P ->
  0 <= n -> n <= UINTMAX_MAX P -> BUFSIZ P <= OFF_T_MAX P ->
  avail (io p) < Z.of_nat fuel ->
  exists p',
    head_lines_loop P fuel buffer n p = Returned 0 p' /\
    frame (io p) (io p') /\
    out (io p') = out (io p) ++ upto_LF (pending (io p)) (Z.to_nat n) /\
    src_pos (io p) + zlen (upto_LF (pending (io p)) (Z.to_nat n))
    <= src_pos (io p') /\
    ((1 <=? n) && (n <=? count_LF (pending (io p)))
     && (match seek_plan (io p) with b :: _ => b | [] => false end
         || negb (src_seekable (io p))) = false ->
     src_pos (io p')
     = src_pos (io p) + zlen (upto_LF (pending (io p)) (Z.to_nat n))) /\
    head_diagnostics p'
    = if (1 <=? n) && (n <=? count_LF (pending (io p)))
         && (match seek_plan (io p) with b :: _ => b | [] => false end
             || negb (src_seekable (io p)))
         && match src_stat (io p) with Some is_reg => is_reg | None => true end
      then cannot_reposition_file_pointer :: head_diagnostics p
      else head_diagnostics p.
Proof.
  pose proof (wf_BUFSIZ P WF) as HBUF.
  pose proof (wf_BUFSIZ_size P WF) as HBS.
  revert buffer n p.
  induction fuel as [|fuel IH];
    intros buffer n [w diags] Hq Hpos Hbuf Hn0 Hn1 Hoff Hfuel;
    cbn [io head_diagnostics] in *.
  { pose proof (avail_nonneg w). lia. }
  cbn [head_lines_loop]. destruct (n =? 0) eqn:Hn.
  { apply Z.eqb_eq in Hn. subst n. eexists. split; [reflexivity|].
    cbn [io head_diagnostics]. rewrite upto_LF_0, app_nil_r.
    change (zlen (@nil byte)) with 0.
    conj; auto with frames; lia. }
  apply Z.eqb_neq in Hn.
  replace (1 <=? n) with true by (symmetry; apply Z.leb_le; lia).
  cbn [andb].
  destruct (safe_read_quiet (BUFSIZ P) w Hq Hpos ltac:(lia))
    as (k & w1 & Hread & Hf1 & Hq1 & Hout1 & Hpos1 & Hk0 & Hk1 & Hk2 & Hk3
        & _ & Hlen).
  destruct (safe_read_spec (BUFSIZ P) w)
    as (r' & w1' & Hread' & _ & _ & _ & Hsp1 & _).
  rewrite Hread in Hread'. injection Hread' as <- <-.
  step_h Hread.
  set (data := slice (src_data w) (src_pos w) k) in *.
  cbv zeta. rewrite Hlen.
  pose proof (pending_advance w w1 k Hf1 Hpos Hk0 Hpos1) as Hpend.
  fold data in Hpend.
  destruct (k =? 0) eqn:Hk.
  { apply Z.eqb_eq in Hk. eexists. split; [reflexivity|].
    cbn [io head_diagnostics].
    assert (Hav : avail w = 0) by (pose proof (avail_nonneg w); lia).
    rewrite (pending_nil w Hpos Hav). simpl.
    replace (n <=? 0) with false by (symmetry; apply Z.leb_gt; lia).
    rewrite app_nil_r. change (zlen (@nil byte)) with 0.
    conj; auto with frames; lia. }
  apply Z.eqb_neq in Hk.
  assert (Hstore : zlen (store buffer 0 data) = BUFSIZ P)
    by (rewrite zlen_store by lia; assumption).
  assert (Hseg : slice (store buffer 0 data) 0 k = data)
    by (apply slice_store_same; lia).
  destruct (head_lines_scan_spec (Z.to_nat k) (store buffer 0 data) k 0 n w1)
    as (btw & lines & found & Hscan & Hb0 & Hb1 & Hsl & Hfound); try lia.
  replace (btw - 0) with btw in Hsl by lia.
  replace (k - 0) with k in Hsl, Hfound by lia.
  rewrite Hseg in Hsl, Hfound.
  step_h Hscan.
  cbv iota beta.
  pose proof (count_LF_nonneg data) as Hc1.
  pose proof (count_LF_nonneg (pending w1)) as Hc2.
  assert (Hcount : count_LF (pending w) = count_LF data + count_LF (pending w1))
    by (rewrite Hpend, count_LF_app; reflexivity).
  assert (Hwritten : zlen (upto_LF data (Z.to_nat n)) = btw).
  { rewrite <- Hsl. apply zlen_slice_inside; lia. }
  destruct found.
  - destruct Hfound as [-> Hle].
    replace (n <=? count_LF (pending w)) with true
      by (symmetry; apply Z.leb_le; lia).
    cbn [andb].
    assert (Hd : to_off_t P (to_size_t P (k - btw)) = k - btw).
    { unfold to_off_t, to_size_t. rewrite (Z.mod_small (k - btw)) by lia.
      rewrite Z.mod_small by lia. lia. }
    rewrite Hd.
    destruct (lseek_back (k - btw) w1) as (r & w2 & Hseek & Hf2 & Hout2
                                           & Hrp2 & Hwp2 & Hr & Hpos2);
      try lia.
    rewrite bind_h_ret
      with (a := tt)
           (p' := Process w2
                    (if (match seek_plan w with b :: _ => b | [] => false end
                         || negb (src_seekable w))
                        && match src_stat w with
                           | Some is_reg => is_reg
                           | None => true
                           end
                     then cannot_reposition_file_pointer :: diags
                     else diags)).
    2:{ step_h Hseek.
        assert (Hst2 : src_stat w2 = src_stat w).
        { destruct Hf1 as [_ Hst1], Hf2 as [_ Hst2]. congruence. }
        destruct Hf1 as [_ _ Hsk1]. rewrite Hr, Hsp1, Hsk1.
        destruct (match seek_plan w with b :: _ => b | [] => false end
                  || negb (src_seekable w)); [|reflexivity].
        unfold bind_h, fstat_fails_or_regular. cbn [io andb]. rewrite Hst2.
        destruct (match src_stat w with Some is_reg => is_reg | None => true end);
          reflexivity. }
    assert (Hq2 : quiet w2) by (eapply frame_quiet; eassumption).
    destruct (fwrite_quiet 818 (store buffer 0 data) 0 btw w2 Hq2)
      as (w3 & Hwrite & Hf3 & Hq3 & Hpos3 & Hout3); try lia.
    step_h Hwrite.
    rewrite Z.ltb_irrefl.
    unfold ret_h at 1, bind_h at 1. rewrite head_lines_loop_done.
    eexists. split; [reflexivity|]. cbn [io head_diagnostics].
    assert (Hupto : upto_LF (pending w) (Z.to_nat n)
                    = upto_LF data (Z.to_nat n)).
    { rewrite Hpend. apply upto_LF_app_le. lia. }
    rewrite Hupto, Hwritten.
    pose proof Hf1 as [Hd1 Hst1 Hsk1]. rewrite Hsp1, Hsk1 in Hpos2.
    conj.
    + eauto with frames.
    + rewrite Hout3, Hout2, Hout1, Hsl. reflexivity.
    + rewrite Hpos3, Hpos2.
      destruct (match seek_plan w with b :: _ => b | [] => false end
                || negb (src_seekable w)); lia.
    + intros Hok. rewrite Hpos3, Hpos2, Hok. lia.
    + reflexivity.
  - destruct Hfound as (-> & -> & Hlt).
    unfold ret_h at 1, bind_h at 1.
    assert (Hq1' : quiet w1) by assumption.
    destruct (fwrite_quiet 818 (store buffer 0 data) 0 k w1 Hq1')
      as (w3 & Hwrite & Hf3 & Hq3 & Hpos3 & Hout3); try lia.
    destruct (fwrite_spec 818 (store buffer 0 data) 0 k w1)
      as (a' & w3' & Hwrite' & _ & _ & _ & Hsp3 & _); try lia.
    rewrite Hwrite in Hwrite'. injection Hwrite' as <- <-.
    step_h Hwrite.
    rewrite Z.ltb_irrefl.
    unfold ret_h at 1, bind_h at 1.
    assert (Hav3 : avail w3 = avail w - k).
    { apply avail_advance; eauto with frames; lia. }
    destruct (IH (store buffer 0 data) (n - count_LF data) (Process w3 diags))
      as (p' & Hloop & Hf & Hout & Hle & Hposeq & Hdiag);
      cbn [io head_diagnostics]; try assumption; try lia.
    cbn [io head_diagnostics] in *.
    assert (Hpend3 : pending w3 = pending w1).
    { unfold pending. destruct Hf3 as [Hd3]. rewrite Hd3, Hpos3. reflexivity. }
    rewrite Hpend3 in *.
    assert (Hupto : upto_LF (pending w) (Z.to_nat n)
                    = data ++ upto_LF (pending w1)
                                (Z.to_nat (n - count_LF data))).
    { rewrite Hpend, upto_LF_app_gt by lia. do 2 f_equal. lia. }
    assert (Hfound : (1 <=? n - count_LF data)
                     && (n - count_LF data <=? count_LF (pending w1))
                     = (n <=? count_LF (pending w))).
    { replace (1 <=? n - count_LF data) with true
        by (symmetry; apply Z.leb_le; lia).
      cbn [andb]. rewrite Hcount.
      destruct (n <=? count_LF data + count_LF (pending w1)) eqn:Hcmp.
      - apply Z.leb_le in Hcmp. apply Z.leb_le. lia.
      - apply Z.leb_gt in Hcmp. apply Z.leb_gt. lia. }
    rewrite Hfound in *.
    assert (Hseek3 : seek_plan w3 = seek_plan w) by congruence.
    assert (Hskb : src_seekable w3 = src_seekable w).
    { destruct Hf1 as [_ _ Hsk1], Hf3 as [_ _ Hsk3]. congruence. }
    assert (Hstat : src_stat w3 = src_stat w).
    { destruct Hf1 as [_ Hst1], Hf3 as [_ Hst3]. congruence. }
    rewrite Hseek3, Hskb, Hstat in *.
    exists p'. rewrite Hupto, zlen_app, Hlen.
    conj.
    + assumption.
    + eauto with frames.
    + rewrite Hout, Hout3, Hout1, Hseg, <- app_assoc. reflexivity.
    + lia.
    + intros Hok. rewrite (Hposeq Hok). lia.
    + assumption.
Qed.

Lemma head_lines_quiet (n : Z) (p : process) :
  quiet (io p) -> 0 <= src_pos (io p) ->
  0 <= n -> n <= UINTMAX_MAX P -> BUFSIZ P <= OFF_T_MAX P ->
  exists p',
    head_lines P n p = Returned 0 p' /\
    frame (io p) (io p') /\
    out (io p') = out (io p) ++ upto_LF (pending (io p)) (Z.to_nat n) /\
    src_pos (io p) + zlen (upto_LF (pending (io p)) (Z.to_nat n))
    <= src_pos (io p') /\
    ((1 <=? n) && (n <=? count_LF (pending (io p)))
     && (match seek_plan (io p) with b :: _ => b | [] => false end
         || negb (src_seekable (io p))) = false ->
     src_pos (io p')
     = src_pos (io p) + zlen (upto_LF (pending (io p)) (Z.to_nat n))) /\
    head_diagnostics p'
    = if (1 <=? n) && (n <=? count_LF (pending (io p)))
         && (match seek_plan (io p) with b :: _ => b | [] => false end
             || negb (src_seekable (io p)))
         && match src_stat (io p) with Some is_reg => is_reg | None => true end
      then cannot_reposition_file_pointer :: head_diagnostics p
      else head_diagnostics p.
Proof.
  intros Hq Hpos Hn0 Hn1 Hoff. pose proof (wf_BUFSIZ P WF) as HBUF.
  destruct p as [w diags]. cbn [io head_diagnostics] in *.
  unfold head_lines, bind_h at 1, lift at 1, local_array.
  cbn [io head_diagnostics].
  apply (head_lines_loop_quiet _ _ n (Process w diags)); try assumption.
  - unfold zlen. rewrite repeat_length. lia.
  - cbn [io]. pose proof (avail_nonneg w). lia.
Qed.

(** On a descriptor whose reads may come short but do not fail, and an
    output that takes every write, [head_lines] prints the first [n]
    logical lines of the input (all of it when it has fewer) and returns
    0.  When [lseek] works on the descriptor, the read offset is left
    right after the last byte printed and there is no diagnostic. *)
Theorem head_lines_prints_first_lines (n : Z) (p : process) :
  quiet (io p) -> 0 <= src_pos (io p) ->
  0 <= n -> n <= UINTMAX_MAX P -> BUFSIZ P <= OFF_T_MAX P ->
  exists p',
    head_lines P n p = Returned 0 p' /\
    out (io p')
    = out (io p) ++ concat (take (Z.to_nat n) (logical_lines (pending (io p))))
    /\ (src_seekable (io p) = true -> seek_plan (io p) = [] ->
        zlen (out (io p')) - zlen (out (io p))
        = src_pos (io p') - src_pos (io p)
        /\ head_diagnostics p' = head_diagnostics p).
Proof.
  intros Hq Hpos Hn0 Hn1 Hoff.
  destruct (head_lines_quiet n p Hq Hpos Hn0 Hn1 Hoff)
    as (p' & Hrun & _ & Hout & _ & Hposeq & Hdiag).
  exists p'. rewrite lines_upto. conj; [assumption|assumption|].
  intros Hseek Hplan. rewrite Hseek, Hplan in *. cbn [negb orb] in *.
  rewrite !andb_false_r in *. cbn [andb] in *.
  split; [|assumption].
  rewrite Hout, zlen_app, (Hposeq eq_refl). lia.
Qed.

(** When the [lseek] of line 808 fails, [head_lines] still prints the
    first [n] lines and returns 0.  It prints "cannot reposition file
    pointer" exactly when it found the end of line [n] (so that it called
    [lseek]) and [fstat] fails or reports a regular file; on a pipe it
    says nothing. *)
Theorem head_lines_reposition_diagnostic (n : Z) (p : process) :
  quiet (io p) -> 0 <= src_pos (io p) ->
  0 <= n -> n <= UINTMAX_MAX P -> BUFSIZ P <= OFF_T_MAX P ->
  match seek_plan (io p) with b :: _ => b | [] => false end
  || negb (src_seekable (io p)) = true ->
  exists p',
    head_lines P n p = Returned 0 p' /\
    out (io p')
    = out (io p) ++ concat (take (Z.to_nat n) (logical_lines (pending (io p))))
    /\ head_diagnostics p'
       = if (1 <=? n) && (n <=? count_LF (pending (io p)))
            && match src_stat (io p) with
               | Some is_reg => is_reg
               | None => true
               end
         then cannot_reposition_file_pointer :: head_diagnostics p
         else head_diagnostics p.
Proof.
  intros Hq Hpos Hn0 Hn1 Hoff Hseek.
  destruct (head_lines_quiet n p Hq Hpos Hn0 Hn1 Hoff)
    as (p' & Hrun & _ & Hout & _ & _ & Hdiag).
  exists p'. rewrite lines_upto. conj; [assumption|assumption|].
  rewrite Hseek, andb_true_r in Hdiag. assumption.
Qed.

End HeadLines.

Lemma head_lines_prints_first_lines_witness :
  let p := process_of (file_of (ln "a" ++ ln "b" ++ ln "c")) in
  exists p',
    head_lines lp64 2 p = Returned 0 p' /\
    out (io p')
    = out (io p) ++ concat (take (Z.to_nat 2) (logical_lines (pending (io p))))
    /\ (src_seekable (io p) = true -> seek_plan (io p) = [] ->
        zlen (out (io p')) - zlen (out (io p))
        = src_pos (io p') - src_pos (io p)
        /\ head_diagnostics p' = head_diagnostics p).
Proof.
  intros p.
  apply (head_lines_prints_first_lines lp64 wf_lp64 2 p
           (quiet_file_of _)); simpl; lia.
Defined.

Lemma head_lines_reposition_diagnostic_witness :
  let q := Process
             {| src_data := ln "a" ++ ln "b"; src_pos := 0;
                src_stat := Some true; src_seekable := false;
                presume_input_pipe := false; read_plan := [];
                write_plan := []; seek_plan := []; calloc_plan := [];
                junk := x00; out := []; trace := [] |} [] in
  exists q',
    head_lines lp64 1 q = Returned 0 q' /\
    out (io q')
    = out (io q) ++ concat (take (Z.to_nat 1) (logical_lines (pending (io q))))
    /\ head_diagnostics q'
       = if (1 <=? 1) && (1 <=? count_LF (pending (io q)))
            && match src_stat (io q) with
               | Some is_reg => is_reg
               | None => true
               end
         then cannot_reposition_file_pointer :: head_diagnostics q
         else head_diagnostics q.
Proof.
  intros q.
  apply (head_lines_reposition_diagnostic lp64 wf_lp64 1 q);
    try (simpl; lia); try reflexivity.
  split; [constructor|reflexivity].
Defined.

(** A regular file on which [lseek] fails: the first line is printed, the
    diagnostic too, and the call returns 0. *)
Example scenario_head_lines_cannot_reposition :
  exists p',
    head_lines lp64 1
      (process_of (with_plans (file_of (ln "a" ++ ln "b")) [] [] [true]))
    = Returned 0 p'
    /\ out (io p') = ln "a"
    /\ src_pos (io p') = 4
    /\ head_diagnostics p' = [cannot_reposition_file_pointer].
Proof.
  eexists. conj; vm_compute; reflexivity.
Qed.

Lemma count_LF_upto_LF (l : list byte) (k : nat) :
  count_LF (upto_LF l k) <= Z.of_nat k.
Proof.
  revert k. induction l as [|c l IH]; intros k; simpl; [lia|].
  destruct k as [|k]; simpl; [lia|].
  destruct (is_LF c); [specialize (IH k)|specialize (IH (S k))]; lia.
Qed.

Lemma count_LF_slice_le (l : list byte) (a b : Z) :
  0 <= a -> a <= b -> count_LF (slice l 0 a) <= count_LF (slice l 0 b).
Proof.
  intros Ha Hab. replace b with (a + (b - a)) by lia.
  rewrite slice_split by lia. rewrite count_LF_app.
  pose proof (count_LF_nonneg (slice l (0 + a) (b - a))). lia.
Qed.

Lemma ret_h_bind {A B} (a : A) (k : A -> MH B) (p : process) :
  bind_h (ret_h a) k p = k a p.
Proof. reflexivity. Qed.

Lemma lseek_any (offset whence : Z) (w : world) :
  exists r w',
    lseek offset whence w = Ret r w' /\ frame w w' /\ out w' = out w /\
    trace w' = Ev_lseek offset whence r :: trace w.
Proof.
  unfold lseek. eexists _, _. split; [reflexivity|].
  simpl. conj; auto with frames.
Qed.

Section HeadLinesOutcomes.

Variable P : platform.
Hypothesis WF : wf_platform P.

Lemma head_lines_loop_spec (fuel : nat) (buffer : list byte) (n : Z)
    (p : process) :
  zlen buffer = BUFSIZ P -> 0 <= n -> n <= UINTMAX_MAX P ->
  0 <= src_pos (io p) -> avail (io p) < Z.of_nat fuel ->
  exists p' new printed,
    final_process (head_lines_loop P fuel buffer n p) = Some p' /\
    trace (io p') = new ++ trace (io p) /\
    out (io p') = out (io p) ++ printed /\
    printed = slice (src_data (io p)) (src_pos (io p)) (zlen printed) /\
    count_LF printed <= n /\
    (head_lines_loop P fuel buffer n p = Returned 0 p' /\
     Forall (fun e => is_read_error e = false /\ is_short_write e = false) new
     \/ head_lines_loop P fuel buffer n p = Returned 1 p' /\
        (exists c rest,
            new = Ev_error 0 error_reading :: Ev_read c None :: rest /\
            Forall (fun e => is_read_error e = false
                             /\ is_short_write e = false) rest)
     \/ head_lines_loop P fuel buffer n p = Exited EXIT_FAILURE p' /\
        (exists c k rest,
            new = Ev_error EXIT_FAILURE write_error
                  :: Ev_write 818 c k :: rest /\ k < c /\
            Forall (fun e => is_read_error e = false
                             /\ is_short_write e = false) rest)).
Proof.
  pose proof (wf_BUFSIZ P WF) as HBUF.
  pose proof (wf_BUFSIZ_size P WF) as HBS.
  revert buffer n p.
  induction fuel as [|fuel IH];
    intros buffer n [w diags] Hbuf Hn0 Hn1 Hpos Hfuel;
    cbn [io head_diagnostics] in *.
  { pose proof (avail_nonneg w). lia. }
  pose proof (avail_nonneg w) as Hav.
  cbn [head_lines_loop]. destruct (n =? 0) eqn:Hn.
  { apply Z.eqb_eq in Hn. subst n.
    eexists _, [], []. split; [reflexivity|]. cbn [io]. rewrite app_nil_r.
    conj; auto; try zlia. }
  apply Z.eqb_neq in Hn.
  destruct (safe_read_spec (BUFSIZ P) w)
    as (r & w1 & Hread & Hf1 & Hout1 & _ & _ & _ & Hr).
  step_h Hread.
  destruct r as [data|].
  2:{ destruct Hr as (_ & Hpos1 & Htr1).
      eexists _, [Ev_error 0 error_reading; Ev_read (BUFSIZ P) None], [].
      split; [reflexivity|]. cbn [io]. rewrite app_nil_r.
      conj; auto; try zlia.
      - simpl. rewrite Htr1. reflexivity.
      - right. left. split; [reflexivity|].
        eexists _, _. split; [reflexivity|constructor]. }
  destruct Hr as (k & Hdata & Hk0 & Hkmax & Hk1 & _ & Hpos1 & Htr1 & Hlen).
  specialize (Hlen Hpos). cbv zeta. rewrite Hlen.
  destruct (k =? 0) eqn:Hk.
  { apply Z.eqb_eq in Hk.
    eexists _, [Ev_read (BUFSIZ P) (Some k)], [].
    split; [reflexivity|]. cbn [io]. rewrite app_nil_r.
    conj; auto; zlia. }
  apply Z.eqb_neq in Hk.
  assert (Hstore : zlen (store buffer 0 data) = BUFSIZ P)
    by (rewrite zlen_store by lia; assumption).
  assert (Hseg : slice (store buffer 0 data) 0 k = data)
    by (apply slice_store_same; lia).
  destruct (head_lines_scan_spec P (Z.to_nat k) (store buffer 0 data) k 0 n w1)
    as (btw & lines & found & Hscan & Hb0 & Hb1 & Hsl & Hfound); try lia.
  replace (btw - 0) with btw in Hsl by lia.
  replace (k - 0) with k in Hsl, Hfound by lia.
  rewrite Hseg in Hsl, Hfound.
  step_h Hscan. cbv iota beta.
  pose proof (count_LF_nonneg data) as Hc1.
  (* the seek back, when the line was found *)
  assert (Hback :
    exists w2 diags' seeks,
      bind_h
        (if found then
           pos <~ lift (lseek (- to_off_t P (to_size_t P (k - btw))) SEEK_CUR) ;;
           if pos <? 0 then
             complain <~ fstat_fails_or_regular ;;
             if complain then error_h cannot_reposition_file_pointer
             else ret_h tt
           else ret_h tt
         else ret_h tt)
        (fun _ =>
           n_written <~ lift (fwrite 818 (store buffer 0 data) 0 btw) ;;
           (if n_written <? btw
            then lift (error EXIT_FAILURE write_error) else ret_h tt) ~;;
           head_lines_loop P fuel (store buffer 0 data) lines)
        (Process w1 diags)
      = bind_h (lift (fwrite 818 (store buffer 0 data) 0 btw))
          (fun n_written =>
             (if n_written <? btw
              then lift (error EXIT_FAILURE write_error) else ret_h tt) ~;;
             head_lines_loop P fuel (store buffer 0 data) lines)
          (Process w2 diags') /\
      frame w1 w2 /\ out w2 = out w1 /\ trace w2 = seeks ++ trace w1 /\
      Forall (fun e => is_read_error e = false /\ is_short_write e = false)
        seeks /\
      (found = false -> w2 = w1 /\ diags' = diags)).
  { destruct found.
    - destruct (lseek_any (- to_off_t P (to_size_t P (k - btw))) SEEK_CUR w1)
        as (r & w2 & Hseek & Hf2 & Hout2 & Htr2).
      exists w2,
        (if (r <? 0)
            && match src_stat w2 with Some is_reg => is_reg | None => true end
         then cannot_reposition_file_pointer :: diags else diags),
        [Ev_lseek (- to_off_t P (to_size_t P (k - btw))) SEEK_CUR r].
      conj; try assumption; try discriminate.
      + unfold bind_h at 1. step_h Hseek.
        destruct (r <? 0); [|reflexivity].
        unfold bind_h at 1, fstat_fails_or_regular. cbn [io andb].
        destruct (match src_stat w2 with Some is_reg => is_reg | None => true end);
          reflexivity.
      + constructor; [|constructor]. split; reflexivity.
    - exists w1, diags, []. conj; auto with frames. }
  destruct Hback as (w2 & diags' & seeks & -> & Hf2 & Hout2 & Htr2 & Hcl2
                     & Hsame).
  destruct (fwrite_spec 818 (store buffer 0 data) 0 btw w2)
    as (a & w3 & Hwrite & Hf3 & Hpos3 & _ & _ & _ & Ha0 & Hak & _ & Hout3
        & Htr3); try lia.
  step_h Hwrite.
  assert (Hprefix : slice (store buffer 0 data) 0 a
                    = slice (src_data w) (src_pos w) a).
  { destruct (slice_store_prefix buffer data 0 a) as [_ ->]; try lia.
    rewrite Hdata. unfold slice. change (Z.to_nat 0) with 0%nat.
    rewrite drop_0, take_take. f_equal. lia. }
  assert (Hlena : zlen (slice (src_data w) (src_pos w) a) = a).
  { rewrite <- Hprefix. apply zlen_slice_inside; lia. }
  assert (Hcount : count_LF (slice (src_data w) (src_pos w) a)
                   <= count_LF (upto_LF data (Z.to_nat n))).
  { rewrite <- Hprefix, <- Hsl. apply count_LF_slice_le; lia. }
  pose proof (count_LF_upto_LF data (Z.to_nat n)) as Hupto.
  destruct (a <? btw) eqn:Hshort.
  { apply Z.ltb_lt in Hshort.
    eexists _,
      (Ev_error EXIT_FAILURE write_error :: Ev_write 818 btw a
       :: seeks ++ [Ev_read (BUFSIZ P) (Some k)]),
      (slice (src_data w) (src_pos w) a).
    split; [reflexivity|]. cbn [io].
    conj.
    - simpl. rewrite Htr3, Htr2, Htr1. simpl. rewrite <- app_assoc.
      reflexivity.
    - simpl. rewrite Hout3, Hprefix, Hout2, Hout1. reflexivity.
    - rewrite Hlena. reflexivity.
    - lia.
    - right. right. split; [reflexivity|].
      eexists _, _, _. conj; [reflexivity|assumption|].
      apply Forall_app. split; [assumption|].
      constructor; [|constructor]. split; reflexivity. }
  apply Z.ltb_ge in Hshort. assert (a = btw) as -> by lia.
  cbv iota. rewrite !ret_h_bind.
  assert (Hcl : Forall (fun e => is_read_error e = false
                                 /\ is_short_write e = false)
                  (Ev_write 818 btw btw
                   :: seeks ++ [Ev_read (BUFSIZ P) (Some k)])).
  { constructor; [split; [reflexivity|apply Z.ltb_irrefl]|].
    apply Forall_app. split; [assumption|].
    constructor; [|constructor]. split; reflexivity. }
  destruct found.
  - destruct Hfound as [-> Hle]. rewrite head_lines_loop_done.
    eexists _, (Ev_write 818 btw btw :: seeks ++ [Ev_read (BUFSIZ P) (Some k)]),
      (slice (src_data w) (src_pos w) btw).
    split; [reflexivity|]. cbn [io].
    conj.
    + rewrite Htr3, Htr2, Htr1. simpl. rewrite <- app_assoc. reflexivity.
    + rewrite Hout3, Hprefix, Hout2, Hout1. reflexivity.
    + rewrite Hlena. reflexivity.
    + lia.
    + left. split; [reflexivity|assumption].
  - destruct Hfound as (-> & -> & Hlt). destruct (Hsame eq_refl) as [-> ->].
    assert (Hav3 : avail w3 = avail w - k).
    { apply avail_advance; eauto with frames; lia. }
    destruct (IH (store buffer 0 data) (n - count_LF data) (Process w3 diags))
      as (p' & new & printed & Hfin & Htr & Hout & Hpr & Hcnt & Hcase);
      cbn [io head_diagnostics]; try assumption; try lia.
    cbn [io head_diagnostics] in *.
    assert (Hd3 : src_data w3 = src_data w).
    { destruct Hf1 as [Hd1], Hf3 as [Hd3]. congruence. }
    assert (Hdata_k : slice (src_data w) (src_pos w) k = data).
    { rewrite Hdata. reflexivity. }
    pose proof (zlen_nonneg printed) as Hp0.
    exists p',
      (new ++ Ev_write 818 k k :: seeks ++ [Ev_read (BUFSIZ P) (Some k)]),
      (data ++ printed).
    split; [assumption|].
    split; [rewrite Htr, Htr3, Htr2, Htr1, <- !app_assoc; simpl;
            rewrite <- !app_assoc; reflexivity|].
    split; [rewrite Hout, Hout3, Hprefix, Hdata_k, Hout1, <- app_assoc;
            reflexivity|].
    split.
    { rewrite zlen_app, Hlen, slice_split, Hdata_k by lia. f_equal.
      rewrite Hpr at 1. rewrite Hd3, Hpos3, Hpos1. reflexivity. }
    split; [rewrite count_LF_app; lia|].
    destruct Hcase as [(Hrun & Hc)
                      |[(Hrun & c & rest & -> & Hc)
                      |(Hrun & c & k' & rest & -> & Hk' & Hc)]].
    + left. split; [assumption|]. apply Forall_app. split; assumption.
    + right. left. split; [assumption|].
      eexists c, (rest ++ _). split; [reflexivity|].
      apply Forall_app. split; assumption.
    + right. right. split; [assumption|].
      eexists c, k', (rest ++ _). conj; [reflexivity|assumption|].
      apply Forall_app. split; assumption.
Qed.

(** Whatever the reads, writes and seeks do, [head_lines] ends, and what
    it has printed is a prefix of the input with at most [n] newlines.  It
    returns 0 when no read failed and no write came short; it returns 1
    right after the diagnostic "error reading" when a read failed; when a
    write came short it prints "write error" and exits with
    EXIT_FAILURE. *)
Theorem head_lines_outcomes (n : Z) (p : process) :
  0 <= n -> n <= UINTMAX_MAX P -> 0 <= src_pos (io p) ->
  exists p' new printed,
    final_process (head_lines P n p) = Some p' /\
    trace (io p') = new ++ trace (io p) /\
    out (io p') = out (io p) ++ printed /\
    printed = take (length printed) (pending (io p)) /\
    count_LF printed <= n /\
    (head_lines P n p = Returned 0 p' /\
     ~ Exists (fun e => is_read_error e = true) new /\
     ~ Exists (fun e => is_short_write e = true) new
     \/ head_lines P n p = Returned 1 p' /\
        (exists c rest,
            new = Ev_error 0 error_reading :: Ev_read c None :: rest /\
            ~ Exists (fun e => is_short_write e = true) rest)
     \/ head_lines P n p = Exited EXIT_FAILURE p' /\
        (exists c k rest,
            new = Ev_error EXIT_FAILURE write_error
                  :: Ev_write 818 c k :: rest /\ k < c /\
            ~ Exists (fun e => is_read_error e = true) rest)).
Proof.
  intros Hn0 Hn1 Hpos. pose proof (wf_BUFSIZ P WF) as HBUF.
  destruct p as [w diags]. cbn [io head_diagnostics] in *.
  assert (Hno : forall l,
             Forall (fun e => is_read_error e = false
                              /\ is_short_write e = false) l ->
             ~ Exists (fun e => is_read_error e = true) l
             /\ ~ Exists (fun e => is_short_write e = true) l).
  { intros l Hl. induction Hl as [|e l [He1 He2] Hl [IH1 IH2]].
    - split; intros Hex; inversion Hex.
    - split; intros Hex; inversion Hex; subst; try congruence; auto. }
  unfold head_lines, bind_h at 1 2 3 4, lift at 1 2 3 4, local_array.
  cbn [io head_diagnostics].
  destruct (head_lines_loop_spec (S (Z.to_nat (avail w)))
              (repeat (junk w) (Z.to_nat (BUFSIZ P))) n (Process w diags))
    as (p' & new & printed & Hfin & Htr & Hout & Hpr & Hcnt & Hcase);
    cbn [io]; try assumption.
  { unfold zlen. rewrite repeat_length. lia. }
  { pose proof (avail_nonneg w). lia. }
  cbn [io] in *. exists p', new, printed.
  conj; try assumption.
  - rewrite Hpr at 1. unfold slice, zlen, pending.
    rewrite Nat2Z.id. reflexivity.
  - destruct Hcase as [(Hrun & Hc)
                      |[(Hrun & c & rest & -> & Hc)
                      |(Hrun & c & k & rest & -> & Hk & Hc)]].
    + left. conj; [assumption|apply Hno, Hc..].
    + right. left. split; [assumption|]. exists c, rest.
      split; [reflexivity|apply Hno, Hc].
    + right. right. split; [assumption|]. exists c, k, rest.
      conj; [reflexivity|assumption|apply Hno, Hc].
Qed.

End HeadLinesOutcomes.

Lemma head_lines_outcomes_witness :
  let p := process_of
             (with_plans (pipe_of (ln "a" ++ ln "b")) [Rd_at_most 3; Rd_fail]
                [] []) in
  exists p' new printed,
    final_process (head_lines lp64 2 p) = Some p' /\
    trace (io p') = new ++ trace (io p) /\
    out (io p') = out (io p) ++ printed /\
    printed = take (length printed) (pending (io p)) /\
    count_LF printed <= 2 /\
    (head_lines lp64 2 p = Returned 0 p' /\
     ~ Exists (fun e => is_read_error e = true) new /\
     ~ Exists (fun e => is_short_write e = true) new
     \/ head_lines lp64 2 p = Returned 1 p' /\
        (exists c rest,
            new = Ev_error 0 error_reading :: Ev_read c None :: rest /\
            ~ Exists (fun e => is_short_write e = true) rest)
     \/ head_lines lp64 2 p = Exited EXIT_FAILURE p' /\
        (exists c k rest,
            new = Ev_error EXIT_FAILURE write_error
                  :: Ev_write 818 c k :: rest /\ k < c /\
            ~ Exists (fun e => is_read_error e = true) rest)).
Proof.
  intros p. apply (head_lines_outcomes lp64 wf_lp64 2 p); simpl; lia.
Defined.

(** The second read fails after three bytes were read and printed. *)
Example scenario_head_lines_read_error :
  exists p',
    head_lines lp64 2
      (process_of
         (with_plans (pipe_of (ln "a" ++ ln "b")) [Rd_at_most 3; Rd_fail]
            [] []))
    = Returned 1 p'
    /\ out (io p') = ln "a" ++ bytes "b"
    /\ trace (io p') = [Ev_error 0 error_reading; Ev_read 8192 None;
                        Ev_write 818 3 3; Ev_read 8192 (Some 3)].
Proof.
  eexists. conj; vm_compute; reflexivity.
Qed.

(** * More on the eliders *)


Section Eliders.

Variable P : platform.
Hypothesis WF : wf_platform P.

(** Whatever the reads and writes do, [copy_fd] returns, and it has read
    at most [n_bytes] bytes and printed no more bytes than it has read;
    what was printed before is still there. *)
Theorem copy_fd_reads_at_most (n_bytes : Z) (w : world) :
  0 <= n_bytes -> 0 <= src_pos w ->
  exists st w' printed,
    copy_fd P n_bytes w = Ret st w' /\
    src_data w' = src_data w /\
    out w' = out w ++ printed /\
    0 <= src_pos w' - src_pos w /\
    src_pos w' - src_pos w <= n_bytes /\
    zlen printed <= src_pos w' - src_pos w.
Proof.
  intros Hn Hpos.
  destruct (copy_fd_spec P WF n_bytes w Hn Hpos)
    as (st & w' & new & more & Hrun & [Hd] & _ & Hout & _ & Hle1 & Hle2
        & Hmore & _).
  exists st, w', more. conj; try assumption; lia.
Qed.


(** Above the threshold, for a count that passes the size check of line
    231, the first thing [elide_tail_bytes_pipe] does is to ask [xcalloc]
    (line 328) for [n_elide / READ_BUFSIZE + 2] pointers, as long as that
    number fits in [size_t]; [rem] is between 1 and [READ_BUFSIZE], never
    0, and all slots but one hold [n_elide + rem] bytes.  When the
    pointers do not fit in [size_t] or [calloc] returns null, the call
    exits with "memory exhausted", having read and printed nothing;
    otherwise it goes on and ends. *)
Theorem ring_slots (n_elide : Z) (w : world) :
  0 <= src_pos w ->
  HEAD_TAIL_PIPE_BYTECOUNT_THRESHOLD P < n_elide ->
  n_elide + READ_BUFSIZE P <= SIZE_MAX P ->
  n_elide / READ_BUFSIZE P + 2 <= SIZE_MAX P ->
  0 < ring_rem P n_elide /\ ring_rem P n_elide <= READ_BUFSIZE P
  /\ (n_elide / READ_BUFSIZE P + 1) * READ_BUFSIZE P
     = n_elide + ring_rem P n_elide
  /\ exists w' new,
       final_world (elide_tail_bytes_pipe P n_elide w) = Some w' /\
       trace w'
       = new ++ Ev_xcalloc (n_elide / READ_BUFSIZE P + 2) :: trace w /\
       (SIZE_MAX P < (n_elide / READ_BUFSIZE P + 2) * SIZEOF_POINTER P
        \/ calloc_fails w = true ->
        elide_tail_bytes_pipe P n_elide w = Exit EXIT_FAILURE w' /\
        new = [Ev_error EXIT_FAILURE memory_exhausted] /\
        out w' = out w /\ src_pos w' = src_pos w).
Proof.
  intros Hpos Hbig Hmax Hslots. pose proof (wf_READ_BUFSIZE P WF) as HR.
  pose proof (wf_THRESHOLD P WF) as HT. pose proof (wf_SIZE_MAX P WF).
  assert (Hn : 0 <= n_elide) by lia.
  destruct (ring_n_bufs_eq P WF n_elide Hn Hmax Hslots)
    as (Hrem & Hround & Hbufs).
  pose proof (Z.mod_pos_bound n_elide (READ_BUFSIZE P) HR) as Hmod.
  pose proof (Z.div_mod n_elide (READ_BUFSIZE P) ltac:(lia)) as Hdiv.
  conj; [lia|lia|nia|].
  unfold elide_tail_bytes_pipe, to_uintmax_t, to_size_t.
  rewrite !(Z.mod_small n_elide) by lia.
  rewrite (Z.mod_small (n_elide + READ_BUFSIZE P)) by lia.
  replace (SIZE_MAX P <? n_elide + READ_BUFSIZE P) with false
    by (symmetry; apply Z.ltb_ge; lia).
  rewrite ret_bind.
  replace (n_elide <=? HEAD_TAIL_PIPE_BYTECOUNT_THRESHOLD P) with false
    by (symmetry; apply Z.leb_gt; assumption).
  rewrite Hbufs. set (K := n_elide / READ_BUFSIZE P + 2) in *.
  destruct (SIZE_MAX P <? K * SIZEOF_POINTER P) eqn:Hfit.
  { erewrite bind_exit
      by (unfold xcalloc, xalloc_die; rewrite Hfit; reflexivity).
    eexists _, [_]. conj; [reflexivity|reflexivity|].
    intros _. conj; reflexivity. }
  destruct (calloc_fails w) eqn:Hcalloc.
  { erewrite bind_exit
      by (unfold xcalloc, xalloc_die; rewrite Hfit, Hcalloc; reflexivity).
    eexists _, [_]. conj; [reflexivity|reflexivity|].
    intros _. conj; reflexivity. }
  apply Z.ltb_ge in Hfit.
  rewrite (bind_ret _ _ _ _ _ (xcalloc_eq P K w Hfit Hcalloc)).
  set (w0 := log (Ev_xcalloc K) (after_calloc w)).
  match goal with |- context [final_world (?k w0)] => set (rest := k) end.
  destruct (ends_reports rest w0) as (w' & new & printed & Hfin & Htr & _).
  { apply (ring_strategy_ends P WF w0 Hpos); [|apply carries_on_refl].
    change (avail w0) with (avail w). pose proof (avail_nonneg w). lia. }
  exists w', new. conj; [assumption|exact Htr|].
  intros [Hover|Hfail]; [lia|discriminate].
Qed.

(** On a regular file read from its start, on which no call fails,
    [elide_tail_bytes_file] prints the file without its last [n_elide]
    bytes and returns 0. *)
Theorem bytes_file_from_start (n_elide : Z) (w : world) :
  regular_file w -> src_pos w = 0 -> 0 <= n_elide ->
  exists w',
    elide_tail_bytes_file P n_elide w = Ret 0 w' /\
    out w' = out w ++ all_but_last_bytes n_elide (src_data w).
Proof.
  intros (Hc & Hstat & Hseek & Hpre) Hpos Hn.
  destruct (bytes_file_seekable P WF n_elide w Hc Hstat Hseek Hpre Hpos Hn)
    as (w' & Hrun & _ & Hout).
  exists w'. split; assumption.
Qed.




(** Eliding the last [n_elide] bytes of a file of [L] bytes prints what
    [head_bytes] prints when asked for [L - n_elide] bytes. *)
Theorem elide_bytes_as_head_bytes (n_elide : Z) (w : world) :
  regular_file w -> src_pos w = 0 ->
  0 <= n_elide -> zlen (src_data w) <= UINTMAX_MAX P ->
  exists w1 w2,
    elide_tail_bytes_file P n_elide w = Ret 0 w1 /\
    head_bytes P (Z.max 0 (zlen (src_data w) - n_elide)) w = Ret 0 w2 /\
    out w1 = out w2.
Proof.
  intros (Hc & Hstat & Hseek & Hpre) Hpos Hn0 Hlen.
  pose proof (zlen_nonneg (src_data w)) as Hlen0.
  destruct (bytes_file_seekable P WF n_elide w Hc Hstat Hseek Hpre Hpos Hn0)
    as (w1 & Hrun1 & _ & Hout1).
  destruct (head_bytes_quiet P WF
              (Z.max 0 (zlen (src_data w) - n_elide)) w (calm_quiet w Hc))
    as (w2 & Hrun2 & Hout2 & _); try lia.
  exists w1, w2. conj; [assumption|assumption|].
  rewrite Hout1, Hout2. unfold all_but_last_bytes, pending.
  rewrite Hpos. reflexivity.
Qed.


End Eliders.

Lemma copy_fd_reads_at_most_witness :
  let w := with_plans (file_of (bytes "abcdef")) [Rd_at_most 2]
             [Wr_at_most 9; Wr_at_most 1] [] in
  exists st w' printed,
    copy_fd lp64 5 w = Ret st w' /\
    src_data w' = src_data w /\
    out w' = out w ++ printed /\
    0 <= src_pos w' - src_pos w /\
    src_pos w' - src_pos w <= 5 /\
    zlen printed <= src_pos w' - src_pos w.
Proof.
  intros w. apply (copy_fd_reads_at_most lp64 wf_lp64 5 w); simpl; lia.
Defined.


Lemma ring_slots_witness :
  let w := pipe_of (bytes "abc") in
  0 < ring_rem lp64 2097152 /\ ring_rem lp64 2097152 <= READ_BUFSIZE lp64
  /\ (2097152 / READ_BUFSIZE lp64 + 1) * READ_BUFSIZE lp64
     = 2097152 + ring_rem lp64 2097152
  /\ exists w' new,
       final_world (elide_tail_bytes_pipe lp64 2097152 w) = Some w' /\
       trace w'
       = new ++ Ev_xcalloc (2097152 / READ_BUFSIZE lp64 + 2) :: trace w /\
       (SIZE_MAX lp64 < (2097152 / READ_BUFSIZE lp64 + 2) * SIZEOF_POINTER lp64
        \/ calloc_fails w = true ->
        elide_tail_bytes_pipe lp64 2097152 w = Exit EXIT_FAILURE w' /\
        new = [Ev_error EXIT_FAILURE memory_exhausted] /\
        out w' = out w /\ src_pos w' = src_pos w).
Proof.
  intros w. apply (ring_slots lp64 wf_lp64 2097152 w).
  - simpl. lia.
  - simpl. lia.
  - simpl. lia.
  - vm_compute. congruence.
Defined.

(** The array of the ring cannot be had: "memory exhausted", whatever the
    input; here for [2^63 - 1] bytes to elide with blocks of 4 bytes, and
    for 9 bytes when [calloc] returns null. *)
Example scenario_ring_not_allocated :
  elide_tail_bytes_pipe lp64_small 9223372036854775807 (pipe_of [])
  = Exit EXIT_FAILURE
      (log (Ev_error EXIT_FAILURE memory_exhausted)
         (log (Ev_xcalloc 2305843009213693953) (pipe_of [])))
  /\ elide_tail_bytes_pipe lp64_small 9
       (with_calloc_plan (pipe_of []) [true])
     = Exit EXIT_FAILURE
         (log (Ev_error EXIT_FAILURE memory_exhausted)
            (log (Ev_xcalloc 4) (pipe_of []))).
Proof. split; vm_compute; reflexivity. Qed.

Lemma bytes_file_from_start_witness :
  let w := file_of (bytes "abcdef") in
  exists w',
    elide_tail_bytes_file lp64 2 w = Ret 0 w' /\
    out w' = out w ++ all_but_last_bytes 2 (src_data w).
Proof.
  intros w.
  apply (bytes_file_from_start lp64 wf_lp64 2 w (regular_file_of _));
    [reflexivity|lia].
Defined.




Lemma elide_bytes_as_head_bytes_witness :
  let w := file_of (bytes "abcdef") in
  exists w1 w2,
    elide_tail_bytes_file lp64 2 w = Ret 0 w1 /\
    head_bytes lp64 (Z.max 0 (zlen (src_data w) - 2)) w = Ret 0 w2 /\
    out w1 = out w2.
Proof.
  intros w.
  apply (elide_bytes_as_head_bytes lp64 wf_lp64 2 w (regular_file_of _));
    [reflexivity|lia|vm_compute; congruence].
Defined.


(** * Reads that fail *)

Lemma reads_well_refl (w : world) : reads_well w w.
Proof.
  split; auto. exists []. split; [reflexivity|constructor].
Qed.

Lemma reads_well_trans (w1 w2 w3 : world) :
  reads_well w1 w2 -> reads_well w2 w3 -> reads_well w1 w3.
Proof.
  intros [Hd1 Hp1 (n1 & Ht1 & Hc1)] [Hd2 Hp2 (n2 & Ht2 & Hc2)].
  split.
  - congruence.
  - auto.
  - exists (n2 ++ n1). rewrite Ht2, Ht1, app_assoc. split; [reflexivity|].
    apply Forall_app. split; assumption.
Qed.

Lemma reads_well_event (w0 w w' : world) (e : event) :
  reads_well w0 w -> src_data w' = src_data w ->
  (0 <= src_pos w -> 0 <= src_pos w') ->
  trace w' = e :: trace w -> is_read_error e = false ->
  reads_well w0 w'.
Proof.
  intros Hrw Hd Hp Ht He. apply (reads_well_trans _ w); [assumption|].
  split; auto. exists [e]. split; [assumption|]. constructor; auto.
Qed.

Lemma reads_well_log (w0 w : world) (e : event) :
  is_read_error e = false -> reads_well w0 w -> reads_well w0 (log e w).
Proof.
  intros He Hrw. apply (reads_well_event w0 w _ e); auto.
Qed.

Lemma read_failed_now (w0 w w' : world) (c : Z) :
  reads_well w0 w -> trace w' = Ev_read c None :: trace w ->
  read_failed w0 w'.
Proof.
  intros [_ _ (new & Ht & Hc)] Ht'. exists c, new.
  rewrite Ht', Ht. auto.
Qed.

Lemma read_failed_reported (w0 w : world) :
  read_failed w0 w -> read_reported w0 (log (Ev_error 0 error_reading) w).
Proof.
  intros (c & rest & Ht & Hc). exists c, rest. simpl. rewrite Ht. auto.
Qed.

Lemma clean_not_read_error (new : list event) :
  Forall (fun e => is_failure e = false) new ->
  Forall (fun e => is_read_error e = false) new.
Proof.
  intros Hclean. eapply Forall_impl; [exact Hclean|]. simpl. intros e He.
  apply not_failure in He. tauto.
Qed.

Section ReadFailures.

Variable P : platform.
Hypothesis WF : wf_platform P.

Section Since.

Variable w0 : world.
Hypothesis Hw0 : 0 <= src_pos w0.

Lemma reads_well_pos (w : world) : reads_well w0 w -> 0 <= src_pos w.
Proof.
  intros [_ Hp _]. auto.
Qed.

Lemma safe_read_rd (count : Z) (w : world) :
  reads_well w0 w ->
  ends (safe_read count) w
    (fun r w' =>
       match r with
       | None => read_failed w0 w' /\ avail w' = avail w
       | Some data =>
           reads_well w0 w'
           /\ 0 <= zlen data /\ zlen data <= Z.max 0 count
           /\ avail w' = avail w - zlen data
           /\ (1 <= count -> 1 <= avail w -> 1 <= zlen data)
       end)
    (reads_well w0).
Proof.
  intros Hrw. pose proof (reads_well_pos w Hrw) as Hpos.
  pose proof (avail_nonneg w) as Hav.
  destruct (safe_read_spec count w)
    as (r & w' & Hrun & Hf & Hout & _ & _ & _ & Hr).
  unfold ends. rewrite Hrun. destruct r as [data|].
  - destruct Hr as (n & _ & Hn0 & Hn1 & Hn2 & _ & Hpos' & Htr & Hlen).
    specialize (Hlen Hpos). split.
    + apply (reads_well_event w0 w w' (Ev_read count (Some n))); auto.
      * apply Hf.
      * lia.
    + rewrite Hlen. conj; try lia.
      apply avail_advance; [assumption|assumption|lia|lia].
  - destruct Hr as (_ & Hpos' & Htr).
    split; [|rewrite (avail_advance w w' 0); auto; lia].
    apply (read_failed_now w0 w w' count); assumption.
Qed.

Lemma full_read_loop_rd (fuel : nat) (count : Z) (total : list byte)
    (w : world) :
  reads_well w0 w -> count <= Z.of_nat fuel ->
  ends (full_read_loop fuel count total) w
    (fun r w' =>
       (if snd r then read_failed w0 w' else reads_well w0 w')
       /\ zlen total <= zlen (fst r)
       /\ zlen (fst r) - zlen total <= Z.max 0 count
       /\ (snd r = true -> zlen (fst r) - zlen total < count)
       /\ avail w' = avail w - (zlen (fst r) - zlen total))
    (reads_well w0).
Proof.
  revert count total w. induction fuel as [|fuel IH];
    intros count total w Hrw Hfuel.
  - simpl. replace (0 <? count) with false by (symmetry; apply Z.ltb_ge; lia).
    apply ends_ret. simpl. conj; [assumption|lia|lia|discriminate|lia].
  - simpl. destruct (0 <? count) eqn:Hcount.
    2:{ apply ends_ret. simpl. conj; [assumption|lia|lia|discriminate|lia]. }
    apply Z.ltb_lt in Hcount.
    eapply ends_bind; [apply safe_read_rd; assumption|].
    intros [data|] w1 Hr.
    2:{ destruct Hr as [Hfail Hav]. apply ends_ret. simpl.
        conj; [assumption|lia..]. }
    destruct Hr as (Hrw1 & Hd0 & Hd1 & Hav & _).
    destruct (zlen data =? 0) eqn:Hz.
    { apply Z.eqb_eq in Hz. apply ends_ret. simpl.
      conj; [assumption|lia|lia|discriminate|lia]. }
    apply Z.eqb_neq in Hz.
    eapply ends_weaken; [apply IH; [assumption|lia]|].
    intros [data' errno] w2. simpl. rewrite zlen_app.
    intros (Hst & Hl0 & Hl1 & Herr & Hav2).
    conj; [assumption|lia|lia| |lia].
    intros He. specialize (Herr He). lia.
Qed.

Lemma full_read_rd (count : Z) (w : world) :
  reads_well w0 w ->
  ends (full_read count) w
    (fun r w' =>
       (if snd r then read_failed w0 w' else reads_well w0 w')
       /\ 0 <= zlen (fst r)
       /\ zlen (fst r) <= Z.max 0 count
       /\ (snd r = true -> zlen (fst r) < count)
       /\ avail w' = avail w - zlen (fst r))
    (reads_well w0).
Proof.
  intros Hrw. unfold full_read.
  eapply ends_weaken; [apply full_read_loop_rd; [assumption|lia]|].
  intros r w'. change (zlen (@nil byte)) with 0.
  intros (Hst & Hl0 & Hl1 & Herr & Hav).
  conj; [assumption|lia|lia| |lia].
  intros He. specialize (Herr He). lia.
Qed.

Lemma fwrite_rd (line : Z) (buf : list byte) (off n : Z) (w : world) :
  reads_well w0 w ->
  ends (fwrite line buf off n) w
    (fun _ w' => avail w' = avail w /\ reads_well w0 w') (reads_well w0).
Proof.
  intros Hrw. unfold ends, fwrite.
  destruct ((0 <=? off) && (0 <=? n) && (off + n <=? zlen buf));
    [|assumption].
  split; [reflexivity|].
  match goal with |- context [log (Ev_write line n ?a) _] =>
    apply (reads_well_event w0 w _ (Ev_write line n a)); auto
  end.
Qed.

Lemma fwrite_slot_rd (line : Z) (b : list (option (list byte)))
    (k off n : Z) (w : world) :
  reads_well w0 w ->
  ends (fwrite_slot line b k off n) w
    (fun _ w' => avail w' = avail w /\ reads_well w0 w') (reads_well w0).
Proof.
  intros Hrw. unfold fwrite_slot.
  destruct (k <? 0); [exact Hrw|].
  destruct (b !! Z.to_nat k); [|exact Hrw].
  apply fwrite_rd; assumption.
Qed.

Lemma lseek_rd (offset whence : Z) (w : world) :
  reads_well w0 w ->
  ends (lseek offset whence) w
    (fun r w' =>
       reads_well w0 w'
       /\ (r = -1 \/ 0 <= r /\ src_pos w' = r
                     /\ (whence = SEEK_SET -> r = offset)))
    (reads_well w0).
Proof.
  intros Hrw. pose proof (reads_well_pos w Hrw) as Hpos.
  unfold ends, lseek.
  match goal with |- context [Ev_lseek offset whence ?r] =>
    set (result := r) end.
  assert (Hres : result = -1
                 \/ 0 <= result /\ (whence = SEEK_SET -> result = offset)).
  { unfold result.
    destruct (match seek_plan w with b :: _ => b | [] => false end
              || negb (src_seekable w)); [left; reflexivity|].
    destruct (whence =? SEEK_SET) eqn:H0.
    { destruct (0 <=? offset) eqn:Hle; [right|left; reflexivity].
      split; [lia|reflexivity]. }
    assert (Hne : whence <> SEEK_SET) by (apply Z.eqb_neq; assumption).
    destruct (whence =? SEEK_CUR).
    { destruct (0 <=? src_pos w + offset) eqn:Hle;
        [right|left; reflexivity]. split; [lia|contradiction]. }
    destruct (whence =? SEEK_END).
    { destruct (0 <=? zlen (src_data w) + offset) eqn:Hle;
        [right|left; reflexivity]. split; [lia|contradiction]. }
    destruct (whence =? SEEK_DATA).
    { destruct ((0 <=? offset) && (offset <? zlen (src_data w)));
        [|left; reflexivity].
      destruct (0 <=? offset) eqn:Hle; [right|left; reflexivity].
      split; [lia|contradiction]. }
    destruct (whence =? SEEK_HOLE); [|left; reflexivity].
    destruct ((0 <=? offset) && (offset <? zlen (src_data w)));
      [|left; reflexivity].
    destruct (0 <=? zlen (src_data w)) eqn:Hle; [right|left; reflexivity].
    split; [lia|contradiction]. }
  split.
  - apply (reads_well_event w0 w _ (Ev_lseek offset whence result)); auto.
    simpl. intros _. destruct (result =? -1) eqn:He; [assumption|].
    destruct Hres as [Hres|Hres]; lia.
  - destruct Hres as [Hres|[Hres Hset]]; [left; assumption|right].
    conj; [assumption| |assumption]. simpl.
    replace (result =? -1) with false by (symmetry; apply Z.eqb_neq; lia).
    reflexivity.
Qed.

Lemma copy_fd_rd (n : Z) (w : world) :
  0 <= n -> reads_well w0 w ->
  ends (copy_fd P n) w
    (fun st w' =>
       match st with
       | COPY_FD_READ_ERROR => read_failed w0 w'
       | _ => reads_well w0 w'
       end)
    (reads_well w0).
Proof.
  intros Hn Hrw. pose proof (reads_well_pos w Hrw) as Hpos.
  destruct (copy_fd_spec P WF n w Hn Hpos)
    as (st & w' & new & more & Hrun & Hf & Htr & Hout & _ & Hle & _ & _ & Hst).
  unfold ends. rewrite Hrun.
  assert (Hclean : Forall (fun e => is_read_error e = false) new ->
                   reads_well w0 w').
  { intros Hc. apply (reads_well_trans _ w); [assumption|].
    split; [apply Hf|lia|exists new; auto]. }
  destruct st.
  - apply Hclean, clean_not_read_error. tauto.
  - destruct Hst as (_ & _ & e & rest & -> & He & Hrest).
    destruct Hrw as [_ _ (new0 & Ht0 & Hc0)].
    destruct e as [c [k|]| | | | |]; try discriminate.
    exists c, (rest ++ new0). rewrite Htr, Ht0. simpl.
    rewrite <- app_assoc. split; [reflexivity|].
    apply Forall_app. split; [apply clean_not_read_error|]; assumption.
  - destruct Hst as (_ & _ & e & rest & -> & He & Hrest).
    apply Hclean. constructor; [|apply clean_not_read_error; assumption].
    destruct (failure_kinds e) as (_ & _ & Hk). apply Hk, He.
  - destruct Hst as (_ & _ & e & rest & -> & He & Hrest).
    apply Hclean. constructor; [|apply clean_not_read_error; assumption].
    destruct (failure_kinds e) as (_ & Hk & _). apply Hk, He.
Qed.

Lemma copy_fd_diagnosed_rd {A} (n : Z) (ok failed : A) (w : world) :
  0 <= n -> reads_well w0 w ->
  ends (err <- copy_fd P n ;;
        match err with
        | COPY_FD_OK => ret ok
        | _ => diagnose_copy_fd_failure err ;;; ret failed
        end) w
    (fun r w' => reads_well w0 w' \/ r = failed /\ read_reported w0 w')
    (reads_well w0).
Proof.
  intros Hn Hrw. eapply ends_bind; [apply copy_fd_rd; assumption|].
  intros st w' Hst. destruct st.
  - apply ends_ret. left. assumption.
  - apply error_ends, ends_ret. right. split; [reflexivity|].
    apply read_failed_reported. assumption.
  - apply error_ends, ends_ret. left. apply reads_well_log; auto.
  - apply error_ends, ends_ret. left. apply reads_well_log; auto.
Qed.

Lemma double_buffer_loop_rd (fuel : nat) (n_elide n_to_read : Z)
    (b : list byte) (i : Z) (first : bool) (w : world) :
  1 <= n_to_read -> avail w < Z.of_nat fuel -> reads_well w0 w ->
  ends (double_buffer_loop P fuel n_elide n_to_read b i first) w
    (fun r w' => reads_well w0 w' \/ r = 1 /\ read_reported w0 w')
    (reads_well w0).
Proof.
  intros Hto. revert b i first w.
  induction fuel as [|fuel IH]; intros b i first w Hfuel Hrw.
  { pose proof (avail_nonneg w). lia. }
  cbn [double_buffer_loop].
  eapply ends_bind; [apply full_read_rd; assumption|].
  intros [data errno] w1 (Hst & Hl0 & Hl1 & Herr & Hav1). cbn [fst snd] in *.
  cbn beta iota zeta.
  destruct errno.
  { replace (zlen data <? n_to_read) with true
      by (symmetry; apply Z.ltb_lt; auto).
    apply error_ends, ends_ret. right. split; [reflexivity|].
    apply read_failed_reported. assumption. }
  rewrite andb_false_r.
  eapply ends_bind
    with (Q := fun (_ : unit) w' => avail w' = avail w1 /\ reads_well w0 w').
  { destruct (negb first).
    - eapply ends_bind; [apply fwrite_rd; assumption|].
      intros a w2 H. apply ends_ret. exact H.
    - apply ends_ret. auto. }
  intros a w2 [Hav2 Hrw2].
  eapply ends_bind
    with (Q := fun (_ : bool) w' => avail w' = avail w2 /\ reads_well w0 w').
  { destruct (n_elide <? zlen data).
    - eapply ends_bind; [apply fwrite_rd; assumption|].
      intros a' w3 H. apply ends_ret. exact H.
    - apply ends_ret. auto. }
  intros failed w3 [Hav3 Hrw3]. destruct failed.
  { apply error_ends, ends_ret. left. apply reads_well_log; auto. }
  destruct (zlen data <? n_to_read) eqn:Heof.
  { apply ends_ret. left. assumption. }
  apply Z.ltb_ge in Heof. apply IH; [lia|assumption].
Qed.

Lemma ring_loop_rd (fuel : nat) (n_bufs : Z)
    (b : list (option (list byte))) (i i_next : Z) (buffered_enough : bool)
    (w : world) :
  avail w < Z.of_nat fuel -> reads_well w0 w ->
  ends (ring_loop P fuel n_bufs b i i_next buffered_enough) w
    (fun x w' =>
       reads_well w0 w' \/ ring_fail x = true /\ read_reported w0 w')
    (reads_well w0).
Proof.
  pose proof (wf_READ_BUFSIZE P WF) as HR.
  revert b i i_next buffered_enough w.
  induction fuel as [|fuel IH];
    intros b i i_next buffered_enough w Hfuel Hrw.
  { pose proof (avail_nonneg w). lia. }
  cbn [ring_loop].
  destruct (b !! Z.to_nat i) as [slot|]; [|exact Hrw].
  eapply ends_bind
    with (Q := fun (_ : list byte) w' =>
                 avail w' = avail w /\ reads_well w0 w').
  { destruct slot.
    - apply ends_ret. auto.
    - split; [reflexivity|]. apply reads_well_log; auto. }
  intros b_i w1 [Hav1 Hrw1].
  eapply ends_bind; [apply full_read_rd; assumption|].
  intros [data errno] w2 (Hst & Hl0 & Hl1 & Herr & Hav2). cbn [fst snd] in *.
  cbn beta iota zeta.
  destruct errno.
  { replace (zlen data <? READ_BUFSIZE P) with true
      by (symmetry; apply Z.ltb_lt; auto).
    apply error_ends, ends_ret. right. split; [reflexivity|].
    apply read_failed_reported. assumption. }
  rewrite andb_false_r.
  eapply ends_bind
    with (Q := fun (_ : bool) w' => avail w' = avail w2 /\ reads_well w0 w').
  { destruct (buffered_enough || (i + 1 =? n_bufs)).
    - eapply ends_bind; [apply fwrite_slot_rd; assumption|].
      intros a' w3 H. apply ends_ret. exact H.
    - apply ends_ret. auto. }
  intros failed w3 [Hav3 Hrw3]. destruct failed.
  { apply error_ends, ends_ret. left. apply reads_well_log; auto. }
  destruct (n_bufs =? 0); [exact Hrw3|].
  destruct (zlen data <? READ_BUFSIZE P) eqn:Heof.
  { apply ends_ret. left. assumption. }
  apply Z.ltb_ge in Heof. apply IH; [lia|assumption].
Qed.

Lemma ring_remainder_rd (rem n_bufs : Z) (x : ring_exit) (w : world) :
  reads_well w0 w ->
  ends (ring_remainder P rem n_bufs x) w
    (fun _ w' => reads_well w0 w') (reads_well w0).
Proof.
  intros Hrw. unfold ring_remainder. cbn zeta.
  destruct (negb (rem =? 0)); [|apply ends_ret; assumption].
  destruct (ring_buffered_enough x).
  - destruct (rem <? READ_BUFSIZE P - ring_n_read x).
    + eapply ends_bind; [apply fwrite_slot_rd; assumption|].
      intros a w1 [_ Hrw1]. apply ends_ret. assumption.
    + eapply ends_bind; [apply fwrite_slot_rd; assumption|].
      intros a w1 [_ Hrw1].
      eapply ends_bind; [apply fwrite_slot_rd; assumption|].
      intros a' w2 [_ Hrw2]. apply ends_ret. assumption.
  - destruct (ring_i x + 1 =? n_bufs); [|apply ends_ret; assumption].
    eapply ends_bind; [apply fwrite_slot_rd; assumption|].
    intros a w1 [_ Hrw1]. apply ends_ret. assumption.
Qed.

Lemma elide_tail_bytes_pipe_rd (n_elide : Z) (w : world) :
  reads_well w0 w ->
  ends (elide_tail_bytes_pipe P n_elide) w
    (fun r w' => reads_well w0 w' \/ r = 1 /\ read_reported w0 w')
    (reads_well w0).
Proof.
  intros Hrw.
  pose proof (wf_READ_BUFSIZE P WF) as HR.
  pose proof (wf_THRESHOLD P WF) as HT.
  pose proof (wf_alloc P WF) as HA.
  unfold elide_tail_bytes_pipe.
  eapply ends_bind with (Q := fun (_ : unit) w' => w' = w).
  { destruct (SIZE_MAX P <? to_uintmax_t P (n_elide + READ_BUFSIZE P)).
    - apply reads_well_log; auto.
    - apply ends_ret. reflexivity. }
  intros a w1 ->. unfold ends at 1. cbn beta zeta.
  destruct (to_size_t P n_elide <=? HEAD_TAIL_PIPE_BYTECOUNT_THRESHOLD P)
    eqn:Hsmall.
  - apply Z.leb_le in Hsmall.
    apply xmalloc_ends, double_buffer_loop_rd.
    + pose proof (Z.mod_pos_bound n_elide (SIZE_MAX P + 1) ltac:(lia)).
      unfold to_size_t in *. rewrite (Z.mod_small (_ + _)) by lia. lia.
    + change (avail (log _ w)) with (avail w). pose proof (avail_nonneg w).
      lia.
    + apply reads_well_log; auto.
  - eapply ends_bind
      with (Q := fun (_ : list (option (list byte))) w' =>
                   avail w' = avail w /\ reads_well w0 w').
    { assert (Hrw' : reads_well w0 (after_calloc w)).
      { destruct Hrw as [Hd Hp Ht]. split; assumption. }
      unfold ends, xcalloc, xalloc_die.
      destruct (SIZE_MAX P <? _).
      - repeat apply reads_well_log; auto.
      - destruct (calloc_fails w).
        + repeat apply reads_well_log; auto.
        + split; [reflexivity|]. apply reads_well_log; auto. }
    intros b w1 [Hav1 Hrw1].
    eapply ends_bind.
    { apply ring_loop_rd; [|assumption]. pose proof (avail_nonneg w). lia. }
    intros x w2 Hx. destruct (ring_fail x) eqn:Hfail.
    + apply ends_ret. destruct Hx as [Hx|[_ Hx]]; auto.
    + destruct Hx as [Hx|[Hx _]]; [|congruence].
      eapply ends_bind; [apply ring_remainder_rd; assumption|].
      intros u w3 Hrw3. apply ends_ret. left. assumption.
Qed.

Lemma elide_tail_bytes_file_rd (n_elide : Z) (w : world) :
  reads_well w0 w ->
  ends (elide_tail_bytes_file P n_elide) w
    (fun r w' => reads_well w0 w' \/ r = 1 /\ read_reported w0 w')
    (reads_well w0).
Proof.
  intros Hrw. unfold ends at 1, elide_tail_bytes_file.
  destruct (presume_input_pipe w
            || negb (match src_stat w with
                     | Some is_reg => is_reg
                     | None => false
                     end)).
  { apply elide_tail_bytes_pipe_rd. assumption. }
  eapply ends_bind; [apply lseek_rd; assumption|].
  intros current_pos w1 [Hrw1 Hcur].
  destruct (current_pos =? -1) eqn:Hc.
  { apply error_ends, ends_ret. left. apply reads_well_log; auto. }
  eapply ends_bind; [apply lseek_rd; assumption|].
  intros end_pos w2 [Hrw2 Hend].
  destruct (end_pos =? -1) eqn:He.
  { apply error_ends, ends_ret. left. apply reads_well_log; auto. }
  unfold elide_tail_bytes_seekable. cbn zeta.
  destruct (_ <=? n_elide) eqn:Hle; [apply ends_ret; left; assumption|].
  apply Z.leb_gt in Hle.
  eapply ends_bind; [apply lseek_rd; assumption|].
  intros r w3 [Hrw3 _].
  destruct (r =? -1).
  { apply error_ends, ends_ret. left. apply reads_well_log; auto. }
  apply copy_fd_diagnosed_rd; [lia|assumption].
Qed.

Lemma xmalloc_LBUFFER_rd (w : world) :
  reads_well w0 w ->
  ends (xmalloc_LBUFFER P) w
    (fun _ w' => avail w' = avail w /\ reads_well w0 w') (reads_well w0).
Proof.
  intros Hrw. unfold xmalloc_LBUFFER. apply xmalloc_ends, ends_ret.
  split; [reflexivity|]. apply reads_well_log; auto.
Qed.

Lemma lines_pipe_read_loop_rd (fuel : nat) (n_elide : Z)
    (front : list LBUFFER) (last tmp : LBUFFER) (total_lines : Z)
    (w : world) :
  avail w < Z.of_nat fuel -> reads_well w0 w ->
  ends (lines_pipe_read_loop P fuel n_elide front last tmp total_lines) w
    (fun r w' => if lr_error r then read_failed w0 w' else reads_well w0 w')
    (reads_well w0).
Proof.
  pose proof (wf_BUFSIZ P WF) as HB.
  revert front last tmp total_lines w.
  induction fuel as [|fuel IH];
    intros front last tmp total_lines w Hfuel Hrw.
  { pose proof (avail_nonneg w). lia. }
  cbn [lines_pipe_read_loop].
  eapply ends_bind; [apply safe_read_rd; assumption|].
  intros [data|] w1 Hr; [|apply ends_ret; apply Hr].
  destruct Hr as (Hrw1 & Hd0 & Hd1 & Hav & _). cbn zeta.
  destruct (zlen data =? 0) eqn:Hz; [apply ends_ret; assumption|].
  apply Z.eqb_neq in Hz. cbn [nbytes nlines buffer].
  destruct (_ <? BUFSIZ P); [apply IH; [lia|assumption]|].
  destruct (front ++ [last]) as [|first rest]; [exact Hrw1|].
  destruct (n_elide <? _).
  - eapply ends_bind; [apply fwrite_rd; assumption|].
    intros a w2 [Hav2 Hrw2]. apply IH; [lia|assumption].
  - eapply ends_bind; [apply xmalloc_LBUFFER_rd; assumption|].
    intros new w2 [Hav2 Hrw2]. apply IH; [lia|assumption].
Qed.

Lemma lines_pipe_flush_rd (n_elide : Z) (q : list LBUFFER)
    (total_lines : Z) (w : world) :
  reads_well w0 w ->
  ends (lines_pipe_flush n_elide q total_lines) w
    (fun _ w' => reads_well w0 w') (reads_well w0).
Proof.
  revert total_lines w. induction q as [|tmp q IH]; intros total_lines w Hrw.
  { exact Hrw. }
  cbn [lines_pipe_flush].
  destruct (n_elide <? _); [|apply ends_ret; assumption].
  eapply ends_bind; [apply fwrite_rd; assumption|].
  intros a w1 [_ Hrw1]. apply IH. assumption.
Qed.

Lemma elide_tail_lines_pipe_rd (n_elide : Z) (w : world) :
  reads_well w0 w ->
  ends (elide_tail_lines_pipe P n_elide) w
    (fun r w' => reads_well w0 w' \/ r = 1 /\ read_reported w0 w')
    (reads_well w0).
Proof.
  intros Hrw. unfold elide_tail_lines_pipe.
  eapply ends_bind; [apply xmalloc_LBUFFER_rd; assumption|].
  intros first w1 [_ Hrw1].
  eapply ends_bind; [apply xmalloc_LBUFFER_rd; assumption|].
  intros tmp w2 [_ Hrw2].
  eapply ends_bind
    with (Q := fun fuel w' => w' = w2 /\ fuel = S (Z.to_nat (avail w2))).
  { split; reflexivity. }
  intros fuel w3 [-> ->].
  eapply ends_bind.
  { apply lines_pipe_read_loop_rd; [|assumption].
    pose proof (avail_nonneg w2). lia. }
  intros r w3 Hr. cbv beta in Hr.
  destruct (lr_error r) eqn:Herr.
  { apply error_ends, ends_ret. right. split; [reflexivity|].
    apply read_failed_reported. assumption. }
  cbn zeta.
  eapply ends_bind; [apply lines_pipe_flush_rd; assumption|].
  intros [tmp' total_lines] w4 Hrw4.
  eapply ends_bind with (Q := fun (_ : unit) w' => reads_well w0 w').
  { destruct (n_elide <? total_lines); [|apply ends_ret; assumption].
    destruct (skip_lines _ _ _ _) as [p|]; [|exact Hrw4].
    eapply ends_bind; [apply fwrite_rd; assumption|].
    intros a w5 [_ Hrw5]. apply ends_ret. assumption. }
  intros u w5 Hrw5. apply ends_ret. left. assumption.
Qed.

Lemma lines_seekable_loop_rd (fuel : nat) (n_lines start_pos pos : Z)
    (buf : list byte) (bytes_read : Z) (w : world) :
  0 <= pos -> pos / BUFSIZ P < Z.of_nat fuel -> 0 <= bytes_read ->
  reads_well w0 w ->
  ends (lines_seekable_loop P fuel n_lines start_pos pos buf bytes_read) w
    (fun r w' => reads_well w0 w' \/ r = 1 /\ read_reported w0 w')
    (reads_well w0).
Proof.
  pose proof (wf_BUFSIZ P WF) as HB.
  revert n_lines pos buf bytes_read w.
  induction fuel as [|fuel IH];
    intros n_lines pos buf bytes_read w Hpos Hfuel Hbytes Hrw.
  { pose proof (Z.div_pos pos (BUFSIZ P) Hpos HB). lia. }
  cbn [lines_seekable_loop].
  eapply ends_bind; [apply scan_back_ends; lia|].
  intros s w1 ->. destruct s as [n|n_lines'].
  - eapply ends_bind
      with (Q := fun (failed : bool) w' =>
                   if failed
                   then reads_well w0 w' \/ read_reported w0 w'
                   else reads_well w0 w').
    { destruct (start_pos <? pos) eqn:Hsp; [|apply ends_ret; assumption].
      apply Z.ltb_lt in Hsp.
      eapply ends_bind; [apply lseek_rd; assumption|].
      intros r w2 [Hrw2 _]. destruct (r <? 0).
      { apply error_ends, ends_ret. left. apply reads_well_log; auto. }
      eapply ends_weaken; [apply copy_fd_diagnosed_rd; [lia|assumption]|].
      intros [|] w3 [H|[Heq H]]; auto; discriminate. }
    intros failed w2 H. destruct failed.
    + apply ends_ret. destruct H; auto.
    + eapply ends_bind; [apply fwrite_rd; assumption|].
      intros a w3 [_ Hrw3]. apply ends_ret. left. assumption.
  - destruct (pos =? start_pos); [apply ends_ret; left; assumption|].
    cbn zeta.
    eapply ends_bind; [apply lseek_rd; assumption|].
    intros r w2 [Hrw2 Hr]. destruct (r <? 0) eqn:Hr0.
    { apply error_ends, ends_ret. left. apply reads_well_log; auto. }
    apply Z.ltb_ge in Hr0.
    destruct Hr as [Hr|(_ & _ & Hr)]; [lia|]. specialize (Hr eq_refl).
    eapply ends_bind; [apply safe_read_rd; assumption|].
    intros [data|] w3 Hd.
    2:{ apply error_ends, ends_ret. right. split; [reflexivity|].
        apply read_failed_reported. apply Hd. }
    destruct Hd as (Hrw3 & Hd).
    destruct (zlen data =? 0); [apply ends_ret; left; assumption|].
    apply IH; [lia| |tauto|assumption].
    replace (pos - BUFSIZ P) with (pos + (-1) * BUFSIZ P) by lia.
    rewrite Z.div_add by lia. lia.
Qed.

Lemma elide_tail_lines_seekable_rd (n_lines start_pos end_pos : Z)
    (w : world) :
  reads_well w0 w ->
  ends (elide_tail_lines_seekable P n_lines start_pos end_pos) w
    (fun r w' => reads_well w0 w' \/ r = 1 /\ read_reported w0 w')
    (reads_well w0).
Proof.
  intros Hrw. pose proof (wf_BUFSIZ P WF) as HB.
  unfold elide_tail_lines_seekable.
  unfold ends at 1, bind at 1, local_array. fold (@ends Z). cbn zeta.
  match goal with |- context [lseek ?p SEEK_SET] => set (pos := p) end.
  eapply ends_bind; [apply lseek_rd; assumption|].
  intros r w1 [Hrw1 Hr]. destruct (r <? 0) eqn:Hr0.
  { apply error_ends, ends_ret. left. apply reads_well_log; auto. }
  apply Z.ltb_ge in Hr0.
  destruct Hr as [Hr|(_ & _ & Hr)]; [lia|]. specialize (Hr eq_refl).
  eapply ends_bind; [apply safe_read_rd; assumption|].
  intros [data|] w2 Hd.
  2:{ apply error_ends, ends_ret. right. split; [reflexivity|].
      apply read_failed_reported. apply Hd. }
  destruct Hd as (Hrw2 & Hd).
  pose proof (Z.div_pos pos (BUFSIZ P) ltac:(lia) HB).
  apply lines_seekable_loop_rd; [lia| |tauto|assumption].
  replace (Z.max 0 pos) with pos by lia. lia.
Qed.

Lemma elide_tail_lines_file_rd (n_elide : Z) (w : world) :
  reads_well w0 w ->
  ends (elide_tail_lines_file P n_elide) w
    (fun r w' => reads_well w0 w' \/ r = 1 /\ read_reported w0 w')
    (reads_well w0).
Proof.
  intros Hrw. unfold ends at 1, elide_tail_lines_file.
  destruct (negb (presume_input_pipe w));
    [|apply elide_tail_lines_pipe_rd; assumption].
  eapply ends_bind; [apply lseek_rd; assumption|].
  intros start_pos w1 [Hrw1 _].
  eapply ends_bind; [apply lseek_rd; assumption|].
  intros end_pos w2 [Hrw2 _].
  destruct ((0 <=? start_pos) && (start_pos <? end_pos)).
  - destruct (end_pos =? 0); [apply ends_ret; left; assumption|].
    apply elide_tail_lines_seekable_rd. assumption.
  - apply elide_tail_lines_pipe_rd. assumption.
Qed.

End Since.

Lemma clean_no_read_error (new : list event) :
  Forall (fun e => is_read_error e = false) new ->
  ~ Exists (fun e => is_read_error e = true) new.
Proof.
  intros Hclean Hex. induction Hclean as [|e l He Hl IH].
  - inversion Hex.
  - inversion Hex as [? ? Hhd|? ? Htl]; subst; [congruence|auto].
Qed.

Lemma ends_reports_rd (m : M Z) (w : world) :
  ends m w (fun r w' => reads_well w w' \/ r = 1 /\ read_reported w w')
    (reads_well w) ->
  reports_read_failures (m w) w.
Proof.
  unfold ends, reports_read_failures.
  assert (Hclean : forall (o : outcome Z) w',
             final_world o = Some w' -> reads_well w w' ->
             exists w'' new,
               final_world o = Some w'' /\ trace w'' = new ++ trace w /\
               (Exists (fun e => is_read_error e = true) new ->
                o = Ret 1 w''
                /\ exists c rest,
                     new = Ev_error 0 error_reading :: Ev_read c None :: rest
                     /\ Forall (fun e => is_read_error e = false) rest)).
  { intros o w' Ho [_ _ (new & Ht & Hc)].
    exists w', new. conj; auto.
    intros Hex. exfalso. revert Hex. apply clean_no_read_error, Hc. }
  destruct (m w) as [r w'|s w'|w'|]; intros H.
  - destruct H as [H|[-> (c & rest & Ht & Hc)]].
    + apply (Hclean _ w'); auto.
    + exists w', (Ev_error 0 error_reading :: Ev_read c None :: rest).
      conj; auto. intros _. split; [reflexivity|]. exists c, rest. auto.
  - apply (Hclean _ w'); auto.
  - apply (Hclean _ w'); auto.
  - contradiction.
Qed.

(** Every read failure is reported: whatever the reads, writes and seeks
    do, each elision call ends, and when a read failed it was the last
    read of the call, "error reading" was printed right after it and the
    call returned 1. *)
Theorem read_failures_reported (n_elide : Z) (w : world) :
  0 <= src_pos w ->
  reports_read_failures (elide_tail_bytes_file P n_elide w) w
  /\ reports_read_failures (elide_tail_bytes_pipe P n_elide w) w
  /\ reports_read_failures (elide_tail_lines_file P n_elide w) w
  /\ reports_read_failures (elide_tail_lines_pipe P n_elide w) w
  /\ forall start_pos end_pos,
       reports_read_failures
         (elide_tail_lines_seekable P n_elide start_pos end_pos w) w.
Proof.
  intros Hpos. pose proof (reads_well_refl w) as Hrw. conj.
  - apply ends_reports_rd, elide_tail_bytes_file_rd; assumption.
  - apply ends_reports_rd, elide_tail_bytes_pipe_rd; assumption.
  - apply ends_reports_rd, elide_tail_lines_file_rd; assumption.
  - apply ends_reports_rd, elide_tail_lines_pipe_rd; assumption.
  - intros start_pos end_pos.
    apply ends_reports_rd, elide_tail_lines_seekable_rd; assumption.
Qed.

End ReadFailures.

Lemma read_failures_reported_witness :
  let w := with_plans (pipe_of (ln "a" ++ ln "b")) [Rd_at_most 3; Rd_fail]
             [] [] in
  reports_read_failures (elide_tail_bytes_file lp64 1 w) w
  /\ reports_read_failures (elide_tail_bytes_pipe lp64 1 w) w
  /\ reports_read_failures (elide_tail_lines_file lp64 1 w) w
  /\ reports_read_failures (elide_tail_lines_pipe lp64 1 w) w
  /\ forall start_pos end_pos,
       reports_read_failures
         (elide_tail_lines_seekable lp64 1 start_pos end_pos w) w.
Proof.
  intros w. apply (read_failures_reported lp64 wf_lp64 1 w). simpl. lia.
Defined.

(** The second read of the streaming line elider fails. *)
Example scenario_read_failure :
  exists w',
    elide_tail_lines_pipe lp64 1
      (with_plans (pipe_of (ln "a" ++ ln "b")) [Rd_at_most 3; Rd_fail] [] [])
    = Ret 1 w'
    /\ out w' = []
    /\ trace w' = [Ev_error 0 error_reading; Ev_read 8192 None;
                   Ev_read 8192 (Some 3); Ev_xmalloc 8216; Ev_xmalloc 8216].
Proof.
  eexists. conj; vm_compute; reflexivity.
Qed.

(** * The ring strategy on long inputs *)



Section RingLong.

Variable P : platform.
Hypothesis WF : wf_platform P.







End RingLong.


(** Ten bytes elided from twenty-six through a ring of four blocks of four
    bytes. *)
Example scenario_ring :
  result (elide_tail_bytes_pipe lp64_small 10
            (pipe_of (bytes "abcdefghijklmnopqrstuvwxyz")))
  = Some (0, bytes "abcdefghijklmnop").
Proof. vm_compute. reflexivity. Qed.

